(** * The memory-tree scene: a shallow embedding and its properties

    The scene is a set of React components drawn with three.js.  Each
    visual element owns two point sets (a tree shape and a scattered
    shape), a progress value that a per-frame callback steps toward the
    toggle, and a blend of the two point sets driven by that progress.

    Numbers.  JavaScript numbers are IEEE doubles and the typed arrays
    hold IEEE singles.  The component modules ([Foliage], [Spiral],
    [Ornaments], ...) compute in the real numbers [R]: there the
    rounding of doubles and the single-precision storage of
    [Float32Array] are abstracted away, and every arithmetic fact about
    them is a fact of exact arithmetic.  Where a property depends on
    what the machine does, [FoliageIEEE] and [SpiralIEEE] keep it: the
    progress of the frame callbacks is computed in double precision and
    every value the generators store is narrowed to single precision.
    The roundings are functions on [R] (module [Rounding]).
    [Math.random] is modelled as a stream of draws that the generators
    consume in program order. *)

From Stdlib Require Import Reals Lra Lia List.
From stdpp Require Import base list strings.

Set Warnings "-register-all".

Local Open Scope R_scope.

(** ** JavaScript's [Math] object *)

Module Math.

Definition PI : R := Rtrigo1.PI.
Definition cos : R -> R := Rtrigo_def.cos.
Definition sin : R -> R := Rtrigo_def.sin.
Definition acos : R -> R := Ratan.acos.
Definition min (a b : R) : R := Rmin a b.
Definition max (a b : R) : R := Rmax a b.

(** [Math.pow] at a natural exponent, the only use made of it in the
    frame callbacks. *)
Definition pow (b : R) (e : nat) : R := b ^ e.

(** [Math.cbrt]: the real cube root, odd and defined everywhere. *)
Definition cbrt (v : R) : R :=
  if Rlt_dec 0 v then exp (ln v / 3)
  else if Rlt_dec v 0 then - exp (ln (- v) / 3)
  else 0.

(** The state of the random generator: the draws still to come. *)
Definition Rng : Type := nat -> R.

(** [Math.random()] returns the next draw and advances the stream. *)
Definition random (g : Rng) : R * Rng :=
  (g 0%nat, fun k => g (S k)).

(** Every draw lies in [0, 1), as the language guarantees. *)
Definition unit_draws (g : Rng) : Prop :=
  forall k : nat, 0 <= g k < 1.

End Math.

(** ** The parts of three.js the components use *)

Module THREE.

Record Vector3 : Type := mkVector3 { x : R; y : R; z : R }.

Record Color : Type := mkColor { r : R; g : R; b : R }.

Module MathUtils.
(** [lerp(x, y, t)] is [(1 - t) * x + t * y]. *)
Definition lerp (a b t : R) : R := (1 - t) * a + t * b.
End MathUtils.

(** Euclidean length of a vector. *)
Definition length (v : Vector3) : R :=
  sqrt (x v * x v + y v * y v + z v * z v).

(** A transform matrix, kept as the position, rotation and scale it
    was composed from; its translation column is the position. *)
Record Matrix4 : Type := compose {
  translation : Vector3;
  orientation : Vector3;
  scaling : Vector3
}.

Record Object3D : Type := {
  position : Vector3;
  rotation : Vector3;
  scale : Vector3;
  matrix : Matrix4
}.

Definition updateMatrix (o : Object3D) : Object3D :=
  {| position := position o; rotation := rotation o; scale := scale o;
     matrix := compose (position o) (rotation o) (scale o) |}.

Record InstancedMesh : Type := {
  instanceMatrix : list Matrix4;
  needsUpdate : bool
}.

(** [setMatrixAt(i, m)] copies [m] into slot [i] of the instance
    buffer; a slot past the end is ignored. *)
Definition setMatrixAt (i : nat) (m : Matrix4) (mesh : InstancedMesh) : InstancedMesh :=
  {| instanceMatrix := <[i := m]> (instanceMatrix mesh);
     needsUpdate := needsUpdate mesh |}.

End THREE.

(** [array.forEach((item, i) => f)] over a state [S], the index
    starting at [i]. *)
Fixpoint forEach_from {A S : Type} (i : nat) (l : list A) (f : A -> nat -> S -> S)
    (s : S) : S :=
  match l with
  | [] => s
  | a :: l' => forEach_from (Datatypes.S i) l' f (f a i s)
  end.

Definition forEach {A S : Type} (l : list A) (f : A -> nat -> S -> S) (s : S) : S :=
  forEach_from 0 l f s.

(** A typed array of floats; [new Float32Array(n)] is filled with zeros
    and a write past the end is ignored, like stdpp's list insert.  The
    entries are real numbers; a store that narrows its value to single
    precision, as the machine does, is [Float32.store] below. *)
Abbreviation Float32Array := (list R).

Definition new_Float32Array (n : nat) : Float32Array := replicate n 0.

(** [for (let i = 0; i < n; i++) body] over a state [S]. *)
Definition for_loop {S : Type} (n : nat) (body : nat -> S -> S) (s : S) : S :=
  fold_left (fun acc i => body i acc) (seq 0 n) s.

(** ** Types and constants of the application *)

(** Modelled from the spec: the enum [TreeMorphState] of [../types] is
    not among the sources; the spec describes it as a binary toggle
    state, tree shape or scattered. *)
Inductive TreeMorphState : Type :=
| TREE_SHAPE
| SCATTERED.

Definition TreeMorphState_eqb (a b : TreeMorphState) : bool :=
  match a, b with
  | TREE_SHAPE, TREE_SHAPE | SCATTERED, SCATTERED => true
  | _, _ => false
  end.

(** Modelled from the spec: the module [../constants] is not among the
    sources; the counts and dimensions it exports are parameters of the
    development. *)
Class Constants : Type := {
  FOLIAGE_COUNT : nat;
  SPIRAL_PARTICLE_COUNT : nat;
  TREE_HEIGHT : R;
  TREE_RADIUS_BOTTOM : R;
  SCATTER_RADIUS : R;
  COLORS_EMERALD_LIGHT : THREE.Color;
  COLORS_GOLD_METALLIC : THREE.Color
}.

(** The part of the renderer's per-frame state the callbacks read:
    [state.clock.elapsedTime] and [state.viewport.dpr]. *)
Record RootState : Type := {
  elapsedTime : R;
  dpr : R
}.

(** One call of a frame callback: the toggle state of the render that
    installed it, the renderer state and the elapsed time step. *)
Record Frame : Type := {
  toggle : TreeMorphState;
  root : RootState;
  delta : R
}.

(** The time elapsed over a run of frames. *)
Definition elapsed (fs : list Frame) : R :=
  fold_right (fun f acc => delta f + acc) 0 fs.

(** What happens to a mounted component: React runs its function
    again, or the renderer calls its frame callback. *)
Inductive Step : Type :=
| Rerender
| Animate (f : Frame).

(** ** React hooks *)

Module React.

(** [useMemo(compute, [])]: the cell is filled by the first render and
    every later render returns the stored value without running
    [compute]. *)
Definition useMemo {A : Type} (cell : option A) (compute : Math.Rng -> A * Math.Rng)
    (g : Math.Rng) : A * Math.Rng :=
  match cell with
  | Some v => (v, g)
  | None => compute g
  end.

End React.

(** ** Foliage *)

Module Foliage.
Section Component.
Context {K : Constants}.

Record Uniforms : Type := {
  uTime : R;
  uProgress : R;
  uPixelRatio : R;
  uColorBase : THREE.Color;
  uColorGold : THREE.Color
}.

Record Geometry : Type := {
  positions : Float32Array;
  scatterPositions : Float32Array;
  randoms : Float32Array
}.

(** One round of the generation loop, in the order of the source. *)
Definition generate_body (i : nat) (st : Geometry * Math.Rng) : Geometry * Math.Rng :=
  let '(geo, g) := st in
  let t := INR i / INR FOLIAGE_COUNT in
  let angle := t * Math.PI * 2 * 30 in
  let y := - (TREE_HEIGHT / 2) + t * TREE_HEIGHT in
  let radiusAtHeight := ((TREE_HEIGHT / 2 - y) / TREE_HEIGHT) * TREE_RADIUS_BOTTOM in
  let '(u1, g) := Math.random g in
  let r := radiusAtHeight + (u1 - 0.5) * 1.5 in
  let x := Math.cos angle * r in
  let z := Math.sin angle * r in
  let pos := <[(i * 3 + 2)%nat := z]>
               (<[(i * 3 + 1)%nat := y]> (<[(i * 3)%nat := x]> (positions geo))) in
  let '(u2, g) := Math.random g in
  let theta := u2 * Math.PI * 2 in
  let '(u3, g) := Math.random g in
  let phi := Math.acos (2 * u3 - 1) in
  let '(u4, g) := Math.random g in
  let sr := SCATTER_RADIUS * Math.cbrt u4 in
  let sca := <[(i * 3 + 2)%nat := sr * Math.cos phi]>
               (<[(i * 3 + 1)%nat := sr * Math.sin phi * Math.sin theta]>
                  (<[(i * 3)%nat := sr * Math.sin phi * Math.cos theta]>
                     (scatterPositions geo))) in
  let '(u5, g) := Math.random g in
  let rnd := <[i := u5]> (randoms geo) in
  ({| positions := pos; scatterPositions := sca; randoms := rnd |}, g).

(** The callback of the first [useMemo]. *)
Definition generate (g : Math.Rng) : Geometry * Math.Rng :=
  for_loop FOLIAGE_COUNT generate_body
    ({| positions := new_Float32Array (FOLIAGE_COUNT * 3);
        scatterPositions := new_Float32Array (FOLIAGE_COUNT * 3);
        randoms := new_Float32Array FOLIAGE_COUNT |}, g).

(** The callback of the second [useMemo]. *)
Definition initial_uniforms : Uniforms :=
  {| uTime := 0; uProgress := 0; uPixelRatio := 1;
     uColorBase := COLORS_EMERALD_LIGHT; uColorGold := COLORS_GOLD_METALLIC |}.

(** The hooks of one mounted component: three refs and the memo cell
    of the geometry.  [shaderRef] holds the uniforms of the shader
    material once it is attached. *)
Record Instance : Type := {
  shaderRef : option Uniforms;
  targetProgress : R;
  currentProgress : R;
  geometry : option Geometry
}.

(** The hooks before the first render: [useRef(null)], [useRef(0)],
    [useRef(0)] and an empty memo cell. *)
Definition initial : Instance :=
  {| shaderRef := None; targetProgress := 0; currentProgress := 0; geometry := None |}.

(** One run of the component function: the refs are kept and the
    geometry is read through [useMemo]. *)
Definition render (c : Instance) (g : Math.Rng) : Instance * Math.Rng :=
  let '(geo, g) := React.useMemo (geometry c) generate g in
  ({| shaderRef := shaderRef c;
      targetProgress := targetProgress c;
      currentProgress := currentProgress c;
      geometry := Some geo |}, g).

(** Attaching the shader material fills [shaderRef] with a material
    that carries the memoised uniforms. *)
Definition attach (c : Instance) : Instance :=
  {| shaderRef := Some match shaderRef c with Some u => u | None => initial_uniforms end;
     targetProgress := targetProgress c;
     currentProgress := currentProgress c;
     geometry := geometry c |}.

(** The callback given to [useFrame]. *)
Definition useFrame (treeState : TreeMorphState) (state : RootState) (delta : R)
    (c : Instance) : Instance :=
  match shaderRef c with
  | Some u =>
      let target := if TreeMorphState_eqb treeState TREE_SHAPE then 1.0 else 0.0 in
      let speed := 2.0 * delta in
      let current :=
        if Rlt_dec (currentProgress c) target
        then Math.min (currentProgress c + speed) 1.0
        else if Rgt_dec (currentProgress c) target
        then Math.max (currentProgress c - speed) 0.0
        else currentProgress c in
      {| shaderRef := Some {| uTime := elapsedTime state;
                              uProgress := current;
                              uPixelRatio := dpr state;
                              uColorBase := uColorBase u;
                              uColorGold := uColorGold u |};
         targetProgress := target;
         currentProgress := current;
         geometry := geometry c |}
  | None => c
  end.

(** A run of frames, each with the toggle state of its render. *)
Definition frames (fs : list Frame) (c : Instance) : Instance :=
  fold_left (fun acc f => useFrame (toggle f) (root f) (delta f) acc) fs c.

(** The life of a component: renders and frames in any order, the
    random generator threaded through the renders. *)
Definition step (s : Step) (st : Instance * Math.Rng) : Instance * Math.Rng :=
  match s with
  | Rerender => render (fst st) (snd st)
  | Animate f => (useFrame (toggle f) (root f) (delta f) (fst st), snd st)
  end.

Definition life (steps : list Step) (st : Instance * Math.Rng) : Instance * Math.Rng :=
  fold_left (fun acc s => step s acc) steps st.

(** The first render followed by the attachment of the material. *)
Definition mount (g : Math.Rng) : Instance * Math.Rng :=
  let '(c, g) := render initial g in (attach c, g).

End Component.
End Foliage.

(** ** Spiral *)

Module Spiral.
Section Component.
Context {K : Constants}.

Record Uniforms : Type := {
  uTime : R;
  uProgress : R;
  uPixelRatio : R;
  uColor : string
}.

Record Geometry : Type := {
  treePositions : Float32Array;
  scatterPositions : Float32Array;
  lineProgress : Float32Array
}.

Definition turns : R := 6.0.
Definition heightOffset : R := 1.0.

(** One round of the generation loop, in the order of the source. *)
Definition generate_body (i : nat) (st : Geometry * Math.Rng) : Geometry * Math.Rng :=
  let '(geo, g) := st in
  let p := INR i / INR SPIRAL_PARTICLE_COUNT in
  let y := - (TREE_HEIGHT / 2) + p * TREE_HEIGHT + heightOffset in
  let rawRadius :=
    ((TREE_HEIGHT / 2 - (y - heightOffset)) / TREE_HEIGHT) * TREE_RADIUS_BOTTOM in
  let r := Math.max 0.1 (rawRadius + 0.6) in
  let angle := p * Math.PI * 2 * turns in
  let tPos := <[(i * 3 + 2)%nat := Math.sin angle * r]>
                (<[(i * 3 + 1)%nat := y]>
                   (<[(i * 3)%nat := Math.cos angle * r]> (treePositions geo))) in
  let '(u1, g) := Math.random g in
  let theta := u1 * Math.PI * 2 in
  let '(u2, g) := Math.random g in
  let phi := Math.acos (2 * u2 - 1) in
  let '(u3, g) := Math.random g in
  let sr := SCATTER_RADIUS * 1.1 * Math.cbrt u3 in
  let sPos := <[(i * 3 + 2)%nat := sr * Math.cos phi]>
                (<[(i * 3 + 1)%nat := sr * Math.sin phi * Math.sin theta]>
                   (<[(i * 3)%nat := sr * Math.sin phi * Math.cos theta]>
                      (scatterPositions geo))) in
  let progress := <[i := p]> (lineProgress geo) in
  ({| treePositions := tPos; scatterPositions := sPos; lineProgress := progress |}, g).

(** The callback of the first [useMemo]. *)
Definition generate (g : Math.Rng) : Geometry * Math.Rng :=
  for_loop SPIRAL_PARTICLE_COUNT generate_body
    ({| treePositions := new_Float32Array (SPIRAL_PARTICLE_COUNT * 3);
        scatterPositions := new_Float32Array (SPIRAL_PARTICLE_COUNT * 3);
        lineProgress := new_Float32Array SPIRAL_PARTICLE_COUNT |}, g).

(** The callback of the second [useMemo]; the colour is kept as the
    string it is built from. *)
Definition initial_uniforms : Uniforms :=
  {| uTime := 0; uProgress := 0; uPixelRatio := 1; uColor := "#FFD700" |}.

Record Instance : Type := {
  shaderRef : option Uniforms;
  currentProgress : R;
  geometry : option Geometry
}.

Definition initial : Instance :=
  {| shaderRef := None; currentProgress := 0; geometry := None |}.

Definition render (c : Instance) (g : Math.Rng) : Instance * Math.Rng :=
  let '(geo, g) := React.useMemo (geometry c) generate g in
  ({| shaderRef := shaderRef c;
      currentProgress := currentProgress c;
      geometry := Some geo |}, g).

Definition attach (c : Instance) : Instance :=
  {| shaderRef := Some match shaderRef c with Some u => u | None => initial_uniforms end;
     currentProgress := currentProgress c;
     geometry := geometry c |}.

(** The callback given to [useFrame]. *)
Definition useFrame (treeState : TreeMorphState) (state : RootState) (delta : R)
    (c : Instance) : Instance :=
  match shaderRef c with
  | Some u =>
      let target := if TreeMorphState_eqb treeState TREE_SHAPE then 1.0 else 0.0 in
      let speed := 2.0 * delta in
      let current :=
        if Rlt_dec (currentProgress c) target
        then Math.min (currentProgress c + speed) 1.0
        else if Rgt_dec (currentProgress c) target
        then Math.max (currentProgress c - speed) 0.0
        else currentProgress c in
      {| shaderRef := Some {| uTime := elapsedTime state;
                              uProgress := current;
                              uPixelRatio := dpr state;
                              uColor := uColor u |};
         currentProgress := current;
         geometry := geometry c |}
  | None => c
  end.

Definition frames (fs : list Frame) (c : Instance) : Instance :=
  fold_left (fun acc f => useFrame (toggle f) (root f) (delta f) acc) fs c.

(** The life of a component: renders and frames in any order, the
    random generator threaded through the renders. *)
Definition step (s : Step) (st : Instance * Math.Rng) : Instance * Math.Rng :=
  match s with
  | Rerender => render (fst st) (snd st)
  | Animate f => (useFrame (toggle f) (root f) (delta f) (fst st), snd st)
  end.

Definition life (steps : list Step) (st : Instance * Math.Rng) : Instance * Math.Rng :=
  fold_left (fun acc s => step s acc) steps st.

(** The first render followed by the attachment of the material. *)
Definition mount (g : Math.Rng) : Instance * Math.Rng :=
  let '(c, g) := render initial g in (attach c, g).

End Component.
End Spiral.

(** ** Ornaments *)

Module Ornaments.

(** The record pushed by [generateData]. *)
Record OrnamentData : Type := {
  id : nat;
  scale : R;
  color : string;
  scatterPos : THREE.Vector3;
  scatterRot : THREE.Vector3;
  treePos : THREE.Vector3;
  treeRot : THREE.Vector3
}.

(** The hooks of one mounted component together with [tempObject],
    the module-level object every update writes through. *)
Record Instance : Type := {
  tempObject : THREE.Object3D;
  boxMeshRef : option THREE.InstancedMesh;
  sphereMeshRef : option THREE.InstancedMesh;
  progressRef : R;
  boxData : list OrnamentData;
  sphereData : list OrnamentData
}.

(** The progress after step 1 of the frame callback. *)
Definition progress (treeState : TreeMorphState) (delta : R) (current : R) : R :=
  let target := if TreeMorphState_eqb treeState TREE_SHAPE then 1 else 0 in
  let speed := 1.5 * delta in
  if Rlt_dec current target then Math.min (current + speed) 1
  else if Rgt_dec current target then Math.max (current - speed) 0
  else current.

Definition easedT (t : R) : R :=
  if Rlt_dec t 0.5 then 4 * t * t * t else 1 - Math.pow (-2 * t + 2) 3 / 2.

(** The callback of [boxData.forEach]. *)
Definition update_box (t time : R) (data : OrnamentData) (i : nat)
    (st : THREE.Object3D * THREE.InstancedMesh) : THREE.Object3D * THREE.InstancedMesh :=
  let '(tmp, mesh) := st in
  let pos :=
    THREE.mkVector3
      (THREE.MathUtils.lerp (THREE.x (scatterPos data)) (THREE.x (treePos data)) (easedT t))
      (THREE.MathUtils.lerp (THREE.y (scatterPos data)) (THREE.y (treePos data)) (easedT t))
      (THREE.MathUtils.lerp (THREE.z (scatterPos data)) (THREE.z (treePos data)) (easedT t)) in
  let '(pos, rot) :=
    if Rlt_dec t 0.9 then
      let floatScale := (1 - t) * 0.5 in
      (THREE.mkVector3 (THREE.x pos)
         (THREE.y pos + Math.sin (time + INR (id data)) * floatScale)
         (THREE.z pos),
       THREE.mkVector3
         (THREE.x (scatterRot data) + time * 0.2 * (1 - t))
         (THREE.y (scatterRot data) + time * 0.1 * (1 - t))
         (THREE.z (THREE.rotation tmp)))
    else
      (pos,
       THREE.mkVector3
         (THREE.MathUtils.lerp (THREE.x (scatterRot data)) (THREE.x (treeRot data)) (easedT t)
          + time * 0.1)
         (THREE.MathUtils.lerp (THREE.y (scatterRot data)) (THREE.y (treeRot data)) (easedT t)
          + time * 0.1)
         (THREE.MathUtils.lerp (THREE.z (scatterRot data)) (THREE.z (treeRot data)) (easedT t)))
  in
  let tmp :=
    THREE.updateMatrix
      {| THREE.position := pos; THREE.rotation := rot;
         THREE.scale := THREE.mkVector3 (scale data) (scale data) (scale data);
         THREE.matrix := THREE.matrix tmp |} in
  (tmp, THREE.setMatrixAt i (THREE.matrix tmp) mesh).

(** The callback of [sphereData.forEach]. *)
Definition update_sphere (t time : R) (data : OrnamentData) (i : nat)
    (st : THREE.Object3D * THREE.InstancedMesh) : THREE.Object3D * THREE.InstancedMesh :=
  let '(tmp, mesh) := st in
  let pos :=
    THREE.mkVector3
      (THREE.MathUtils.lerp (THREE.x (scatterPos data)) (THREE.x (treePos data)) (easedT t))
      (THREE.MathUtils.lerp (THREE.y (scatterPos data)) (THREE.y (treePos data)) (easedT t))
      (THREE.MathUtils.lerp (THREE.z (scatterPos data)) (THREE.z (treePos data)) (easedT t)) in
  let rot :=
    THREE.mkVector3
      (THREE.x (scatterRot data) + time * 0.5)
      (THREE.y (scatterRot data) + time * 0.5)
      0 in
  let tmp :=
    THREE.updateMatrix
      {| THREE.position := pos; THREE.rotation := rot;
         THREE.scale := THREE.mkVector3 (scale data) (scale data) (scale data);
         THREE.matrix := THREE.matrix tmp |} in
  (tmp, THREE.setMatrixAt i (THREE.matrix tmp) mesh).

Definition flag_update (mesh : THREE.InstancedMesh) : THREE.InstancedMesh :=
  {| THREE.instanceMatrix := THREE.instanceMatrix mesh; THREE.needsUpdate := true |}.

(** The callback given to [useFrame]. *)
Definition useFrame (treeState : TreeMorphState) (state : RootState) (delta : R)
    (c : Instance) : Instance :=
  let t := progress treeState delta (progressRef c) in
  let time := elapsedTime state in
  let '(tmp, boxes) :=
    match boxMeshRef c with
    | Some mesh =>
        let '(tmp, mesh) := forEach (boxData c) (update_box t time) (tempObject c, mesh) in
        (tmp, Some (flag_update mesh))
    | None => (tempObject c, None)
    end in
  let '(tmp, spheres) :=
    match sphereMeshRef c with
    | Some mesh =>
        let '(tmp, mesh) := forEach (sphereData c) (update_sphere t time) (tmp, mesh) in
        (tmp, Some (flag_update mesh))
    | None => (tmp, None)
    end in
  {| tempObject := tmp;
     boxMeshRef := boxes;
     sphereMeshRef := spheres;
     progressRef := t;
     boxData := boxData c;
     sphereData := sphereData c |}.

Definition frames (fs : list Frame) (c : Instance) : Instance :=
  fold_left (fun acc f => useFrame (toggle f) (root f) (delta f) acc) fs c.

(** [new THREE.Object3D()]. *)
Definition new_Object3D : THREE.Object3D :=
  {| THREE.position := THREE.mkVector3 0 0 0;
     THREE.rotation := THREE.mkVector3 0 0 0;
     THREE.scale := THREE.mkVector3 1 1 1;
     THREE.matrix :=
       THREE.compose (THREE.mkVector3 0 0 0) (THREE.mkVector3 0 0 0) (THREE.mkVector3 1 1 1) |}.

(** The hooks before the meshes are attached, for the data the two
    calls of [generateData] returned. *)
Definition initial (boxes spheres : list OrnamentData) : Instance :=
  {| tempObject := new_Object3D;
     boxMeshRef := None;
     sphereMeshRef := None;
     progressRef := 0;
     boxData := boxes;
     sphereData := spheres |}.

(** An instanced mesh of [count] slots, each the identity. *)
Definition new_InstancedMesh (count : nat) : THREE.InstancedMesh :=
  {| THREE.instanceMatrix := replicate count (THREE.matrix new_Object3D);
     THREE.needsUpdate := false |}.

(** Attaching the two meshes; each has as many slots as its data has
    entries. *)
Definition attach (c : Instance) : Instance :=
  {| tempObject := tempObject c;
     boxMeshRef := Some (new_InstancedMesh (length (boxData c)));
     sphereMeshRef := Some (new_InstancedMesh (length (sphereData c)));
     progressRef := progressRef c;
     boxData := boxData c;
     sphereData := sphereData c |}.

(** The position held in slot [i] of an instanced mesh. *)
Definition instance_position (mesh : option THREE.InstancedMesh) (i : nat)
    : option THREE.Vector3 :=
  match mesh with
  | Some m => THREE.translation <$> (THREE.instanceMatrix m !! i)
  | None => None
  end.

End Ornaments.

(** ** Overlay *)

(** The elements a component returns: a tag, a class name, an optional
    click handler and children, or a text node.  Handlers are values of
    a type [H] of callbacks. *)
Module JSX.
Section Nodes.
Context {H : Type}.

Inductive Node : Type :=
| Element (tag : string) (className : string) (onClick : option H) (children : list Node)
| Text (s : string).

Definition handlers (h : option H) : list H :=
  match h with
  | Some f => [f]
  | None => []
  end.

(** The elements of a tree that carry a given tag, in document order. *)
Fixpoint by_tag (tag : string) (n : Node) : list Node :=
  match n with
  | Element t _ _ cs =>
      (if String.eqb t tag then [n] else [])
        ++ (fix over (l : list Node) : list Node :=
              match l with
              | [] => []
              | c :: l' => by_tag tag c ++ over l'
              end) cs
  | Text _ => []
  end.

(** The text of a tree: its text nodes, concatenated. *)
Fixpoint textContent (n : Node) : string :=
  match n with
  | Element _ _ _ cs =>
      (fix over (l : list Node) : string :=
         match l with
         | [] => ""
         | c :: l' => textContent c +:+ over l'
         end) cs
  | Text s => s
  end.

(** A click on the node reached by [path] (child indices from the
    root): the handlers that run, the target's first and then those of
    its ancestors as the event bubbles; [None] when there is no node
    at that path. *)
Fixpoint click (n : Node) (path : list nat) : option (list H) :=
  match path with
  | [] =>
      match n with
      | Element _ _ h _ => Some (handlers h)
      | Text _ => Some []
      end
  | k :: path' =>
      match n with
      | Element _ _ h cs =>
          match
            (fix child (l : list Node) (k : nat) : option (list H) :=
               match l, k with
               | [], _ => None
               | c :: _, O => click c path'
               | _ :: l', Datatypes.S k' => child l' k'
               end) cs k
          with
          | Some hs => Some (hs ++ handlers h)
          | None => None
          end
      | Text _ => None
      end
  end.

End Nodes.
Arguments Node : clear implicits.
End JSX.

Module Overlay.
Section Component.
Context {H : Type}.

Definition Overlay (treeState : TreeMorphState) (onToggle : H) : JSX.Node H :=
  let isTree := TreeMorphState_eqb treeState TREE_SHAPE in
  JSX.Element "div"
    "absolute inset-0 pointer-events-none flex flex-col justify-between p-8 md:p-12 z-10" None
    [ JSX.Element "header" "flex flex-col items-start gap-2 animate-fade-in-down" None
        [ JSX.Element "div" "border-l-4 border-yellow-500 pl-4" None
            [ JSX.Element "h1"
                "text-4xl md:text-6xl font-serif text-white tracking-widest uppercase" None
                [ JSX.Text "Merry ";
                  JSX.Element "span" "text-gold-gradient font-bold" None
                    [ JSX.Text "Christmas" ] ];
              JSX.Element "h2"
                "text-xl md:text-2xl text-emerald-200/80 font-light tracking-[0.3em] mt-2" None
                [ JSX.Text "Feifei Baobao" ] ] ];
      JSX.Element "div" "flex justify-end items-end pointer-events-auto" None
        [ JSX.Element "button"
            "group relative px-10 py-4 bg-emerald-950/80 backdrop-blur-md border border-yellow-500/30 hover:border-yellow-400 transition-all duration-500 overflow-hidden"
            (Some onToggle)
            [ JSX.Element "div"
                "absolute inset-0 w-full h-full bg-gradient-to-r from-transparent via-yellow-400/10 to-transparent -translate-x-full group-hover:translate-x-full transition-transform duration-700 ease-in-out"
                None [];
              JSX.Element "span"
                "relative z-10 font-serif text-xl tracking-widest text-gold-gradient group-hover:text-yellow-200 transition-colors"
                None
                [ JSX.Text (if isTree then "RELEASE MEMORY" else "RESTORE ORDER") ];
              JSX.Element "div"
                "absolute top-0 left-0 w-2 h-2 border-t border-l border-yellow-500" None [];
              JSX.Element "div"
                "absolute bottom-0 right-0 w-2 h-2 border-b border-r border-yellow-500" None []
            ] ];
      JSX.Element "div"
        "absolute bottom-6 left-12 text-xs text-white/20 tracking-widest font-mono" None
        [ JSX.Text "EST. 2024 // REACT THREE FIBER // LUXURY EDITION" ] ].

End Component.
End Overlay.

(** ** Experience *)

(** What rendering a component or a subtree comes to: it renders, it
    suspends on a pending resource, or it throws an error. *)
Inductive Outcome (A : Type) : Type :=
| Rendered (a : A)
| Suspended
| Threw.
Arguments Rendered {A} a.
Arguments Suspended {A}.
Arguments Threw {A}.

Module Experience.

Record ErrorBoundaryState : Type := { hasError : bool }.

(** The class [ImageErrorBoundary].  [render] returns either [null]
    or [this.props.children] untouched, so it is written over any
    representation [A] of the children. *)
Module ImageErrorBoundary.

Definition constructor : ErrorBoundaryState := {| hasError := false |}.

Definition getDerivedStateFromError : ErrorBoundaryState := {| hasError := true |}.

Definition render {A : Type} (state : ErrorBoundaryState) (children : A) : option A :=
  if hasError state then None else Some children.

End ImageErrorBoundary.

(** The element tree of the scene.  Components other than the
    boundary are identified by name; their props do not matter to
    what renders. *)
Inductive Element : Type :=
| Component (name : string) (children : list Element)
| Suspense (fallback : list Element) (children : list Element)
| ErrorBoundary (state : ErrorBoundaryState) (children : list Element).

(** What ends up mounted. *)
Inductive View : Type :=
| Mounted (name : string) (children : list View)
| Boundary (state : ErrorBoundaryState) (children : list View).

(** How the body of a named component behaves when it runs. *)
Inductive Behaviour : Type :=
| Renders
| Suspends
| Throws.

Section Render.
Variable behaviour : string -> Behaviour.

(** An error boundary around children whose rendering came to
    [inner]: the class renders with its current state; when the
    children throw, the state becomes [getDerivedStateFromError()]
    and the class renders again; an error of that second render
    goes on to the next boundary. *)
Definition render_boundary (state : ErrorBoundaryState) (inner : Outcome (list View))
    : Outcome (list View) :=
  match ImageErrorBoundary.render state inner with
  | None => Rendered [Boundary state []]
  | Some (Rendered vs) => Rendered [Boundary state vs]
  | Some Suspended => Suspended
  | Some Threw =>
      let state' := ImageErrorBoundary.getDerivedStateFromError in
      match ImageErrorBoundary.render state' inner with
      | None => Rendered [Boundary state' []]
      | Some (Rendered vs) => Rendered [Boundary state' vs]
      | Some Suspended => Suspended
      | Some Threw => Threw
      end
  end.

Fixpoint render (e : Element) : Outcome (list View) :=
  let fix render_list (l : list Element) : Outcome (list View) :=
    match l with
    | [] => Rendered []
    | e :: l' =>
        match render e with
        | Rendered vs =>
            match render_list l' with
            | Rendered ws => Rendered (vs ++ ws)
            | Suspended => Suspended
            | Threw => Threw
            end
        | Suspended => Suspended
        | Threw => Threw
        end
    end in
  match e with
  | Component name cs =>
      match behaviour name with
      | Renders =>
          match render_list cs with
          | Rendered vs => Rendered [Mounted name vs]
          | Suspended => Suspended
          | Threw => Threw
          end
      | Suspends => Suspended
      | Throws => Threw
      end
  | Suspense fallback cs =>
      match render_list cs with
      | Rendered vs => Rendered vs
      | Suspended => render_list fallback
      | Threw => Threw
      end
  | ErrorBoundary state cs => render_boundary state (render_list cs)
  end.

End Render.

(** The names of the components mounted in a view, in document order. *)
Fixpoint mounted (v : View) : list string :=
  match v with
  | Mounted name vs =>
      name :: (fix over (l : list View) : list string :=
                 match l with
                 | [] => []
                 | w :: l' => mounted w ++ over l'
                 end) vs
  | Boundary _ vs =>
      (fix over (l : list View) : list string :=
         match l with
         | [] => []
         | w :: l' => mounted w ++ over l'
         end) vs
  end.

(** The states of the error boundaries in a view. *)
Fixpoint boundaries (v : View) : list ErrorBoundaryState :=
  match v with
  | Mounted _ vs =>
      (fix over (l : list View) : list ErrorBoundaryState :=
         match l with
         | [] => []
         | w :: l' => boundaries w ++ over l'
         end) vs
  | Boundary state vs =>
      state :: (fix over (l : list View) : list ErrorBoundaryState :=
                  match l with
                  | [] => []
                  | w :: l' => boundaries w ++ over l'
                  end) vs
  end.

(** The tree returned by [Experience]. *)
Definition Experience (treeState : TreeMorphState) : Element :=
  Component "Canvas"
    [ Component "PerspectiveCamera" [];
      Component "ambientLight" [];
      Component "spotLight" [];
      Component "pointLight" [];
      Component "Environment" [];
      Component "Sparkles" [];
      Component "Sparkles" [];
      Component "group"
        [ Component "Float"
            [ Component "Foliage" [];
              Component "Ornaments" [];
              Component "Spiral" [];
              Suspense []
                [ ErrorBoundary ImageErrorBoundary.constructor
                    [ Component "Memories" [] ] ];
              Component "Star" [] ] ];
      Component "OrbitControls" [];
      Component "EffectComposer"
        [ Component "Bloom" [];
          Component "Vignette" [] ] ].

End Experience.

(** ** Star *)

Module Star.
Section Component.
Context {K : Constants}.

Record SpikeMaterial : Type := { emissiveIntensity : R }.

(** A child of the spikes group; [material] is absent when the child
    carries none. *)
Record SpikeMesh : Type := { material : option SpikeMaterial }.

Record SpikesGroup : Type := {
  spikes : THREE.Object3D;
  children : list SpikeMesh
}.

(** The four refs of the component. *)
Record Instance : Type := {
  groupRef : option THREE.Object3D;
  ringRef : option THREE.Object3D;
  coreRef : option THREE.Object3D;
  spikesRef : option SpikesGroup
}.

Definition treeY : R := TREE_HEIGHT / 2 + 0.5.
Definition scatterY : R := TREE_HEIGHT + 8.

Definition set_position_y (o : THREE.Object3D) (v : R) : THREE.Object3D :=
  {| THREE.position := THREE.mkVector3 (THREE.x (THREE.position o)) v (THREE.z (THREE.position o));
     THREE.rotation := THREE.rotation o;
     THREE.scale := THREE.scale o;
     THREE.matrix := THREE.matrix o |}.

Definition set_rotation (o : THREE.Object3D) (r : THREE.Vector3) : THREE.Object3D :=
  {| THREE.position := THREE.position o;
     THREE.rotation := r;
     THREE.scale := THREE.scale o;
     THREE.matrix := THREE.matrix o |}.

(** [scale.setScalar(s)]. *)
Definition setScalar (o : THREE.Object3D) (s : R) : THREE.Object3D :=
  {| THREE.position := THREE.position o;
     THREE.rotation := THREE.rotation o;
     THREE.scale := THREE.mkVector3 s s s;
     THREE.matrix := THREE.matrix o |}.

(** The callback of [spikesRef.current.children.forEach]. *)
Definition pulse (t : R) (i : nat) (child : SpikeMesh) : SpikeMesh :=
  match material child with
  | Some mat => {| material := Some {| emissiveIntensity := 1.0 + Math.sin (t * 2 + INR i) * 0.5 |} |}
  | None => child
  end.

(** The callback given to [useFrame]. *)
Definition useFrame (treeState : TreeMorphState) (state : RootState) (delta : R)
    (c : Instance) : Instance :=
  match groupRef c, ringRef c, coreRef c, spikesRef c with
  | Some group, Some ring, Some core, Some sp =>
      let targetY := if TreeMorphState_eqb treeState TREE_SHAPE then treeY else scatterY in
      let group :=
        set_position_y group
          (THREE.MathUtils.lerp (THREE.y (THREE.position group)) targetY (delta * 2)) in
      let t := elapsedTime state in
      let group :=
        set_position_y group (THREE.y (THREE.position group) + Math.sin (t * 1.5) * 0.005) in
      let ring :=
        set_rotation ring
          (THREE.mkVector3 (Math.sin (t * 0.5) * 0.5)
             (THREE.y (THREE.rotation ring))
             (THREE.z (THREE.rotation ring))) in
      let ring :=
        set_rotation ring
          (THREE.mkVector3 (THREE.x (THREE.rotation ring))
             (THREE.y (THREE.rotation ring) + delta * 0.5)
             (THREE.z (THREE.rotation ring))) in
      let sp_object :=
        set_rotation (spikes sp)
          (THREE.mkVector3 (THREE.x (THREE.rotation (spikes sp)))
             (THREE.y (THREE.rotation (spikes sp)) - delta * 0.2)
             (THREE.z (THREE.rotation (spikes sp)))) in
      let scale := 1 + Math.sin (t * 3) * 0.1 in
      let core := setScalar core scale in
      {| groupRef := Some group;
         ringRef := Some ring;
         coreRef := Some core;
         spikesRef := Some {| spikes := sp_object; children := imap (pulse t) (children sp) |} |}
  | _, _, _, _ => c
  end.

Definition frames (fs : list Frame) (c : Instance) : Instance :=
  fold_left (fun acc f => useFrame (toggle f) (root f) (delta f) acc) fs c.

(** A spike as the component declares it, with its emissive intensity. *)
Definition spike (intensity : R) : SpikeMesh :=
  {| material := Some {| emissiveIntensity := intensity |} |}.

(** The objects the returned tree attaches to the four refs: the group
    at [0, treeY, 0], the ring turned by a quarter about x, the core,
    and the group of the four spikes. *)
Definition attached : Instance :=
  {| groupRef :=
       Some {| THREE.position := THREE.mkVector3 0 treeY 0;
               THREE.rotation := THREE.mkVector3 0 0 0;
               THREE.scale := THREE.mkVector3 1 1 1;
               THREE.matrix := THREE.matrix Ornaments.new_Object3D |};
     ringRef :=
       Some {| THREE.position := THREE.mkVector3 0 0 0;
               THREE.rotation := THREE.mkVector3 (Math.PI / 2) 0 0;
               THREE.scale := THREE.mkVector3 1 1 1;
               THREE.matrix := THREE.matrix Ornaments.new_Object3D |};
     coreRef := Some Ornaments.new_Object3D;
     spikesRef :=
       Some {| spikes := Ornaments.new_Object3D;
               children := [spike 0.5; spike 0.5; spike 0.2; spike 0.2] |} |}.

End Component.
End Star.

(** ** Memories *)

(** [Math.pow] at a real exponent, for a base that is not negative:
    [pow(0, e)] is 0 for the positive exponents the generators use. *)
Module MathPow.

Definition pow (b e : R) : R :=
  if Rlt_dec 0 b then Rpower b e else 0.

End MathPow.

(** Methods of [THREE.Vector3]. *)
Module Vector3.

(** [this.lerp(v, alpha)] moves each coordinate by [alpha] times its
    distance to [v]. *)
Definition lerp (this v : THREE.Vector3) (alpha : R) : THREE.Vector3 :=
  THREE.mkVector3
    (THREE.x this + (THREE.x v - THREE.x this) * alpha)
    (THREE.y this + (THREE.y v - THREE.y this) * alpha)
    (THREE.z this + (THREE.z v - THREE.z this) * alpha).

End Vector3.

(** Modelled from the spec: further exports of [../constants] that are
    not among the sources, the counts of ornaments and photos, the list
    of photo addresses and three more colours, taken as parameters. *)
Class Catalogue : Type := {
  ORNAMENT_BOX_COUNT : nat;
  ORNAMENT_SPHERE_COUNT : nat;
  MEMORY_COUNT : nat;
  MEMORY_IMAGES : list string;
  COLORS_PINK_LUX : THREE.Color;
  COLORS_GOLD_PALE : THREE.Color;
  COLORS_RED_VELVET : THREE.Color
}.

Module Memories.
Section Component.
Context {K : Constants} {C : Catalogue}.

Record Material : Type := {
  transparent : bool;
  opacity : R
}.

(** The image mesh behind [ref], as far as the frame callback moves
    it: its position, its scale and its material.  Its orientation,
    which the callback also turns, is not part of the model; nothing
    here reads it. *)
Record Mesh : Type := {
  position : THREE.Vector3;
  scale : THREE.Vector3;
  material : option Material
}.

(** The props of a [MemoryItem]; [url] is absent when the address list
    has no entry for it. *)
Record Props : Type := {
  url : option string;
  treePos : THREE.Vector3;
  scatterPos : THREE.Vector3;
  index : nat
}.

(** The hooks of one [MemoryItem]: the ref, the hover state and the
    three memoised random values. *)
Record Item : Type := {
  props : Props;
  ref : option Mesh;
  hovered : bool;
  randomOffset : R;
  aspect : R;
  initialRotation : R
}.

(** The first render of a [MemoryItem]: three draws, in the order of
    the hooks. *)
Definition mount (p : Props) (g : Math.Rng) : Item * Math.Rng :=
  let '(u1, g) := Math.random g in
  let '(u2, g) := Math.random g in
  let '(u3, g) := Math.random g in
  ({| props := p; ref := None; hovered := false;
      randomOffset := u1 * 100;
      aspect := 0.8 + u2 * 0.4;
      initialRotation := (u3 - 0.5) * 0.5 |}, g).

(** The callback given to [useFrame] by a [MemoryItem]. *)
Definition useFrame (treeState : TreeMorphState) (state : RootState) (delta : R)
    (c : Item) : Item :=
  match ref c with
  | None => c
  | Some mesh =>
      let isScattered := TreeMorphState_eqb treeState SCATTERED in
      let targetPos := if isScattered then scatterPos (props c) else treePos (props c) in
      let lerpSpeed := 2.0 * delta in
      let pos := Vector3.lerp (position mesh) targetPos lerpSpeed in
      let t := elapsedTime state + randomOffset c in
      let pos :=
        if isScattered
        then THREE.mkVector3 (THREE.x pos) (THREE.y pos + Math.sin (t * 0.5) * 0.01)
               (THREE.z pos)
        else THREE.mkVector3 (THREE.x pos) (THREE.y pos + Math.sin (t * 1.0) * 0.005)
               (THREE.z pos) in
      let baseScale := if isScattered then 4.5 else 2.5 in
      let hoverScale := if hovered c then 1.2 else 1.0 in
      let finalScale := baseScale * hoverScale in
      let scl :=
        Vector3.lerp (scale mesh) (THREE.mkVector3 finalScale (finalScale * aspect c) 1)
          lerpSpeed in
      let mat :=
        match material mesh with
        | Some m =>
            Some {| transparent := true;
                    opacity := THREE.MathUtils.lerp (opacity m) 1.0 lerpSpeed |}
        | None => None
        end in
      {| props := props c;
         ref := Some {| position := pos; scale := scl; material := mat |};
         hovered := hovered c;
         randomOffset := randomOffset c;
         aspect := aspect c;
         initialRotation := initialRotation c |}
  end.

(** What happens to a photo: the pointer enters it, leaves it, or a
    frame is drawn. *)
Inductive Event : Type :=
| PointerOver
| PointerOut
| Tick (f : Frame).

Definition setHovered (h : bool) (c : Item) : Item :=
  {| props := props c; ref := ref c; hovered := h;
     randomOffset := randomOffset c; aspect := aspect c;
     initialRotation := initialRotation c |}.

Definition handle (e : Event) (c : Item) : Item :=
  match e with
  | PointerOver => setHovered true c
  | PointerOut => setHovered false c
  | Tick f => useFrame (toggle f) (root f) (delta f) c
  end.

Definition run (es : list Event) (c : Item) : Item :=
  fold_left (fun acc e => handle e acc) es c.

Definition frames (fs : list Frame) (c : Item) : Item :=
  fold_left (fun acc f => useFrame (toggle f) (root f) (delta f) acc) fs c.

(** The callback of [Array.from({ length: MEMORY_COUNT }).map] in
    [Memories]: the props of photo [i].  An index into an empty address
    list finds nothing. *)
Definition item (i : nat) (g : Math.Rng) : Props * Math.Rng :=
  let url := MEMORY_IMAGES !! (i mod length MEMORY_IMAGES)%nat in
  let bias := 2.5 in
  let '(u1, g) := Math.random g in
  let t := MathPow.pow u1 bias in
  let y := - (TREE_HEIGHT / 2) + t * TREE_HEIGHT in
  let maxR := ((TREE_HEIGHT / 2 - y) / TREE_HEIGHT) * TREE_RADIUS_BOTTOM in
  let '(u2, g) := Math.random g in
  let r := maxR + 0.7 + u2 * 0.4 in
  let '(u3, g) := Math.random g in
  let angle := u3 * Math.PI * 2 in
  let treePos := THREE.mkVector3 (Math.cos angle * r) y (Math.sin angle * r) in
  let '(u4, g) := Math.random g in
  let theta := u4 * Math.PI * 2 in
  let '(u5, g) := Math.random g in
  let phi := Math.acos (2 * u5 - 1) in
  let '(u6, g) := Math.random g in
  let sr := SCATTER_RADIUS + 5 + u6 * 10 in
  let scatterPos :=
    THREE.mkVector3 (sr * Math.sin phi * Math.cos theta)
      (sr * Math.sin phi * Math.sin theta) (sr * Math.cos phi) in
  ({| url := url; treePos := treePos; scatterPos := scatterPos; index := i |}, g).

(** The callback of the [useMemo] of [Memories]. *)
Definition items (g : Math.Rng) : list Props * Math.Rng :=
  for_loop MEMORY_COUNT
    (fun i st => let '(p, g) := item i (snd st) in (fst st ++ [p], g))
    ([], g).

End Component.
End Memories.

(** ** The data of the ornaments *)

Module OrnamentsGen.
Section Generator.
Context {K : Constants} {C : Catalogue}.

(** [col.getHexString()], a method of [THREE.Color]. *)
Variable getHexString : THREE.Color -> string.

(** The [type] argument of [generateData]. *)
Inductive Kind : Type :=
| box
| sphere.

(** One round of the loop of [generateData], in the order of the
    source: eleven draws, one record pushed, three colour floats
    written. *)
Definition generate_body (type : Kind) (i : nat)
    (st : (list Ornaments.OrnamentData * Float32Array) * Math.Rng)
    : (list Ornaments.OrnamentData * Float32Array) * Math.Rng :=
  let '((data, colorArray), g) := st in
  let bias := match type with box => 7.0 | sphere => 3.5 end in
  let '(u1, g) := Math.random g in
  let t := MathPow.pow u1 bias in
  let y := - (TREE_HEIGHT / 2) + t * TREE_HEIGHT in
  let maxR := ((TREE_HEIGHT / 2 - y) / TREE_HEIGHT) * TREE_RADIUS_BOTTOM in
  let '(u2, g) := Math.random g in
  let r := maxR + (u2 * 0.5) in
  let '(u3, g) := Math.random g in
  let angle := u3 * Math.PI * 2 in
  let treePos := THREE.mkVector3 (Math.cos angle * r) y (Math.sin angle * r) in
  let '(u4, g) := Math.random g in
  let theta := u4 * Math.PI * 2 in
  let '(u5, g) := Math.random g in
  let phi := Math.acos (2 * u5 - 1) in
  let '(u6, g) := Math.random g in
  let sr := SCATTER_RADIUS * 0.8 * Math.cbrt u6 in
  let scatterPos :=
    THREE.mkVector3 (sr * Math.sin phi * Math.cos theta)
      (sr * Math.sin phi * Math.sin theta) (sr * Math.cos phi) in
  let '(u7, g) := Math.random g in
  let '(u8, g) := Math.random g in
  let '(u9, g) := Math.random g in
  let rot := THREE.mkVector3 (u7 * Math.PI) (u8 * Math.PI) (u9 * Math.PI) in
  let '(rand, g) := Math.random g in
  let col :=
    match type with
    | box =>
        if Rgt_dec rand 0.65 then COLORS_PINK_LUX
        else if Rgt_dec rand 0.35 then COLORS_GOLD_METALLIC
        else if Rgt_dec rand 0.15 then COLORS_GOLD_PALE
        else COLORS_RED_VELVET
    | sphere =>
        if Rgt_dec rand 0.55 then COLORS_PINK_LUX
        else if Rgt_dec rand 0.20 then COLORS_RED_VELVET
        else COLORS_GOLD_PALE
    end in
  let '(u11, g) := Math.random g in
  let item :=
    {| Ornaments.id := i;
       Ornaments.scale := match type with
                          | box => 0.1 + u11 * 0.45
                          | sphere => 0.25 + u11 * 0.3
                          end;
       Ornaments.color := "#" +:+ getHexString col;
       Ornaments.scatterPos := scatterPos;
       Ornaments.scatterRot := rot;
       Ornaments.treePos := treePos;
       Ornaments.treeRot := THREE.mkVector3 0 angle 0 |} in
  let colorArray :=
    <[(i * 3 + 2)%nat := THREE.b col]>
      (<[(i * 3 + 1)%nat := THREE.g col]> (<[(i * 3)%nat := THREE.r col]> colorArray)) in
  ((data ++ [item], colorArray), g).

Definition generateData (count : nat) (type : Kind) (g : Math.Rng)
    : (list Ornaments.OrnamentData * Float32Array) * Math.Rng :=
  for_loop count (generate_body type) (([], new_Float32Array (count * 3)), g).


End Generator.
End OrnamentsGen.

(** ** The shaders

    The shader sources are embedded as functions of their attributes,
    uniforms and varyings.  What depends on the camera, [gl_Position]
    and the division of the point size by the view depth, is left
    out: the vertex functions return the position in the space of the
    model and the size before that division. *)

Module GLSL.

(** [mix(x, y, a)] is [x * (1 - a) + y * a]. *)
Definition mix (a b t : R) : R := a * (1 - t) + b * t.

Definition mix3 (a b : THREE.Vector3) (t : R) : THREE.Vector3 :=
  THREE.mkVector3 (mix (THREE.x a) (THREE.x b) t) (mix (THREE.y a) (THREE.y b) t)
    (mix (THREE.z a) (THREE.z b) t).

(** [step(edge, x)] is 0 below the edge and 1 from it on. *)
Definition step (edge v : R) : R := if Rlt_dec v edge then 0 else 1.

Definition clamp (v lo hi : R) : R := Rmin (Rmax v lo) hi.

(** [smoothstep(edge0, edge1, x)]. *)
Definition smoothstep (edge0 edge1 v : R) : R :=
  let t := clamp ((v - edge0) / (edge1 - edge0)) 0 1 in
  t * t * (3 - 2 * t).

(** [normalize] of a float is the float over its magnitude; its result
    at 0 is undefined. *)
Definition normalize (v : R) : option R :=
  if Req_dec_T v 0 then None else Some (v / Rabs v).

(** [length] of a [vec2]. *)
Definition length2 (a b : R) : R := sqrt (a * a + b * b).

End GLSL.

Module FoliageShader.

Record Varyings : Type := {
  currentPos : THREE.Vector3;
  pointSize : R;
  vAlpha : R;
  vGoldMix : R
}.

(** [main] of the vertex shader. *)
Definition vertex (uTime uProgress : R) (aScatterPos aTreePos : THREE.Vector3) (aRandom : R)
    : option Varyings :=
  let pos := GLSL.mix3 aScatterPos aTreePos uProgress in
  let noise := sin (uTime * 2.0 + aRandom * 10.0) * 0.1 in
  let pos := THREE.mkVector3 (THREE.x pos + noise * (1.0 - uProgress))
               (THREE.y pos + noise * 0.5) (THREE.z pos) in
  let breathed :=
    if Rgt_dec uProgress 0.8 then
      let breathe := sin (uTime * 1.5 + THREE.y pos) * 0.05 in
      match GLSL.normalize (THREE.x pos), GLSL.normalize (THREE.z pos) with
      | Some nx, Some nz =>
          Some (THREE.mkVector3 (THREE.x pos + nx * breathe) (THREE.y pos)
                  (THREE.z pos + nz * breathe))
      | _, _ => None
      end
    else Some pos in
  match breathed with
  | Some pos =>
      let shimmer := sin (uTime * 5.0 + aRandom * 30.0) in
      Some {| currentPos := pos;
              pointSize := 40.0 * aRandom + 20.0;
              vAlpha := 0.6 + 0.4 * uProgress;
              vGoldMix := GLSL.step 0.9 shimmer |}
  | None => None
  end.

(** [main] of the fragment shader at the point coordinate [(px, py)];
    [None] when the fragment is discarded.  The result is the colour
    and the alpha of [gl_FragColor]. *)
Definition fragment (uColorBase uColorGold : THREE.Color) (v : Varyings) (px py : R)
    : option (THREE.Color * R) :=
  let dist := GLSL.length2 (px - 0.5) (py - 0.5) in
  if Rgt_dec dist 0.5 then None
  else
    let glow := 1.0 - (dist * 2.0) in
    let glow := glow ^ 2 in
    let sparkleBoost := if Rgt_dec (vGoldMix v) 0.5 then 0.5 else 0.0 in
    let channel (base gold : R) : R :=
      GLSL.mix base (gold + sparkleBoost) (vGoldMix v) + 0.2 * glow in
    Some (THREE.mkColor (channel (THREE.r uColorBase) (THREE.r uColorGold))
            (channel (THREE.g uColorBase) (THREE.g uColorGold))
            (channel (THREE.b uColorBase) (THREE.b uColorGold)),
          vAlpha v * glow).

End FoliageShader.

Module SpiralShader.

Record Varyings : Type := {
  pos : THREE.Vector3;
  pointSize : R;
  vAlpha : R;
  vLineProgress : R
}.

(** [main] of the vertex shader. *)
Definition vertex (uTime uProgress : R) (aScatterPos aTreePos : THREE.Vector3)
    (aLineProgress : R) : Varyings :=
  let p := GLSL.mix3 aScatterPos aTreePos uProgress in
  let noise := sin (uTime * 3.0 + THREE.y p * 2.0) * 0.05 in
  let p := THREE.mkVector3 (THREE.x p + noise) (THREE.y p) (THREE.z p + noise) in
  let pulse := sin (uTime * 5.0 + aLineProgress * 20.0) in
  let baseSize := 60.0 + pulse * 20.0 in
  {| pos := p;
     pointSize := baseSize;
     vAlpha := 0.3 + 0.7 * uProgress;
     vLineProgress := aLineProgress |}.

(** [main] of the fragment shader at the point coordinate [(px, py)];
    [None] when the fragment is discarded. *)
Definition fragment (uTime : R) (uColor : THREE.Color) (v : Varyings) (px py : R)
    : option (THREE.Color * R) :=
  let dist := GLSL.length2 (px - 0.5) (py - 0.5) in
  if Rgt_dec dist 0.5 then None
  else
    let glow := 1.0 - (dist * 2.0) in
    let glow := glow ^ 3 in
    let flow := sin (vLineProgress v * 25.0 - uTime * 3.0) in
    let brightness := GLSL.smoothstep 0.4 0.9 flow in
    let channel (base hot : R) : R :=
      GLSL.mix base hot (brightness * 0.8) * (1.0 + brightness * 3.0) in
    Some (THREE.mkColor (channel (THREE.r uColor) 1.0) (channel (THREE.g uColor) 1.0)
            (channel (THREE.b uColor) 0.9),
          vAlpha v * glow).

End SpiralShader.

(** ** The camera controls of the scene *)

Module Controls.

(** The props [Experience] gives to [OrbitControls]. *)
Record OrbitControls : Type := {
  enablePan : bool;
  minPolarAngle : R;
  maxPolarAngle : R;
  minDistance : R;
  maxDistance : R
}.

(** The props [Experience] gives to [Float]. *)
Record Float : Type := {
  speed : R;
  rotationIntensity : R;
  floatIntensity : R
}.

Definition orbitControls (treeState : TreeMorphState) : OrbitControls :=
  let isScattered := TreeMorphState_eqb treeState SCATTERED in
  {| enablePan := isScattered;
     minPolarAngle := if isScattered then 0 else Math.PI / 4;
     maxPolarAngle := if isScattered then Math.PI else Math.PI / 1.8;
     minDistance := if isScattered then 2 else 10;
     maxDistance := if isScattered then 60 else 35 |}.

Definition float (treeState : TreeMorphState) : Float :=
  let isScattered := TreeMorphState_eqb treeState SCATTERED in
  {| speed := 2;
     rotationIntensity := if isScattered then 0.5 else 0.05;
     floatIntensity := if isScattered then 1 else 0.1 |}.

(** The position given to [PerspectiveCamera]. *)
Definition camera : THREE.Vector3 := THREE.mkVector3 0 2 20.

End Controls.

(** ** Floating-point numbers

    The numbers of the program are IEEE doubles and the typed arrays
    hold IEEE singles.  Both formats are modelled inside the reals: a
    format is a precision [prec] and a least exponent [emin], its
    numbers are the reals [m * 2^e] with [|m| < 2^prec] and
    [emin <= e], and an operation returns the number of the format
    nearest to the exact result, ties to the even significand.  The
    formats are unbounded above: overflow to infinity, infinities and
    NaN are outside the model. *)

Module Rounding.

(** The power of two at an integer exponent. *)
Definition pow2 (k : Z) : R := Rpower 2 (IZR k).

(** The integer nearest to [x], the even one at a tie. *)
Definition nearest_even (x : R) : Z :=
  let n := Int_part x in
  let f := x - IZR n in
  if Rlt_dec f (1 / 2) then n
  else if Rlt_dec (1 / 2) f then (n + 1)%Z
  else if Z.even n then n else (n + 1)%Z.

(** The binade of [x]: the [e] with [2^(e-1) <= |x| < 2^e]. *)
Definition exponent (x : R) : Z := (Int_part (ln (Rabs x) / ln 2) + 1)%Z.

Section Format.
Variables prec emin : Z.

(** The exponent of the last place of the format at [x]. *)
Definition quantum (x : R) : Z := Z.max (exponent x - prec) emin.

(** Rounding to nearest, ties to even. *)
Definition round (x : R) : R :=
  if Req_dec_T x 0 then 0
  else IZR (nearest_even (x / pow2 (quantum x))) * pow2 (quantum x).

(** The numbers of the format. *)
Definition representable (x : R) : Prop :=
  exists m e : Z, x = IZR m * pow2 e /\ (Z.abs m < 2 ^ prec)%Z /\ (emin <= e)%Z.

End Format.
End Rounding.

(** Single precision: what a [Float32Array] holds. *)
Module Float32.

Definition prec : Z := 24.
Definition emin : Z := -149.

(** [Math.fround]: the single nearest to a number. *)
Definition fround (v : R) : R := Rounding.round prec emin v.

(** [a[i] = v] on a [Float32Array]: the value is narrowed to single
    precision before it is stored; a write past the end is ignored. *)
Definition store (a : Float32Array) (i : nat) (v : R) : Float32Array :=
  <[i := fround v]> a.

End Float32.

(** Double precision: the arithmetic of JavaScript numbers. *)
Module Binary64.

Definition prec : Z := 53.
Definition emin : Z := -1074.

Definition round (v : R) : R := Rounding.round prec emin v.

Definition is_double (v : R) : Prop := Rounding.representable prec emin v.

Definition add (a b : R) : R := round (a + b).
Definition sub (a b : R) : R := round (a - b).
Definition mul (a b : R) : R := round (a * b).

End Binary64.

(** ** Foliage and Spiral in machine arithmetic

    The generation loops with the stores of the source: every value
    assigned to a typed array is narrowed to single precision (the
    value itself is computed as in [Foliage.generate_body] and
    [Spiral.generate_body]).  The frame callbacks with the progress
    computed in double precision, as the source computes it. *)

Module FoliageIEEE.
Section Component.
Context {K : Constants}.

(** One round of the generation loop, in the order of the source. *)
Definition generate_body (i : nat) (st : Foliage.Geometry * Math.Rng)
    : Foliage.Geometry * Math.Rng :=
  let '(geo, g) := st in
  let t := INR i / INR FOLIAGE_COUNT in
  let angle := t * Math.PI * 2 * 30 in
  let y := - (TREE_HEIGHT / 2) + t * TREE_HEIGHT in
  let radiusAtHeight := ((TREE_HEIGHT / 2 - y) / TREE_HEIGHT) * TREE_RADIUS_BOTTOM in
  let '(u1, g) := Math.random g in
  let r := radiusAtHeight + (u1 - 0.5) * 1.5 in
  let x := Math.cos angle * r in
  let z := Math.sin angle * r in
  let pos := Float32.store (Foliage.positions geo) (i * 3) x in
  let pos := Float32.store pos (i * 3 + 1) y in
  let pos := Float32.store pos (i * 3 + 2) z in
  let '(u2, g) := Math.random g in
  let theta := u2 * Math.PI * 2 in
  let '(u3, g) := Math.random g in
  let phi := Math.acos (2 * u3 - 1) in
  let '(u4, g) := Math.random g in
  let sr := SCATTER_RADIUS * Math.cbrt u4 in
  let sca := Float32.store (Foliage.scatterPositions geo) (i * 3)
               (sr * Math.sin phi * Math.cos theta) in
  let sca := Float32.store sca (i * 3 + 1) (sr * Math.sin phi * Math.sin theta) in
  let sca := Float32.store sca (i * 3 + 2) (sr * Math.cos phi) in
  let '(u5, g) := Math.random g in
  let rnd := Float32.store (Foliage.randoms geo) i u5 in
  ({| Foliage.positions := pos; Foliage.scatterPositions := sca; Foliage.randoms := rnd |},
   g).

(** The callback of the first [useMemo]. *)
Definition generate (g : Math.Rng) : Foliage.Geometry * Math.Rng :=
  for_loop FOLIAGE_COUNT generate_body
    ({| Foliage.positions := new_Float32Array (FOLIAGE_COUNT * 3);
        Foliage.scatterPositions := new_Float32Array (FOLIAGE_COUNT * 3);
        Foliage.randoms := new_Float32Array FOLIAGE_COUNT |}, g).

(** The callback given to [useFrame]. *)
Definition useFrame (treeState : TreeMorphState) (state : RootState) (delta : R)
    (c : Foliage.Instance) : Foliage.Instance :=
  match Foliage.shaderRef c with
  | Some u =>
      let target := if TreeMorphState_eqb treeState TREE_SHAPE then 1.0 else 0.0 in
      let speed := Binary64.mul 2.0 delta in
      let current :=
        if Rlt_dec (Foliage.currentProgress c) target
        then Math.min (Binary64.add (Foliage.currentProgress c) speed) 1.0
        else if Rgt_dec (Foliage.currentProgress c) target
        then Math.max (Binary64.sub (Foliage.currentProgress c) speed) 0.0
        else Foliage.currentProgress c in
      {| Foliage.shaderRef := Some {| Foliage.uTime := elapsedTime state;
                                      Foliage.uProgress := current;
                                      Foliage.uPixelRatio := dpr state;
                                      Foliage.uColorBase := Foliage.uColorBase u;
                                      Foliage.uColorGold := Foliage.uColorGold u |};
         Foliage.targetProgress := target;
         Foliage.currentProgress := current;
         Foliage.geometry := Foliage.geometry c |}
  | None => c
  end.

(** A run of frames, each with the toggle state of its render. *)
Definition frames (fs : list Frame) (c : Foliage.Instance) : Foliage.Instance :=
  fold_left (fun acc f => useFrame (toggle f) (root f) (delta f) acc) fs c.

End Component.
End FoliageIEEE.

Module SpiralIEEE.
Section Component.
Context {K : Constants}.

(** One round of the generation loop, in the order of the source. *)
Definition generate_body (i : nat) (st : Spiral.Geometry * Math.Rng)
    : Spiral.Geometry * Math.Rng :=
  let '(geo, g) := st in
  let p := INR i / INR SPIRAL_PARTICLE_COUNT in
  let y := - (TREE_HEIGHT / 2) + p * TREE_HEIGHT + Spiral.heightOffset in
  let rawRadius :=
    ((TREE_HEIGHT / 2 - (y - Spiral.heightOffset)) / TREE_HEIGHT) * TREE_RADIUS_BOTTOM in
  let r := Math.max 0.1 (rawRadius + 0.6) in
  let angle := p * Math.PI * 2 * Spiral.turns in
  let tPos := Float32.store (Spiral.treePositions geo) (i * 3) (Math.cos angle * r) in
  let tPos := Float32.store tPos (i * 3 + 1) y in
  let tPos := Float32.store tPos (i * 3 + 2) (Math.sin angle * r) in
  let '(u1, g) := Math.random g in
  let theta := u1 * Math.PI * 2 in
  let '(u2, g) := Math.random g in
  let phi := Math.acos (2 * u2 - 1) in
  let '(u3, g) := Math.random g in
  let sr := SCATTER_RADIUS * 1.1 * Math.cbrt u3 in
  let sPos := Float32.store (Spiral.scatterPositions geo) (i * 3)
                (sr * Math.sin phi * Math.cos theta) in
  let sPos := Float32.store sPos (i * 3 + 1) (sr * Math.sin phi * Math.sin theta) in
  let sPos := Float32.store sPos (i * 3 + 2) (sr * Math.cos phi) in
  let progress := Float32.store (Spiral.lineProgress geo) i p in
  ({| Spiral.treePositions := tPos; Spiral.scatterPositions := sPos;
      Spiral.lineProgress := progress |}, g).

(** The callback of the first [useMemo]. *)
Definition generate (g : Math.Rng) : Spiral.Geometry * Math.Rng :=
  for_loop SPIRAL_PARTICLE_COUNT generate_body
    ({| Spiral.treePositions := new_Float32Array (SPIRAL_PARTICLE_COUNT * 3);
        Spiral.scatterPositions := new_Float32Array (SPIRAL_PARTICLE_COUNT * 3);
        Spiral.lineProgress := new_Float32Array SPIRAL_PARTICLE_COUNT |}, g).

(** The callback given to [useFrame]. *)
Definition useFrame (treeState : TreeMorphState) (state : RootState) (delta : R)
    (c : Spiral.Instance) : Spiral.Instance :=
  match Spiral.shaderRef c with
  | Some u =>
      let target := if TreeMorphState_eqb treeState TREE_SHAPE then 1.0 else 0.0 in
      let speed := Binary64.mul 2.0 delta in
      let current :=
        if Rlt_dec (Spiral.currentProgress c) target
        then Math.min (Binary64.add (Spiral.currentProgress c) speed) 1.0
        else if Rgt_dec (Spiral.currentProgress c) target
        then Math.max (Binary64.sub (Spiral.currentProgress c) speed) 0.0
        else Spiral.currentProgress c in
      {| Spiral.shaderRef := Some {| Spiral.uTime := elapsedTime state;
                                     Spiral.uProgress := current;
                                     Spiral.uPixelRatio := dpr state;
                                     Spiral.uColor := Spiral.uColor u |};
         Spiral.currentProgress := current;
         Spiral.geometry := Spiral.geometry c |}
  | None => c
  end.

Definition frames (fs : list Frame) (c : Spiral.Instance) : Spiral.Instance :=
  fold_left (fun acc f => useFrame (toggle f) (root f) (delta f) acc) fs c.

End Component.
End SpiralIEEE.

(** ** Sample inputs

    Concrete values on which the properties below are exercised. *)

Module Sample.

Definition constants : Constants :=
  {| FOLIAGE_COUNT := 4;
     SPIRAL_PARTICLE_COUNT := 4;
     TREE_HEIGHT := 12;
     TREE_RADIUS_BOTTOM := 5;
     SCATTER_RADIUS := 15;
     COLORS_EMERALD_LIGHT := THREE.mkColor 0 1 0.5;
     COLORS_GOLD_METALLIC := THREE.mkColor 1 0.75 0 |}.

(** A generator whose every draw is one half. *)
Definition halves : Math.Rng := fun _ => 0.5.

Definition foliage : Foliage.Instance :=
  Foliage.attach (K := constants) Foliage.initial.

Definition spiral : Spiral.Instance :=
  Spiral.attach Spiral.initial.

Definition ornament : Ornaments.OrnamentData :=
  {| Ornaments.id := 0;
     Ornaments.scale := 0.25;
     Ornaments.color := "#ffd700";
     Ornaments.scatterPos := THREE.mkVector3 0 0 0;
     Ornaments.scatterRot := THREE.mkVector3 0 0 0;
     Ornaments.treePos := THREE.mkVector3 1 2 4;
     Ornaments.treeRot := THREE.mkVector3 0 0 0 |}.

Definition ornaments : Ornaments.Instance :=
  Ornaments.attach (Ornaments.initial [ornament] [ornament]).

Definition frame (treeState : TreeMorphState) (time step : R) : Frame :=
  {| toggle := treeState; root := {| elapsedTime := time; dpr := 1 |}; delta := step |}.

(** Three frames toward the tree, a tenth of a second each. *)
Definition growing : list Frame :=
  [frame TREE_SHAPE 0.1 0.1; frame TREE_SHAPE 0.2 0.1; frame TREE_SHAPE 0.3 0.1].

(** Six such frames: more than half a second in all. *)
Definition grown : list Frame := growing ++ growing.

(** Frames that switch the toggle back and forth. *)
Definition flicker : list Frame :=
  [frame TREE_SHAPE 0.1 0.1; frame SCATTERED 0.5 0.4; frame TREE_SHAPE 1.5 1].

End Sample.

(** Further sample inputs: a star, a photo and a catalogue. *)

Module Exhibit.

Definition catalogue : Catalogue :=
  {| ORNAMENT_BOX_COUNT := 2;
     ORNAMENT_SPHERE_COUNT := 3;
     MEMORY_COUNT := 5;
     MEMORY_IMAGES := ["/photos/one.jpg"; "/photos/two.jpg"]%string;
     COLORS_PINK_LUX := THREE.mkColor 1 0.5 0.75;
     COLORS_GOLD_PALE := THREE.mkColor 1 0.875 0.5;
     COLORS_RED_VELVET := THREE.mkColor 0.5 0 0.125 |}.

Definition photo_mesh : Memories.Mesh :=
  {| Memories.position := THREE.mkVector3 0 0 0;
     Memories.scale := THREE.mkVector3 2 2.5 1;
     Memories.material := Some {| Memories.transparent := false; Memories.opacity := 0.5 |} |}.

Definition photo : Memories.Item :=
  {| Memories.props :=
       {| Memories.url := Some "/photos/one.jpg"%string;
          Memories.treePos := THREE.mkVector3 3 1 4;
          Memories.scatterPos := THREE.mkVector3 20 0 0;
          Memories.index := 0 |};
     Memories.ref := Some photo_mesh;
     Memories.hovered := false;
     Memories.randomOffset := 50;
     Memories.aspect := 1.25;
     Memories.initialRotation := 0.125 |}.

End Exhibit.

(** Inputs at which the rounding of the machine shows. *)

Module Corner.

(** The double nearest to 0.05. *)
Definition twentieth : R := 3602879701896397 / 72057594037927936.

(** Ten frames toward the tree, each of the double nearest to 0.05. *)
Definition ten_frames : list Frame :=
  repeat (Sample.frame TREE_SHAPE 0 twentieth) 10.

(** Five frames toward the tree, an eighth of a second each. *)
Definition five_eighths : list Frame :=
  repeat (Sample.frame TREE_SHAPE 0 0.125) 5.


(** A generator whose every draw is 0.99999999. *)
Definition nines : Math.Rng := fun _ => 0.99999999.

End Corner.

(** * Properties *)

(** ** Vocabulary *)

(** The target of the transition: 1 for the tree shape, 0 otherwise. *)
Definition target_of (treeState : TreeMorphState) : R :=
  match treeState with
  | TREE_SHAPE => 1
  | SCATTERED => 0
  end.



Definition unit_interval (p : R) : Prop := 0 <= p <= 1.

Definition forward_in_time (fs : list Frame) : Prop :=
  Forall (fun f => 0 <= delta f) fs.

Definition constant_toggle (treeState : TreeMorphState) (fs : list Frame) : Prop :=
  Forall (fun f => toggle f = treeState) fs.

(** The progress update the three frame callbacks share, at a rate of
    [rate] per unit of time. *)
Definition approach (rate : R) (treeState : TreeMorphState) (delta current : R) : R :=
  let target := if TreeMorphState_eqb treeState TREE_SHAPE then 1 else 0 in
  let speed := rate * delta in
  if Rlt_dec current target then Math.min (current + speed) 1
  else if Rgt_dec current target then Math.max (current - speed) 0
  else current.

Definition approach_all (rate : R) (fs : list Frame) (p : R) : R :=
  fold_left (fun acc f => approach rate (toggle f) (delta f) acc) fs p.

(** The [i]-th point of a position buffer, three floats per point. *)
Definition point (a : Float32Array) (i : nat) : option THREE.Vector3 :=
  match a !! (i * 3)%nat, a !! (i * 3 + 1)%nat, a !! (i * 3 + 2)%nat with
  | Some x, Some y, Some z => Some (THREE.mkVector3 x y z)
  | _, _, _ => None
  end.

(** The distance of a point from the vertical axis. *)
Definition horizontal_radius (v : THREE.Vector3) : R :=
  sqrt (THREE.x v * THREE.x v + THREE.z v * THREE.z v).

Section Shapes.
Context {K : Constants}.

(** The point of the conical spiral at index [i] with jitter [j]. *)
Definition conical_spiral_point (i : nat) (j : R) : THREE.Vector3 :=
  let t := INR i / INR FOLIAGE_COUNT in
  let y := - (TREE_HEIGHT / 2) + t * TREE_HEIGHT in
  let a := t * 2 * PI * 30 in
  let r := ((TREE_HEIGHT / 2 - y) / TREE_HEIGHT) * TREE_RADIUS_BOTTOM + j in
  THREE.mkVector3 (cos a * r) y (sin a * r).

(** The radius of the helix at index [i]. *)
Definition helix_radius (i : nat) : R :=
  let p := INR i / INR SPIRAL_PARTICLE_COUNT in
  Rmax 0.1 (((TREE_HEIGHT / 2 - (- (TREE_HEIGHT / 2) + p * TREE_HEIGHT)) / TREE_HEIGHT)
            * TREE_RADIUS_BOTTOM + 0.6).

(** The point of the helix at index [i]. *)
Definition helix_point (i : nat) : THREE.Vector3 :=
  let p := INR i / INR SPIRAL_PARTICLE_COUNT in
  let a := p * 2 * PI * 6 in
  THREE.mkVector3 (cos a * helix_radius i)
    (- (TREE_HEIGHT / 2) + p * TREE_HEIGHT + 1)
    (sin a * helix_radius i).

(** What the Foliage loop has established after [m] rounds. *)
Definition foliage_generated (m : nat) (st : Foliage.Geometry * Math.Rng) : Prop :=
  Math.unit_draws (snd st)
  /\ length (Foliage.positions (fst st)) = (FOLIAGE_COUNT * 3)%nat
  /\ length (Foliage.scatterPositions (fst st)) = (FOLIAGE_COUNT * 3)%nat
  /\ forall i, (i < m)%nat ->
       (exists j, -0.75 <= j < 0.75
                  /\ point (Foliage.positions (fst st)) i = Some (conical_spiral_point i j))
       /\ (exists v, point (Foliage.scatterPositions (fst st)) i = Some v
                     /\ THREE.length v <= SCATTER_RADIUS).

(** What the Spiral loop has established after [m] rounds. *)
Definition spiral_generated (m : nat) (st : Spiral.Geometry * Math.Rng) : Prop :=
  length (Spiral.treePositions (fst st)) = (SPIRAL_PARTICLE_COUNT * 3)%nat
  /\ forall i, (i < m)%nat -> point (Spiral.treePositions (fst st)) i = Some (helix_point i).

End Shapes.

(** The blend of the two positions of an ornament at parameter [e]:
    the linear interpolation of each coordinate. *)
Definition blend (d : Ornaments.OrnamentData) (e : R) : THREE.Vector3 :=
  THREE.mkVector3
    (THREE.MathUtils.lerp (THREE.x (Ornaments.scatterPos d)) (THREE.x (Ornaments.treePos d)) e)
    (THREE.MathUtils.lerp (THREE.y (Ornaments.scatterPos d)) (THREE.y (Ornaments.treePos d)) e)
    (THREE.MathUtils.lerp (THREE.z (Ornaments.scatterPos d)) (THREE.z (Ornaments.treePos d)) e).

(** The floating noise of a box: a vertical offset that fades with the
    progress and is absent from progress 0.9 on. *)
Definition box_float (t time : R) (d : Ornaments.OrnamentData) : R :=
  if Rlt_dec t 0.9 then sin (time + INR (Ornaments.id d)) * ((1 - t) * 0.5) else 0.

Definition lifted (v : THREE.Vector3) (dy : R) : THREE.Vector3 :=
  THREE.mkVector3 (THREE.x v) (THREE.y v + dy) (THREE.z v).

(** Whether a path from the root of the overlay leads to its button or
    into it. *)
Definition into_button (path : list nat) : bool :=
  match path with
  | 1%nat :: 0%nat :: _ => true
  | _ => false
  end.

(** The components the scene mounts when the photos fail to render. *)
Definition scene_without_memories : list string :=
  [ "Canvas"; "PerspectiveCamera"; "ambientLight"; "spotLight"; "pointLight";
    "Environment"; "Sparkles"; "Sparkles"; "group"; "Float";
    "Foliage"; "Ornaments"; "Spiral"; "Star";
    "OrbitControls"; "EffectComposer"; "Bloom"; "Vignette" ]%string.

(** The star is attached when its four refs are set. *)
Definition star_attached (c : Star.Instance) : Prop :=
  is_Some (Star.groupRef c) /\ is_Some (Star.ringRef c)
  /\ is_Some (Star.coreRef c) /\ is_Some (Star.spikesRef c).

(** The height of the star's group, its turn of the ring and of the
    spikes about the vertical axis; 0 when the ref is not set. *)
Definition star_height (c : Star.Instance) : R :=
  match Star.groupRef c with
  | Some group => THREE.y (THREE.position group)
  | None => 0
  end.

Definition ring_turn (c : Star.Instance) : R :=
  match Star.ringRef c with
  | Some ring => THREE.y (THREE.rotation ring)
  | None => 0
  end.

Definition spikes_turn (c : Star.Instance) : R :=
  match Star.spikesRef c with
  | Some sp => THREE.y (THREE.rotation (Star.spikes sp))
  | None => 0
  end.

(** The height the star heads for. *)
Definition star_target {K : Constants} (treeState : TreeMorphState) : R :=
  match treeState with
  | TREE_SHAPE => Star.treeY
  | SCATTERED => Star.scatterY
  end.

(** How far a height is from the target beyond the band [band]. *)
Definition excess (band target h : R) : R := Rmax (Rabs (h - target) - band) 0.

(** The factor by which a run of frames shrinks a damped distance: the
    product of 1 - 2 * delta over the frames. *)
Definition damping (fs : list Frame) : R :=
  fold_right (fun f acc => (1 - 2 * delta f) * acc) 1 fs.

(** The position a photo heads for. *)
Definition photo_target (treeState : TreeMorphState) (p : Memories.Props) : THREE.Vector3 :=
  match treeState with
  | TREE_SHAPE => Memories.treePos p
  | SCATTERED => Memories.scatterPos p
  end.

(** A photo mesh has the proportions of its aspect and is flat. *)
Definition proportioned (aspect : R) (mesh : Memories.Mesh) : Prop :=
  THREE.y (Memories.scale mesh) = aspect * THREE.x (Memories.scale mesh)
  /\ THREE.z (Memories.scale mesh) = 1.

(** The radius of the cone of the tree at height [y]. *)
Definition cone_radius {K : Constants} (y : R) : R :=
  ((TREE_HEIGHT / 2 - y) / TREE_HEIGHT) * TREE_RADIUS_BOTTOM.

(** A round of [generateData] pushes one record and writes one colour. *)
Definition round_gives {K : Constants} {C : Catalogue}
    (getHexString : THREE.Color -> string) (type : OrnamentsGen.Kind) (G : Math.Rng -> Prop)
    (Q : nat -> Ornaments.OrnamentData -> THREE.Color -> Prop) : Prop :=
  forall i data (colorArray : Float32Array) g, G g ->
    exists d col g',
      OrnamentsGen.generate_body getHexString type i ((data, colorArray), g)
      = ((data ++ [d],
          <[(i * 3 + 2)%nat := THREE.b col]>
            (<[(i * 3 + 1)%nat := THREE.g col]> (<[(i * 3)%nat := THREE.r col]> colorArray))),
         g')
      /\ G g' /\ Q i d col.

(** No step of a life runs time backward. *)
Definition steps_forward (steps : list Step) : Prop :=
  Forall (fun s => match s with Animate f => 0 <= delta f | Rerender => True end) steps.

(** The shader material carries the progress of the component. *)
Definition foliage_in_step (c : Foliage.Instance) : Prop :=
  unit_interval (Foliage.currentProgress c)
  /\ exists u, Foliage.shaderRef c = Some u /\ Foliage.uProgress u = Foliage.currentProgress c.

Definition spiral_in_step (c : Spiral.Instance) : Prop :=
  unit_interval (Spiral.currentProgress c)
  /\ exists u, Spiral.shaderRef c = Some u /\ Spiral.uProgress u = Spiral.currentProgress c.

(** A vector with each coordinate narrowed to single precision: what
    three consecutive slots of a [Float32Array] hold after the
    coordinates were stored. *)
Definition narrowed (v : THREE.Vector3) : THREE.Vector3 :=
  THREE.mkVector3 (Float32.fround (THREE.x v)) (Float32.fround (THREE.y v))
    (Float32.fround (THREE.z v)).

(** The point of the ball of radius [radius] that the draws [u_theta],
    [u_phi] and [u_r] select: the angle theta about the axis, the
    cosine of the polar angle phi spread evenly over [-1, 1], and the
    distance the cube root of the last draw. *)
Definition ball_point (radius u_theta u_phi u_r : R) : THREE.Vector3 :=
  let theta := u_theta * PI * 2 in
  let phi := acos (2 * u_phi - 1) in
  let sr := radius * Math.cbrt u_r in
  THREE.mkVector3 (sr * sin phi * cos theta) (sr * sin phi * sin theta) (sr * cos phi).

(** A magnitude far below the largest single (about 3.4e38): the
    values the generators build from such constants are stored without
    overflow. *)
Definition modest (v : R) : Prop := Rabs v <= 1000000.

(** The progress update of Foliage and Spiral in double arithmetic. *)
Definition approach64 (treeState : TreeMorphState) (delta current : R) : R :=
  let target := if TreeMorphState_eqb treeState TREE_SHAPE then 1 else 0 in
  let speed := Binary64.mul 2 delta in
  if Rlt_dec current target then Math.min (Binary64.add current speed) 1
  else if Rgt_dec current target then Math.max (Binary64.sub current speed) 0
  else current.

Definition approach64_all (fs : list Frame) (p : R) : R :=
  fold_left (fun acc f => approach64 (toggle f) (delta f) acc) fs p.

(** Every time step of the run is a double. *)
Definition double_steps (fs : list Frame) : Prop :=
  Forall (fun f => Binary64.is_double (delta f)) fs.

(** The largest rounding error of one double operation with a result
    in [0, 1): half a unit in the last place, 2^-54. *)
Definition half_ulp : R := / 2 ^ 54.

Section Stored.
Context {K : Constants}.

(** What the Foliage loop has stored after [m] rounds that started
    from the generator [g]: five draws are consumed per round. *)
Definition foliage_stored (g : Math.Rng) (m : nat) (st : Foliage.Geometry * Math.Rng)
    : Prop :=
  (forall k, snd st k = g (5 * m + k)%nat)
  /\ length (Foliage.positions (fst st)) = (FOLIAGE_COUNT * 3)%nat
  /\ length (Foliage.scatterPositions (fst st)) = (FOLIAGE_COUNT * 3)%nat
  /\ length (Foliage.randoms (fst st)) = FOLIAGE_COUNT
  /\ forall i, (i < m)%nat ->
       point (Foliage.positions (fst st)) i
       = Some (narrowed (conical_spiral_point i ((g (5 * i)%nat - 0.5) * 1.5)))
       /\ point (Foliage.scatterPositions (fst st)) i
          = Some (narrowed (ball_point SCATTER_RADIUS (g (5 * i + 1)%nat)
                              (g (5 * i + 2)%nat) (g (5 * i + 3)%nat)))
       /\ Foliage.randoms (fst st) !! i = Some (Float32.fround (g (5 * i + 4)%nat)).


End Stored.

(** The progress [p] lies where exact arithmetic would leave it after a
    travel of [travel] from [p0], give or take [slack]. *)
Definition progress_within (treeState : TreeMorphState) (p0 travel slack p : R) : Prop :=
  match treeState with
  | TREE_SHAPE => Rmin (p0 + travel - slack) 1 <= p <= Rmin (p0 + travel + slack) 1
  | SCATTERED => Rmax (p0 - travel - slack) 0 <= p <= Rmax (p0 - travel + slack) 0
  end.

(** ** Rounding *)

Lemma Rabs_le_elim x a : Rabs x <= a -> - a <= x <= a.
Proof. unfold Rabs. destruct (Rcase_abs x); lra. Qed.

Lemma Rabs_lt_elim x a : Rabs x < a -> - a < x < a.
Proof. unfold Rabs. destruct (Rcase_abs x); lra. Qed.

Lemma Rabs_le_intro x a : - a <= x <= a -> Rabs x <= a.
Proof. unfold Rabs. destruct (Rcase_abs x); lra. Qed.

Lemma Rabs_lt_intro x a : - a < x < a -> Rabs x < a.
Proof. unfold Rabs. destruct (Rcase_abs x); lra. Qed.

Lemma ln2_pos : 0 < ln 2.
Proof. rewrite <- ln_1. apply ln_increasing; lra. Qed.

Lemma pow2_pos k : 0 < Rounding.pow2 k.
Proof. unfold Rounding.pow2, Rpower. apply exp_pos. Qed.

Lemma pow2_add a b : Rounding.pow2 (a + b) = Rounding.pow2 a * Rounding.pow2 b.
Proof. unfold Rounding.pow2. rewrite plus_IZR. apply Rpower_plus. Qed.

Lemma pow2_0 : Rounding.pow2 0 = 1.
Proof. unfold Rounding.pow2. apply Rpower_O. lra. Qed.

Lemma pow2_1 : Rounding.pow2 1 = 2.
Proof. unfold Rounding.pow2. apply Rpower_1. lra. Qed.

Lemma pow2_opp k : Rounding.pow2 (- k) = / Rounding.pow2 k.
Proof. unfold Rounding.pow2. rewrite opp_IZR. apply Rpower_Ropp. Qed.

Lemma pow2_lt a b : (a < b)%Z -> Rounding.pow2 a < Rounding.pow2 b.
Proof. intros H. unfold Rounding.pow2. apply Rpower_lt; [lra | apply IZR_lt; exact H]. Qed.

Lemma pow2_le a b : (a <= b)%Z -> Rounding.pow2 a <= Rounding.pow2 b.
Proof.
  intros H. destruct (Z.eq_dec a b) as [->|Hne]; [lra|].
  left. apply pow2_lt. lia.
Qed.

Lemma pow2_lt_inv a b : Rounding.pow2 a < Rounding.pow2 b -> (a < b)%Z.
Proof.
  intros H. destruct (Z_lt_le_dec a b) as [Hlt|Hle]; [exact Hlt|].
  pose proof (pow2_le b a Hle). lra.
Qed.

Lemma pow2_succ k : Rounding.pow2 (k + 1) = 2 * Rounding.pow2 k.
Proof. rewrite pow2_add, pow2_1. ring. Qed.

Lemma pow2_pred k : Rounding.pow2 (k - 1) = Rounding.pow2 k / 2.
Proof.
  replace k with ((k - 1) + 1)%Z at 2 by lia. rewrite pow2_succ. field.
Qed.

Lemma pow2_IZR k : (0 <= k)%Z -> Rounding.pow2 k = IZR (2 ^ k).
Proof.
  intros Hk. pattern k. apply natlike_ind; [| |exact Hk].
  - simpl. apply pow2_0.
  - intros x Hx IH. unfold Z.succ. rewrite pow2_succ, IH.
    rewrite Z.pow_add_r by lia. rewrite mult_IZR.
    change (2 ^ 1)%Z with 2%Z. ring.
Qed.

Lemma pow2_inv k : (0 <= k)%Z -> Rounding.pow2 (- k) = / IZR (2 ^ k).
Proof. intros Hk. rewrite pow2_opp, pow2_IZR by exact Hk. reflexivity. Qed.

Lemma Int_part_spec x : IZR (Int_part x) <= x < IZR (Int_part x) + 1.
Proof. pose proof (base_Int_part x). lra. Qed.

Lemma Int_part_unique x z : IZR z <= x < IZR z + 1 -> Int_part x = z.
Proof.
  intros [H1 H2]. unfold Int_part.
  assert (Hup : (z + 1)%Z = up x).
  { apply up_tech; [exact H1|]. rewrite plus_IZR. simpl. lra. }
  lia.
Qed.

Lemma IZR_gap (a b : Z) : IZR a < IZR b + 1 -> (a <= b)%Z.
Proof.
  intros H. destruct (Z_le_gt_dec a b) as [Hle|Hgt]; [exact Hle|].
  assert (Hb : (b + 1 <= a)%Z) by lia. apply IZR_le in Hb. rewrite plus_IZR in Hb.
  simpl in Hb. lra.
Qed.

Lemma nearest_even_error x : Rabs (IZR (Rounding.nearest_even x) - x) <= 1 / 2.
Proof.
  unfold Rounding.nearest_even. pose proof (Int_part_spec x) as Hx.
  destruct (Rlt_dec (x - IZR (Int_part x)) (1 / 2)) as [Hlo|Hlo].
  - apply Rabs_le_intro. lra.
  - destruct (Rlt_dec (1 / 2) (x - IZR (Int_part x))) as [Hhi|Hhi].
    + rewrite plus_IZR. simpl. apply Rabs_le_intro. lra.
    + destruct (Z.even (Int_part x)).
      * apply Rabs_le_intro. lra.
      * rewrite plus_IZR. simpl. apply Rabs_le_intro. lra.
Qed.

Lemma nearest_even_unique x z : Rabs (x - IZR z) < 1 / 2 -> Rounding.nearest_even x = z.
Proof.
  intros H. apply Rabs_lt_elim in H. destruct H as [H1 H2].
  pose proof (nearest_even_error x) as He. apply Rabs_le_elim in He.
  set (n := Rounding.nearest_even x) in *.
  assert (Hle : (n <= z)%Z) by (apply IZR_gap; lra).
  assert (Hge : (z <= n)%Z) by (apply IZR_gap; lra).
  lia.
Qed.

Lemma nearest_even_IZR z : Rounding.nearest_even (IZR z) = z.
Proof.
  apply nearest_even_unique. replace (IZR z - IZR z) with 0 by ring.
  rewrite Rabs_R0. lra.
Qed.

Lemma nearest_even_le x z : x <= IZR z -> (Rounding.nearest_even x <= z)%Z.
Proof.
  intros H. pose proof (nearest_even_error x) as He. apply Rabs_le_elim in He.
  apply IZR_gap. lra.
Qed.

Lemma nearest_even_ge x z : IZR z <= x -> (z <= Rounding.nearest_even x)%Z.
Proof.
  intros H. pose proof (nearest_even_error x) as He. apply Rabs_le_elim in He.
  apply IZR_gap. lra.
Qed.

Lemma exponent_spec x : x <> 0 -> Rounding.pow2 (Rounding.exponent x - 1) <= Rabs x < Rounding.pow2 (Rounding.exponent x).
Proof.
  intros Hx. pose proof (Rabs_pos_lt x Hx) as Hpos. pose proof ln2_pos as H2.
  unfold Rounding.exponent. set (y := ln (Rabs x) / ln 2).
  pose proof (Int_part_spec y) as Hy.
  assert (Hln : ln (Rabs x) = y * ln 2) by (unfold y; field; lra).
  replace (Int_part y + 1 - 1)%Z with (Int_part y) by lia.
  unfold Rounding.pow2, Rpower. rewrite plus_IZR. simpl.
  assert (Hex : Rabs x = exp (y * ln 2)) by (rewrite <- Hln; symmetry; apply exp_ln; exact Hpos).
  rewrite Hex. split.
  - destruct (proj1 Hy) as [Hlt|Heq].
    + left. apply exp_increasing. nra.
    + right. rewrite Heq. reflexivity.
  - apply exp_increasing. nra.
Qed.

Lemma exponent_unique x k : Rounding.pow2 (k - 1) <= Rabs x < Rounding.pow2 k -> Rounding.exponent x = k.
Proof.
  intros [H1 H2].
  assert (Hx : x <> 0).
  { intros ->. rewrite Rabs_R0 in H1. pose proof (pow2_pos (k - 1)). lra. }
  pose proof (exponent_spec x Hx) as [H3 H4].
  assert (Ha : (k - 1 < Rounding.exponent x)%Z) by (apply pow2_lt_inv; lra).
  assert (Hb : (Rounding.exponent x - 1 < k)%Z) by (apply pow2_lt_inv; lra).
  lia.
Qed.

Lemma pow2_le_inv a b : Rounding.pow2 a <= Rounding.pow2 b -> (a <= b)%Z.
Proof.
  intros H. destruct (Z_le_gt_dec a b) as [Hle|Hgt]; [exact Hle|].
  assert (Hlt : (b < a)%Z) by lia. apply pow2_lt in Hlt. lra.
Qed.

Lemma pow2_sub a b : Rounding.pow2 (a - b) = Rounding.pow2 a / Rounding.pow2 b.
Proof.
  replace (a - b)%Z with (a + - b)%Z by lia. rewrite pow2_add, pow2_opp. reflexivity.
Qed.

Lemma pow2_grid a b : (b <= a)%Z -> Rounding.pow2 a = IZR (2 ^ (a - b)) * Rounding.pow2 b.
Proof.
  intros H. rewrite <- pow2_IZR by lia. rewrite <- pow2_add. f_equal. lia.
Qed.

Section Rounding_facts.
Variables prec emin : Z.

Lemma round_zero : Rounding.round prec emin 0 = 0.
Proof. unfold Rounding.round. destruct (Req_dec_T 0 0) as [_|H]; [reflexivity | contradiction]. Qed.

Lemma round_scaled x :
  x <> 0 ->
  Rounding.round prec emin x
  = IZR (Rounding.nearest_even (x / Rounding.pow2 (Rounding.quantum prec emin x))) * Rounding.pow2 (Rounding.quantum prec emin x).
Proof. intros Hx. unfold Rounding.round. destruct (Req_dec_T x 0); [contradiction | reflexivity]. Qed.

Lemma round_error x : Rabs (Rounding.round prec emin x - x) <= Rounding.pow2 (Rounding.quantum prec emin x - 1).
Proof.
  destruct (Req_dec_T x 0) as [->|Hx].
  - rewrite round_zero. replace (0 - 0) with 0 by ring. rewrite Rabs_R0.
    left. apply pow2_pos.
  - rewrite round_scaled by exact Hx. set (q := Rounding.quantum prec emin x).
    pose proof (pow2_pos q) as Hq.
    pose proof (nearest_even_error (x / Rounding.pow2 q)) as He. apply Rabs_le_elim in He.
    rewrite pow2_pred. apply Rabs_le_intro.
    set (n := IZR (Rounding.nearest_even (x / Rounding.pow2 q))) in *.
    assert (Hx' : x = x / Rounding.pow2 q * Rounding.pow2 q) by (field; lra).
    set (y := x / Rounding.pow2 q) in *. clearbody y n. rewrite Hx'. nra.
Qed.

Lemma round_error_relative x :
  Rabs (Rounding.round prec emin x - x) <= Rounding.pow2 (- prec) * Rabs x + Rounding.pow2 (emin - 1).
Proof.
  destruct (Req_dec_T x 0) as [->|Hx].
  - rewrite round_zero. replace (0 - 0) with 0 by ring. rewrite Rabs_R0.
    pose proof (pow2_pos (emin - 1)). lra.
  - eapply Rle_trans; [apply round_error|].
    pose proof (exponent_spec x Hx) as [He _].
    pose proof (pow2_pos (- prec)) as Hp. pose proof (pow2_pos (emin - 1)) as Hm.
    pose proof (Rabs_pos x) as Ha.
    unfold Rounding.quantum. destruct (Z.max_spec (Rounding.exponent x - prec) emin) as [[_ ->]|[_ ->]].
    + assert (0 <= Rounding.pow2 (- prec) * Rabs x) by nra. lra.
    + replace (Rounding.exponent x - prec - 1)%Z with (- prec + (Rounding.exponent x - 1))%Z by lia.
      rewrite pow2_add. nra.
Qed.

Lemma round_nearest x k n :
  Rounding.pow2 (k - 1) <= Rabs x < Rounding.pow2 k ->
  Rabs (x / Rounding.pow2 (Z.max (k - prec) emin) - IZR n) < 1 / 2 ->
  Rounding.round prec emin x = IZR n * Rounding.pow2 (Z.max (k - prec) emin).
Proof.
  intros Hk Hn.
  assert (Hx : x <> 0).
  { intros ->. rewrite Rabs_R0 in Hk. pose proof (pow2_pos (k - 1)). lra. }
  rewrite round_scaled by exact Hx. unfold Rounding.quantum.
  rewrite (exponent_unique x k Hk).
  rewrite (nearest_even_unique _ n Hn). reflexivity.
Qed.

Lemma round_le_grid x n :
  x <= IZR n * Rounding.pow2 (Rounding.quantum prec emin x) ->
  Rounding.round prec emin x <= IZR n * Rounding.pow2 (Rounding.quantum prec emin x).
Proof.
  intros H. destruct (Req_dec_T x 0) as [->|Hx].
  - rewrite round_zero. exact H.
  - rewrite round_scaled by exact Hx. set (q := Rounding.quantum prec emin x) in *.
    pose proof (pow2_pos q) as Hq.
    apply Rmult_le_compat_r; [lra|]. apply IZR_le. apply nearest_even_le.
    apply (Rmult_le_reg_r (Rounding.pow2 q)); [exact Hq|].
    replace (x / Rounding.pow2 q * Rounding.pow2 q) with x by (field; lra). exact H.
Qed.

Lemma round_ge_grid x n :
  IZR n * Rounding.pow2 (Rounding.quantum prec emin x) <= x ->
  IZR n * Rounding.pow2 (Rounding.quantum prec emin x) <= Rounding.round prec emin x.
Proof.
  intros H. destruct (Req_dec_T x 0) as [->|Hx].
  - rewrite round_zero. exact H.
  - rewrite round_scaled by exact Hx. set (q := Rounding.quantum prec emin x) in *.
    pose proof (pow2_pos q) as Hq.
    apply Rmult_le_compat_r; [lra|]. apply IZR_le. apply nearest_even_ge.
    apply (Rmult_le_reg_r (Rounding.pow2 q)); [exact Hq|].
    replace (x / Rounding.pow2 q * Rounding.pow2 q) with x by (field; lra). exact H.
Qed.

Lemma round_nonneg x : 0 <= x -> 0 <= Rounding.round prec emin x.
Proof.
  intros H. pose proof (round_ge_grid x 0) as Hg.
  rewrite Rmult_0_l in Hg. apply Hg. exact H.
Qed.

Lemma round_nonpos x : x <= 0 -> Rounding.round prec emin x <= 0.
Proof.
  intros H. pose proof (round_le_grid x 0) as Hg.
  rewrite Rmult_0_l in Hg. apply Hg. exact H.
Qed.

Hypothesis prec_pos : (1 <= prec)%Z.

Lemma round_le_pow2 x j :
  (emin <= j)%Z -> 0 <= x <= Rounding.pow2 j -> Rounding.round prec emin x <= Rounding.pow2 j.
Proof.
  intros Hj [H0 H1]. destruct (Req_dec_T x 0) as [->|Hx].
  - rewrite round_zero. left. apply pow2_pos.
  - pose proof (exponent_spec x Hx) as [He _].
    rewrite (Rabs_pos_eq x H0) in He.
    assert (Hej : (Rounding.exponent x - 1 <= j)%Z) by (apply pow2_le_inv; lra).
    assert (Hq : (Rounding.quantum prec emin x <= j)%Z) by (unfold Rounding.quantum; lia).
    rewrite (pow2_grid j _ Hq) in *. apply round_le_grid. exact H1.
Qed.

Lemma round_ge_pow2 x j :
  (emin <= j)%Z -> Rounding.pow2 j <= x -> Rounding.pow2 j <= Rounding.round prec emin x.
Proof.
  intros Hj H1. pose proof (pow2_pos j) as Hjp.
  assert (Hx : x <> 0) by lra.
  pose proof (exponent_spec x Hx) as [He1 He2].
  rewrite (Rabs_pos_eq x) in He1, He2 by lra.
  assert (Hej : (j < Rounding.exponent x)%Z) by (apply pow2_lt_inv; lra).
  assert (Hq : (Rounding.quantum prec emin x <= Rounding.exponent x - 1)%Z) by (unfold Rounding.quantum; lia).
  apply Rle_trans with (Rounding.pow2 (Rounding.exponent x - 1)); [apply pow2_le; lia|].
  rewrite (pow2_grid _ _ Hq) in *. apply round_ge_grid. exact He1.
Qed.

Lemma round_representable x : Rounding.representable prec emin x -> Rounding.round prec emin x = x.
Proof.
  intros (m & e & -> & Hm & He).
  destruct (Z.eq_dec m 0%Z) as [->|Hm0].
  { rewrite Rmult_0_l. apply round_zero. }
  pose proof (pow2_pos e) as Hpe.
  assert (Hx : IZR m * Rounding.pow2 e <> 0).
  { apply Rmult_integral_contrapositive_currified; [|lra].
    intros H. apply eq_IZR_R0 in H. contradiction. }
  set (x := IZR m * Rounding.pow2 e) in *.
  pose proof (exponent_spec x Hx) as [He1 _].
  assert (Habs : Rabs x < Rounding.pow2 (prec + e)).
  { unfold x. rewrite Rabs_mult, (Rabs_pos_eq (Rounding.pow2 e)) by lra.
    rewrite pow2_add. apply Rmult_lt_compat_r; [exact Hpe|].
    rewrite pow2_IZR by lia. rewrite <- abs_IZR. apply IZR_lt. exact Hm. }
  assert (Hk : (Rounding.exponent x - 1 < prec + e)%Z) by (apply pow2_lt_inv; lra).
  assert (Hq : (Rounding.quantum prec emin x <= e)%Z) by (unfold Rounding.quantum; lia).
  rewrite round_scaled by exact Hx. set (q := Rounding.quantum prec emin x) in *.
  assert (Hy : x / Rounding.pow2 q = IZR (m * 2 ^ (e - q))).
  { unfold x. rewrite (pow2_grid e q Hq). rewrite mult_IZR.
    pose proof (pow2_pos q). field. lra. }
  rewrite Hy, nearest_even_IZR. unfold x. rewrite (pow2_grid e q Hq), mult_IZR. ring.
Qed.

End Rounding_facts.

(** ** The two formats *)

Lemma pow2_inv_nat (n : nat) : Rounding.pow2 (- Z.of_nat n) = / 2 ^ n.
Proof.
  rewrite pow2_inv by lia. f_equal.
  induction n as [|n IH].
  - reflexivity.
  - rewrite Nat2Z.inj_succ, Z.pow_succ_r by lia. rewrite mult_IZR, IH. simpl. ring.
Qed.

Lemma nearest_even_tie y n :
  Z.even n = true -> Rabs (y - IZR n) = 1 / 2 -> Rounding.nearest_even y = n.
Proof.
  intros Hev Hy.
  assert (Hcases : y = IZR n + 1 / 2 \/ y = IZR n - 1 / 2).
  { unfold Rabs in Hy. destruct (Rcase_abs (y - IZR n)); [right | left]; lra. }
  unfold Rounding.nearest_even. destruct Hcases as [Hc|Hc].
  - assert (Hi : Int_part y = n) by (apply Int_part_unique; lra).
    rewrite Hi.
    destruct (Rlt_dec (y - IZR n) (1 / 2)); [lra|].
    destruct (Rlt_dec (1 / 2) (y - IZR n)); [lra|].
    rewrite Hev. reflexivity.
  - assert (Hi : Int_part y = (n - 1)%Z).
    { apply Int_part_unique. rewrite minus_IZR. lra. }
    rewrite Hi. rewrite minus_IZR.
    destruct (Rlt_dec (y - (IZR n - 1)) (1 / 2)); [lra|].
    destruct (Rlt_dec (1 / 2) (y - (IZR n - 1))); [lra|].
    destruct (Z.even (n - 1)) eqn:Hev'; [|lia].
    apply Z.even_spec in Hev, Hev'. destruct Hev as [a Ha], Hev' as [b Hb]. lia.
Qed.

(** The value of a rounding at a positive number given by its binade
    [k] and the denominator [d = 2^(prec - k)] of the format there. *)
Lemma round_dyadic prec emin x k n d :
  (1 <= prec)%Z -> (emin <= k - prec)%Z -> (k - prec <= 0)%Z ->
  d = (2 ^ (prec - k))%Z ->
  IZR (2 ^ (prec - 1)) <= x * IZR d < IZR (2 ^ prec) ->
  Rounding.nearest_even (x * IZR d) = n ->
  Rounding.round prec emin x = IZR n / IZR d.
Proof.
  intros Hp Hemin Hk Hd [Hlo Hhi] Hn.
  assert (Hq : Rounding.pow2 (k - prec) = / IZR d).
  { replace (k - prec)%Z with (- (prec - k))%Z by lia.
    rewrite pow2_inv by lia. rewrite Hd. reflexivity. }
  assert (Hdpos : 0 < IZR d).
  { rewrite Hd, <- pow2_IZR by lia. apply pow2_pos. }
  assert (Hk1 : Rounding.pow2 (k - 1) = IZR (2 ^ (prec - 1)) / IZR d).
  { replace (k - 1)%Z with ((prec - 1) + (k - prec))%Z by lia.
    rewrite pow2_add, Hq, pow2_IZR by lia. reflexivity. }
  assert (Hk0 : Rounding.pow2 k = IZR (2 ^ prec) / IZR d).
  { replace k with (prec + (k - prec))%Z at 1 by lia.
    rewrite pow2_add, Hq, pow2_IZR by lia. reflexivity. }
  assert (Hpos : 0 < IZR (2 ^ (prec - 1))).
  { rewrite <- pow2_IZR by lia. apply pow2_pos. }
  assert (Hx : 0 < x) by nra.
  assert (Hbr : Rounding.pow2 (k - 1) <= Rabs x < Rounding.pow2 k).
  { rewrite Rabs_pos_eq by lra. rewrite Hk1, Hk0. split.
    - apply (Rmult_le_reg_r (IZR d)); [exact Hdpos|].
      replace (IZR (2 ^ (prec - 1)) / IZR d * IZR d) with (IZR (2 ^ (prec - 1)))
        by (field; lra).
      exact Hlo.
    - apply (Rmult_lt_reg_r (IZR d)); [exact Hdpos|].
      replace (IZR (2 ^ prec) / IZR d * IZR d) with (IZR (2 ^ prec)) by (field; lra).
      exact Hhi. }
  assert (Hx0 : x <> 0) by lra.
  rewrite round_scaled by exact Hx0. unfold Rounding.quantum.
  rewrite (exponent_unique x k Hbr).
  replace (Z.max (k - prec) emin) with (k - prec)%Z by lia.
  rewrite Hq.
  replace (x / / IZR d) with (x * IZR d) by (field; lra).
  rewrite Hn. reflexivity.
Qed.

Lemma Binary64_round_at x k n d :
  (-1021 <= k)%Z -> (k <= 53)%Z -> d = (2 ^ (53 - k))%Z ->
  4503599627370496 <= x * IZR d < 9007199254740992 ->
  Rounding.nearest_even (x * IZR d) = n ->
  Binary64.round x = IZR n / IZR d.
Proof.
  intros Hk1 Hk2 Hd Hbr Hn. unfold Binary64.round, Binary64.prec, Binary64.emin.
  apply (round_dyadic 53 (-1074) x k n d); try lia; assumption.
Qed.

Lemma Float32_fround_at x k n d :
  (-125 <= k)%Z -> (k <= 24)%Z -> d = (2 ^ (24 - k))%Z ->
  8388608 <= x * IZR d < 16777216 ->
  Rounding.nearest_even (x * IZR d) = n ->
  Float32.fround x = IZR n / IZR d.
Proof.
  intros Hk1 Hk2 Hd Hbr Hn. unfold Float32.fround, Float32.prec, Float32.emin.
  apply (round_dyadic 24 (-149) x k n d); try lia; assumption.
Qed.

Lemma Binary64_round_nonneg x : 0 <= x -> 0 <= Binary64.round x.
Proof. apply round_nonneg. Qed.

Lemma Binary64_round_nonpos x : x <= 0 -> Binary64.round x <= 0.
Proof. apply round_nonpos. Qed.

Lemma Binary64_round_le_one x : 0 <= x <= 1 -> Binary64.round x <= 1.
Proof.
  intros Hx. rewrite <- pow2_0. apply round_le_pow2.
  - unfold Binary64.prec. lia.
  - unfold Binary64.emin. lia.
  - rewrite pow2_0. exact Hx.
Qed.

Lemma Binary64_round_ge_one x : 1 <= x -> 1 <= Binary64.round x.
Proof.
  intros Hx. rewrite <- pow2_0. apply round_ge_pow2.
  - unfold Binary64.prec. lia.
  - unfold Binary64.emin. lia.
  - rewrite pow2_0. exact Hx.
Qed.

Lemma Binary64_round_one : Binary64.round 1 = 1.
Proof.
  pose proof (Binary64_round_le_one 1). pose proof (Binary64_round_ge_one 1). lra.
Qed.

(** Below 1 a rounding to double is off by at most 2^-54. *)
Lemma Binary64_round_unit_error x :
  0 <= x < 1 -> Rabs (Binary64.round x - x) <= half_ulp.
Proof.
  intros [H0 H1]. unfold half_ulp.
  assert (Hh : 0 < / 2 ^ 54) by (apply Rinv_0_lt_compat, pow_lt; lra).
  destruct (Req_dec_T x 0) as [->|Hx].
  - unfold Binary64.round. rewrite round_zero.
    replace (0 - 0) with 0 by ring. rewrite Rabs_R0. lra.
  - assert (E54 : / 2 ^ 54 = Rounding.pow2 (- 54)) by (symmetry; apply (pow2_inv_nat 54)).
    rewrite E54. eapply Rle_trans; [apply round_error|]. apply pow2_le.
    pose proof (exponent_spec x Hx) as [He _]. rewrite Rabs_pos_eq in He by exact H0.
    assert (Hlt : (Rounding.exponent x - 1 < 0)%Z).
    { apply pow2_lt_inv. rewrite pow2_0. lra. }
    unfold Rounding.quantum, Binary64.prec, Binary64.emin. lia.
Qed.

Lemma Binary64_double_twice delta :
  Binary64.is_double delta -> Binary64.mul 2 delta = 2 * delta.
Proof.
  intros (m & e & -> & Hm & He). unfold Binary64.mul, Binary64.round.
  apply round_representable; [unfold Binary64.prec; lia|].
  unfold Rounding.representable. exists m, (e + 1)%Z. split; [|split].
  - rewrite pow2_add, pow2_1. ring.
  - exact Hm.
  - lia.
Qed.

(** A single is off by at most 2^-24 of the value, and by at most 2^-150
    where singles are subnormal. *)
Lemma Float32_fround_error x :
  Rabs (Float32.fround x - x) <= / 2 ^ 24 * Rabs x + / 2 ^ 150.
Proof.
  assert (E24 : / 2 ^ 24 = Rounding.pow2 (- 24)) by (symmetry; apply (pow2_inv_nat 24)).
  assert (E150 : / 2 ^ 150 = Rounding.pow2 (- 149 - 1))
    by (symmetry; apply (pow2_inv_nat 150)).
  rewrite E24, E150. apply (round_error_relative 24 (-149) x).
Qed.


Lemma Float32_fround_unit x : 0 <= x <= 1 -> 0 <= Float32.fround x <= 1.
Proof.
  intros Hx. split.
  - apply round_nonneg. lra.
  - rewrite <- pow2_0. apply round_le_pow2.
    + unfold Float32.prec. lia.
    + unfold Float32.emin. lia.
    + rewrite pow2_0. exact Hx.
Qed.

(** Every number above 1 - 2^-25 and below 1 is stored as 1. *)
Lemma Float32_fround_near_one x : 1 - / 2 ^ 25 < x < 1 -> Float32.fround x = 1.
Proof.
  intros [Hlo Hhi].
  assert (E25 : / 2 ^ 25 = / 33554432) by (f_equal; lra).
  rewrite E25 in Hlo.
  rewrite (Float32_fround_at x 0 16777216 16777216); [field | lia | lia | reflexivity | lra |].
  apply nearest_even_unique. apply Rabs_lt_intro. lra.
Qed.

(** The length of a vector after its coordinates were narrowed. *)
Lemma narrowed_length (v : THREE.Vector3) :
  THREE.length (narrowed v) <= (1 + / 2 ^ 24) * THREE.length v + 3 / 2 ^ 150.
Proof.
  destruct v as [a b c]. unfold narrowed, THREE.length. cbn [THREE.x THREE.y THREE.z].
  pose proof (Float32_fround_error a) as Ha.
  pose proof (Float32_fround_error b) as Hb.
  pose proof (Float32_fround_error c) as Hc.
  set (fa := Float32.fround a) in *. set (fb := Float32.fround b) in *.
  set (fc := Float32.fround c) in *.
  assert (He : 0 < / 2 ^ 24) by (apply Rinv_0_lt_compat, pow_lt; lra).
  assert (Hn : 0 < / 2 ^ 150) by (apply Rinv_0_lt_compat, pow_lt; lra).
  set (eps := / 2 ^ 24) in *. 
  replace (3 / 2 ^ 150) with (3 * / 2 ^ 150) by (unfold Rdiv; ring).
  set (eta := / 2 ^ 150) in *.
  set (n := sqrt (a * a + b * b + c * c)).
  assert (Hn0 : 0 <= n) by apply sqrt_pos.
  assert (Hnn : n * n = a * a + b * b + c * c).
  { unfold n. apply sqrt_sqrt. nra. }
  assert (Habs : forall t ft, Rabs (ft - t) <= eps * Rabs t + eta ->
            t * t <= n * n -> ft * ft <= ((1 + eps) * Rabs t + eta) * ((1 + eps) * Rabs t + eta)
            /\ 0 <= Rabs t <= n /\ Rabs t * Rabs t = t * t).
  { intros t ft Ht Htn. apply Rabs_le_elim in Ht.
    assert (Hat : 0 <= Rabs t) by apply Rabs_pos.
    assert (Hsq : Rabs t * Rabs t = t * t).
    { unfold Rabs. destruct (Rcase_abs t); ring. }
    assert (Hft : Rabs ft <= (1 + eps) * Rabs t + eta).
    { apply Rabs_le_intro. unfold Rabs in *. destruct (Rcase_abs t); lra. }
    assert (Hfsq : ft * ft = Rabs ft * Rabs ft).
    { unfold Rabs. destruct (Rcase_abs ft); ring. }
    split; [|split; [split; [exact Hat|]|exact Hsq]].
    - rewrite Hfsq. pose proof (Rabs_pos ft). nra.
    - nra. }
  destruct (Habs a fa Ha ltac:(nra)) as (Hfa & [Ha0 Han] & Hasq).
  destruct (Habs b fb Hb ltac:(nra)) as (Hfb & [Hb0 Hbn] & Hbsq).
  destruct (Habs c fc Hc ltac:(nra)) as (Hfc & [Hc0 Hcn] & Hcsq).
  set (ta := Rabs a) in *. set (tb := Rabs b) in *. set (tc := Rabs c) in *.
  rewrite <- (sqrt_square ((1 + eps) * n + 3 * eta)) by nra.
  apply sqrt_le_1_alt.
  assert (Hsum : ta * ta + tb * tb + tc * tc = n * n) by lra.
  assert (Hlin : 0 <= 3 * n - (ta + tb + tc)) by lra.
  assert (Hee : 0 <= (1 + eps) * eta) by (apply Rmult_le_pos; lra).
  pose proof (Rmult_le_pos _ _ Hee Hlin) as Hprod.
  assert (H1 : fa * fa + fb * fb + fc * fc
               <= (1 + eps) * (1 + eps) * (ta * ta + tb * tb + tc * tc)
                  + 2 * ((1 + eps) * eta) * (ta + tb + tc) + 3 * (eta * eta)) by lra.
  rewrite Hsum in H1.
  assert (Heta : 0 <= eta * eta) by nra.
  replace (((1 + eps) * n + 3 * eta) * ((1 + eps) * n + 3 * eta))
    with ((1 + eps) * (1 + eps) * (n * n) + 2 * ((1 + eps) * eta) * (3 * n)
          + 9 * (eta * eta)) by ring.
  lra.
Qed.

(** ** The progress update *)

Ltac split_reals :=
  unfold Math.min, Math.max, Rmin, Rmax;
  repeat match goal with
         | |- context [Rlt_dec ?a ?b] => destruct (Rlt_dec a b)
         | |- context [Rgt_dec ?a ?b] => destruct (Rgt_dec a b)
         | |- context [Rle_dec ?a ?b] => destruct (Rle_dec a b)
         | H : context [Rle_dec ?a ?b] |- _ => destruct (Rle_dec a b)
         end;
  try lra.


Lemma approach_tree rate delta p :
  unit_interval p -> 0 <= rate * delta ->
  approach rate TREE_SHAPE delta p = Rmin (p + rate * delta) 1.
Proof.
  unfold unit_interval, approach. intros Hp Hs. simpl. split_reals.
Qed.

Lemma approach_scattered rate delta p :
  unit_interval p -> 0 <= rate * delta ->
  approach rate SCATTERED delta p = Rmax (p - rate * delta) 0.
Proof.
  unfold unit_interval, approach. intros Hp Hs. simpl. split_reals.
Qed.

Lemma approach_unit rate treeState delta p :
  0 <= rate * delta -> unit_interval p -> unit_interval (approach rate treeState delta p).
Proof.
  intros Hs Hp. destruct treeState.
  - rewrite approach_tree by assumption. unfold unit_interval in *. split_reals.
  - rewrite approach_scattered by assumption. unfold unit_interval in *. split_reals.
Qed.


Lemma approach_all_unit rate fs p :
  0 <= rate -> forward_in_time fs -> unit_interval p ->
  unit_interval (approach_all rate fs p).
Proof.
  intros Hr Hfs. revert p. induction Hfs as [|f fs Hf _ IH]; intros p Hp; simpl.
  - exact Hp.
  - apply IH, approach_unit; [nra | exact Hp].
Qed.

(** The three callbacks compute [approach] at their own rate. *)

Lemma decimal_one : 1.0 = 1.
Proof. lra. Qed.

Lemma decimal_zero : 0.0 = 0.
Proof. lra. Qed.

Lemma decimal_two : 2.0 = 2.
Proof. lra. Qed.

Lemma Foliage_useFrame_progress treeState state delta c u :
  Foliage.shaderRef c = Some u ->
  Foliage.currentProgress (Foliage.useFrame treeState state delta c)
  = approach 2 treeState delta (Foliage.currentProgress c).
Proof.
  intros Hu. unfold Foliage.useFrame, approach. rewrite Hu. simpl.
  rewrite decimal_one, decimal_zero, decimal_two. reflexivity.
Qed.

Lemma Foliage_useFrame_attached treeState state delta c u :
  Foliage.shaderRef c = Some u ->
  exists u', Foliage.shaderRef (Foliage.useFrame treeState state delta c) = Some u'.
Proof.
  intros Hu. unfold Foliage.useFrame. rewrite Hu. simpl. eexists. reflexivity.
Qed.

Lemma Foliage_frames_progress fs c u :
  Foliage.shaderRef c = Some u ->
  Foliage.currentProgress (Foliage.frames fs c)
  = approach_all 2 fs (Foliage.currentProgress c).
Proof.
  revert c u. induction fs as [|f fs IH]; intros c u Hu; simpl.
  - reflexivity.
  - destruct (Foliage_useFrame_attached (toggle f) (root f) (delta f) c u Hu) as [u' Hu'].
    unfold Foliage.frames in *. simpl.
    rewrite (IH _ _ Hu'), (Foliage_useFrame_progress _ _ _ _ _ Hu). reflexivity.
Qed.

Lemma Foliage_frames_detached fs c :
  Foliage.shaderRef c = None -> Foliage.frames fs c = c.
Proof.
  intros Hn. induction fs as [|f fs IH]; simpl; [reflexivity|].
  unfold Foliage.frames in *. simpl.
  unfold Foliage.useFrame at 2. rewrite Hn. exact IH.
Qed.

Lemma Spiral_useFrame_progress treeState state delta c u :
  Spiral.shaderRef c = Some u ->
  Spiral.currentProgress (Spiral.useFrame treeState state delta c)
  = approach 2 treeState delta (Spiral.currentProgress c).
Proof.
  intros Hu. unfold Spiral.useFrame, approach. rewrite Hu. simpl.
  rewrite decimal_one, decimal_zero, decimal_two. reflexivity.
Qed.

Lemma Spiral_useFrame_attached treeState state delta c u :
  Spiral.shaderRef c = Some u ->
  exists u', Spiral.shaderRef (Spiral.useFrame treeState state delta c) = Some u'.
Proof.
  intros Hu. unfold Spiral.useFrame. rewrite Hu. simpl. eexists. reflexivity.
Qed.

Lemma Spiral_frames_progress fs c u :
  Spiral.shaderRef c = Some u ->
  Spiral.currentProgress (Spiral.frames fs c)
  = approach_all 2 fs (Spiral.currentProgress c).
Proof.
  revert c u. induction fs as [|f fs IH]; intros c u Hu; simpl.
  - reflexivity.
  - destruct (Spiral_useFrame_attached (toggle f) (root f) (delta f) c u Hu) as [u' Hu'].
    unfold Spiral.frames in *. simpl.
    rewrite (IH _ _ Hu'), (Spiral_useFrame_progress _ _ _ _ _ Hu). reflexivity.
Qed.

Lemma Spiral_frames_detached fs c :
  Spiral.shaderRef c = None -> Spiral.frames fs c = c.
Proof.
  intros Hn. induction fs as [|f fs IH]; simpl; [reflexivity|].
  unfold Spiral.frames in *. simpl.
  unfold Spiral.useFrame at 2. rewrite Hn. exact IH.
Qed.

Lemma Ornaments_progress_approach treeState delta p :
  Ornaments.progress treeState delta p = approach 1.5 treeState delta p.
Proof. reflexivity. Qed.

Lemma Ornaments_useFrame_progress treeState state delta c :
  Ornaments.progressRef (Ornaments.useFrame treeState state delta c)
  = approach 1.5 treeState delta (Ornaments.progressRef c).
Proof.
  unfold Ornaments.useFrame.
  destruct (Ornaments.boxMeshRef c) as [bm|];
    [destruct (forEach _ _ _) as [tmp1 m1]|];
    (destruct (Ornaments.sphereMeshRef c) as [sm|];
     [destruct (forEach _ _ _) as [tmp2 m2]|]); reflexivity.
Qed.

Lemma Ornaments_frames_progress fs c :
  Ornaments.progressRef (Ornaments.frames fs c)
  = approach_all 1.5 fs (Ornaments.progressRef c).
Proof.
  revert c. induction fs as [|f fs IH]; intros c; simpl; [reflexivity|].
  unfold Ornaments.frames in *. simpl.
  rewrite IH, Ornaments_useFrame_progress. reflexivity.
Qed.



(** ** The progress update in double arithmetic *)

Lemma elapsed_snoc fs f : elapsed (fs ++ [f]) = elapsed fs + delta f.
Proof.
  unfold elapsed. induction fs as [|f0 fs IH]; cbn [app fold_right].
  - lra.
  - rewrite IH. ring.
Qed.

Lemma approach64_all_snoc fs f p :
  approach64_all (fs ++ [f]) p = approach64 (toggle f) (delta f) (approach64_all fs p).
Proof. unfold approach64_all. rewrite fold_left_app. reflexivity. Qed.

Lemma half_ulp_pos : 0 < half_ulp.
Proof. unfold half_ulp. apply Rinv_0_lt_compat, pow_lt. lra. Qed.

Lemma approach64_tree delta p :
  Binary64.is_double delta -> unit_interval p ->
  approach64 TREE_SHAPE delta p
  = if Rlt_dec p 1 then Rmin (Binary64.round (p + 2 * delta)) 1 else p.
Proof.
  intros Hd [Hp0 Hp1]. unfold approach64. cbn [TreeMorphState_eqb].
  rewrite (Binary64_double_twice _ Hd). unfold Binary64.add, Math.min.
  destruct (Rlt_dec p 1); [reflexivity|].
  destruct (Rgt_dec p 1); [lra | reflexivity].
Qed.

Lemma approach64_scattered delta p :
  Binary64.is_double delta -> unit_interval p ->
  approach64 SCATTERED delta p
  = if Rgt_dec p 0 then Rmax (Binary64.round (p - 2 * delta)) 0 else p.
Proof.
  intros Hd [Hp0 Hp1]. unfold approach64. cbn [TreeMorphState_eqb].
  rewrite (Binary64_double_twice _ Hd). unfold Binary64.sub, Math.max.
  destruct (Rlt_dec p 0); [lra|].
  destruct (Rgt_dec p 0); reflexivity.
Qed.

Lemma approach64_unit treeState delta p :
  Binary64.is_double delta -> 0 <= delta -> unit_interval p ->
  unit_interval (approach64 treeState delta p).
Proof.
  intros Hd H0 Hp. pose proof Hp as [Hp0 Hp1]. destruct treeState.
  - rewrite approach64_tree by assumption.
    destruct (Rlt_dec p 1); [|exact Hp].
    pose proof (Binary64_round_nonneg (p + 2 * delta)) as Hn.
    unfold unit_interval, Rmin. destruct (Rle_dec _ _); lra.
  - rewrite approach64_scattered by assumption.
    destruct (Rgt_dec p 0); [|exact Hp].
    unfold unit_interval, Rmax. destruct (Rle_dec _ _); [lra|].
    split; [lra|].
    destruct (Rle_dec (p - 2 * delta) 0) as [Hle|Hgt].
    + pose proof (Binary64_round_nonpos _ Hle). lra.
    + apply Binary64_round_le_one. lra.
Qed.

Lemma round_unit_bounds x :
  0 <= x <= 1 -> x - half_ulp <= Binary64.round x <= x + half_ulp.
Proof.
  intros [H0 H1]. pose proof half_ulp_pos as Hh.
  destruct (Req_dec_T x 1) as [->|Hne].
  - rewrite Binary64_round_one. lra.
  - pose proof (Binary64_round_unit_error x) as He.
    assert (Hx : 0 <= x < 1) by lra. specialize (He Hx).
    apply Rabs_le_elim in He. lra.
Qed.

Lemma approach64_tree_within delta p a b :
  Binary64.is_double delta -> 0 <= delta -> unit_interval p ->
  Rmin a 1 <= p <= Rmin b 1 ->
  Rmin (a + 2 * delta - half_ulp) 1 <= approach64 TREE_SHAPE delta p
  <= Rmin (b + 2 * delta + half_ulp) 1.
Proof.
  intros Hd H0 Hp [Ha Hb]. pose proof Hp as [Hp0 Hp1]. pose proof half_ulp_pos as Hh.
  rewrite approach64_tree by assumption.
  destruct (Rlt_dec p 1) as [Hlt|Hge].
  - assert (Hap : a <= p) by (revert Ha; unfold Rmin; destruct (Rle_dec a 1); lra).
    assert (Hbp : p <= b) by (revert Hb; unfold Rmin; destruct (Rle_dec b 1); lra).
    destruct (Rle_dec 1 (p + 2 * delta)) as [Hbig|Hsmall].
    + pose proof (Binary64_round_ge_one _ Hbig) as Hr.
      assert (Hone : Rmin (Binary64.round (p + 2 * delta)) 1 = 1).
      { unfold Rmin. destruct (Rle_dec _ _); lra. }
      rewrite Hone. split; [apply Rmin_r|].
      unfold Rmin. destruct (Rle_dec _ _); lra.
    + pose proof (round_unit_bounds (p + 2 * delta)) as Hr.
      assert (Hx : 0 <= p + 2 * delta <= 1) by lra. specialize (Hr Hx).
      pose proof (Binary64_round_le_one _ Hx) as Hle.
      assert (Hsame : Rmin (Binary64.round (p + 2 * delta)) 1
                      = Binary64.round (p + 2 * delta)).
      { unfold Rmin. destruct (Rle_dec _ _); lra. }
      rewrite Hsame. split.
      * eapply Rle_trans; [apply Rmin_l|]. lra.
      * unfold Rmin. destruct (Rle_dec _ _); lra.
  - assert (Hp' : p = 1) by lra. subst p. split; [apply Rmin_r|].
    assert (Hb1 : 1 <= b) by (revert Hb; unfold Rmin; destruct (Rle_dec b 1); lra).
    unfold Rmin. destruct (Rle_dec _ _); lra.
Qed.

Lemma approach64_scattered_within delta p a b :
  Binary64.is_double delta -> 0 <= delta -> unit_interval p ->
  Rmax a 0 <= p <= Rmax b 0 ->
  Rmax (a - 2 * delta - half_ulp) 0 <= approach64 SCATTERED delta p
  <= Rmax (b - 2 * delta + half_ulp) 0.
Proof.
  intros Hd H0 Hp [Ha Hb]. pose proof Hp as [Hp0 Hp1]. pose proof half_ulp_pos as Hh.
  rewrite approach64_scattered by assumption.
  destruct (Rgt_dec p 0) as [Hgt|Hle].
  - assert (Hap : a <= p) by (revert Ha; unfold Rmax; destruct (Rle_dec a 0); lra).
    assert (Hbp : p <= b) by (revert Hb; unfold Rmax; destruct (Rle_dec b 0); lra).
    destruct (Rle_dec (p - 2 * delta) 0) as [Hsmall|Hbig].
    + pose proof (Binary64_round_nonpos _ Hsmall) as Hr.
      assert (Hzero : Rmax (Binary64.round (p - 2 * delta)) 0 = 0).
      { unfold Rmax. destruct (Rle_dec _ _); lra. }
      rewrite Hzero. split; [|apply Rmax_r].
      unfold Rmax. destruct (Rle_dec _ _); lra.
    + pose proof (round_unit_bounds (p - 2 * delta)) as Hr.
      assert (Hx : 0 <= p - 2 * delta <= 1) by lra. specialize (Hr Hx).
      assert (Hx0 : 0 <= p - 2 * delta) by lra.
      pose proof (Binary64_round_nonneg _ Hx0) as Hge.
      assert (Hsame : Rmax (Binary64.round (p - 2 * delta)) 0
                      = Binary64.round (p - 2 * delta)).
      { unfold Rmax. destruct (Rle_dec _ _); lra. }
      rewrite Hsame. split.
      * unfold Rmax. destruct (Rle_dec _ _); lra.
      * eapply Rle_trans; [|apply Rmax_l]. lra.
  - assert (Hp' : p = 0) by lra. subst p. split; [|apply Rmax_r].
    assert (Ha0 : a <= 0) by (revert Ha; unfold Rmax; destruct (Rle_dec a 0); lra).
    unfold Rmax. destruct (Rle_dec _ _); lra.
Qed.

Lemma approach64_all_unit fs p :
  forward_in_time fs -> double_steps fs -> unit_interval p ->
  unit_interval (approach64_all fs p).
Proof.
  intros Hfs Hds. revert p. unfold forward_in_time, double_steps in *.
  induction fs as [|f fs IH]; intros p Hp; simpl; [exact Hp|].
  apply IH.
  - exact (Forall_inv_tail Hfs).
  - exact (Forall_inv_tail Hds).
  - apply approach64_unit; [exact (Forall_inv Hds) | exact (Forall_inv Hfs) | exact Hp].
Qed.

Lemma approach64_all_within treeState fs p :
  constant_toggle treeState fs -> forward_in_time fs -> double_steps fs ->
  unit_interval p ->
  progress_within treeState p (2 * elapsed fs) (INR (length fs) * half_ulp)
    (approach64_all fs p).
Proof.
  unfold constant_toggle, forward_in_time, double_steps.
  induction fs as [|f fs IH] using rev_ind; intros Hc Hfs Hds Hp.
  - unfold progress_within. simpl. pose proof Hp as [Hp0 Hp1].
    replace (p + 2 * 0 - 0 * half_ulp) with p by ring.
    replace (p + 2 * 0 + 0 * half_ulp) with p by ring.
    replace (p - 2 * 0 - 0 * half_ulp) with p by ring.
    replace (p - 2 * 0 + 0 * half_ulp) with p by ring.
    destruct treeState; unfold Rmin, Rmax; destruct (Rle_dec _ _); lra.
  - apply Forall_app in Hc, Hfs, Hds.
    destruct Hc as [Hc Hcf], Hfs as [Hfs Hff], Hds as [Hds Hdf].
    apply Forall_inv in Hcf, Hff, Hdf.
    specialize (IH Hc Hfs Hds Hp).
    pose proof (approach64_all_unit fs p Hfs Hds Hp) as Hu.
    rewrite approach64_all_snoc, elapsed_snoc, length_app, Hcf. simpl length.
    rewrite plus_INR. simpl INR.
    unfold progress_within in *. destruct treeState.
    + pose proof (approach64_tree_within (delta f) _ _ _ Hdf Hff Hu IH) as Hs.
      replace (p + 2 * (elapsed fs + delta f) - (INR (length fs) + 1) * half_ulp)
        with (p + 2 * elapsed fs - INR (length fs) * half_ulp + 2 * delta f - half_ulp)
        by ring.
      replace (p + 2 * (elapsed fs + delta f) + (INR (length fs) + 1) * half_ulp)
        with (p + 2 * elapsed fs + INR (length fs) * half_ulp + 2 * delta f + half_ulp)
        by ring.
      exact Hs.
    + pose proof (approach64_scattered_within (delta f) _ _ _ Hdf Hff Hu IH) as Hs.
      replace (p - 2 * (elapsed fs + delta f) - (INR (length fs) + 1) * half_ulp)
        with (p - 2 * elapsed fs - INR (length fs) * half_ulp - 2 * delta f - half_ulp)
        by ring.
      replace (p - 2 * (elapsed fs + delta f) + (INR (length fs) + 1) * half_ulp)
        with (p - 2 * elapsed fs + INR (length fs) * half_ulp - 2 * delta f + half_ulp)
        by ring.
      exact Hs.
Qed.

(** Once the time elapsed exceeds half a second by the rounding errors
    that may have gathered, the progress is the target. *)
Lemma approach64_all_arrives treeState fs p :
  constant_toggle treeState fs -> forward_in_time fs -> double_steps fs ->
  unit_interval p ->
  0.5 + INR (length fs) * half_ulp / 2 <= elapsed fs ->
  approach64_all fs p = target_of treeState.
Proof.
  intros Hc Hfs Hds Hp He. pose proof Hp as [Hp0 Hp1].
  pose proof (approach64_all_within treeState fs p Hc Hfs Hds Hp) as Hw.
  pose proof (approach64_all_unit fs p Hfs Hds Hp) as [Hu0 Hu1].
  unfold progress_within in Hw. destruct treeState; simpl.
  - destruct Hw as [Hlo _]. revert Hlo. unfold Rmin.
    destruct (Rle_dec _ _); lra.
  - destruct Hw as [_ Hhi]. revert Hhi. unfold Rmax.
    destruct (Rle_dec _ _); lra.
Qed.

(** The two callbacks compute [approach64] and publish its result. *)

Lemma FoliageIEEE_useFrame_progress treeState state delta c u :
  Foliage.shaderRef c = Some u ->
  exists u',
    Foliage.shaderRef (FoliageIEEE.useFrame treeState state delta c) = Some u'
    /\ Foliage.uProgress u' = approach64 treeState delta (Foliage.currentProgress c)
    /\ Foliage.currentProgress (FoliageIEEE.useFrame treeState state delta c)
       = approach64 treeState delta (Foliage.currentProgress c).
Proof.
  intros Hu. unfold FoliageIEEE.useFrame, approach64. rewrite Hu.
  cbn [Foliage.shaderRef Foliage.currentProgress Foliage.uProgress].
  rewrite decimal_one, decimal_zero, decimal_two.
  eexists. split; [reflexivity|]. split; reflexivity.
Qed.

Lemma FoliageIEEE_frames_snoc fs f c :
  FoliageIEEE.frames (fs ++ [f]) c
  = FoliageIEEE.useFrame (toggle f) (root f) (delta f) (FoliageIEEE.frames fs c).
Proof. unfold FoliageIEEE.frames. rewrite fold_left_app. reflexivity. Qed.

Lemma FoliageIEEE_frames_progress fs c u :
  Foliage.shaderRef c = Some u ->
  Foliage.currentProgress (FoliageIEEE.frames fs c)
  = approach64_all fs (Foliage.currentProgress c)
  /\ exists u', Foliage.shaderRef (FoliageIEEE.frames fs c) = Some u'
                /\ (fs <> [] ->
                    Foliage.uProgress u' = Foliage.currentProgress (FoliageIEEE.frames fs c)).
Proof.
  intros Hu. induction fs as [|f fs IH] using rev_ind.
  - split; [reflexivity|]. exists u. split; [exact Hu|]. intros H. contradiction.
  - destruct IH as (Hp & u1 & Hu1 & _).
    rewrite FoliageIEEE_frames_snoc, approach64_all_snoc.
    destruct (FoliageIEEE_useFrame_progress (toggle f) (root f) (delta f) _ _ Hu1)
      as (u2 & Hu2 & Hup & Hcp).
    rewrite Hcp, Hp. split; [reflexivity|].
    exists u2. split; [exact Hu2|]. intros _. rewrite Hup, Hp. reflexivity.
Qed.

Lemma SpiralIEEE_useFrame_progress treeState state delta c u :
  Spiral.shaderRef c = Some u ->
  exists u',
    Spiral.shaderRef (SpiralIEEE.useFrame treeState state delta c) = Some u'
    /\ Spiral.uProgress u' = approach64 treeState delta (Spiral.currentProgress c)
    /\ Spiral.currentProgress (SpiralIEEE.useFrame treeState state delta c)
       = approach64 treeState delta (Spiral.currentProgress c).
Proof.
  intros Hu. unfold SpiralIEEE.useFrame, approach64. rewrite Hu.
  cbn [Spiral.shaderRef Spiral.currentProgress Spiral.uProgress].
  rewrite decimal_one, decimal_zero, decimal_two.
  eexists. split; [reflexivity|]. split; reflexivity.
Qed.

Lemma SpiralIEEE_frames_snoc fs f c :
  SpiralIEEE.frames (fs ++ [f]) c
  = SpiralIEEE.useFrame (toggle f) (root f) (delta f) (SpiralIEEE.frames fs c).
Proof. unfold SpiralIEEE.frames. rewrite fold_left_app. reflexivity. Qed.

Lemma SpiralIEEE_frames_progress fs c u :
  Spiral.shaderRef c = Some u ->
  Spiral.currentProgress (SpiralIEEE.frames fs c)
  = approach64_all fs (Spiral.currentProgress c)
  /\ exists u', Spiral.shaderRef (SpiralIEEE.frames fs c) = Some u'
                /\ (fs <> [] ->
                    Spiral.uProgress u' = Spiral.currentProgress (SpiralIEEE.frames fs c)).
Proof.
  intros Hu. induction fs as [|f fs IH] using rev_ind.
  - split; [reflexivity|]. exists u. split; [exact Hu|]. intros H. contradiction.
  - destruct IH as (Hp & u1 & Hu1 & _).
    rewrite SpiralIEEE_frames_snoc, approach64_all_snoc.
    destruct (SpiralIEEE_useFrame_progress (toggle f) (root f) (delta f) _ _ Hu1)
      as (u2 & Hu2 & Hup & Hcp).
    rewrite Hcp, Hp. split; [reflexivity|].
    exists u2. split; [exact Hu2|]. intros _. rewrite Hup, Hp. reflexivity.
Qed.

(** ** Ten frames of a twentieth of a second *)

Lemma twentieth_is_double : Binary64.is_double Corner.twentieth.
Proof.
  exists 3602879701896397%Z, (-56)%Z. split; [|split].
  - assert (E : Rounding.pow2 (-56) = / IZR (2 ^ 56)) by (apply (pow2_inv 56); lia).
    rewrite E. unfold Corner.twentieth.
    change (2 ^ 56)%Z with 72057594037927936%Z. unfold Rdiv. reflexivity.
  - unfold Binary64.prec. reflexivity.
  - unfold Binary64.emin. lia.
Qed.

Lemma eighth_is_double : Binary64.is_double 0.125.
Proof.
  exists 1%Z, (-3)%Z. split; [|split].
  - assert (E : Rounding.pow2 (-3) = / IZR (2 ^ 3)) by (apply (pow2_inv 3); lia).
    rewrite E. change (2 ^ 3)%Z with 8%Z. lra.
  - unfold Binary64.prec. reflexivity.
  - unfold Binary64.emin. lia.
Qed.

(** One step toward the tree from [p] by the double [delta], evaluated:
    the sum lies in the binade [k], where doubles are the multiples of
    [1 / d], and [n / d] is the nearest of them. *)
Lemma approach64_tree_at delta p k n d :
  Binary64.is_double delta -> 0 <= p < 1 ->
  (-1021 <= k)%Z -> (k <= 53)%Z -> d = (2 ^ (53 - k))%Z ->
  4503599627370496 <= (p + 2 * delta) * IZR d < 9007199254740992 ->
  Rounding.nearest_even ((p + 2 * delta) * IZR d) = n ->
  IZR n / IZR d <= 1 ->
  approach64 TREE_SHAPE delta p = IZR n / IZR d.
Proof.
  intros Hd [Hp0 Hp1] Hk1 Hk2 Hdd Hbr Hn Hle.
  rewrite approach64_tree; [|exact Hd|unfold unit_interval; lra].
  destruct (Rlt_dec p 1); [|lra].
  rewrite (Binary64_round_at _ k n d Hk1 Hk2 Hdd Hbr Hn).
  unfold Rmin. destruct (Rle_dec _ _); lra.
Qed.

Lemma tenth_step_1 :
  approach64 TREE_SHAPE Corner.twentieth 0 = 7205759403792794 / 72057594037927936.
Proof.
  apply (approach64_tree_at Corner.twentieth _ (-3) 7205759403792794 72057594037927936 twentieth_is_double);
    unfold Corner.twentieth.
  - lra.
  - lia.
  - lia.
  - reflexivity.
  - lra.
  - apply nearest_even_unique, Rabs_lt_intro. lra.
  - lra.
Qed.

Lemma tenth_step_2 :
  approach64 TREE_SHAPE Corner.twentieth (3602879701896397 / 36028797018963968) = 7205759403792794 / 36028797018963968.
Proof.
  apply (approach64_tree_at Corner.twentieth _ (-2) 7205759403792794 36028797018963968 twentieth_is_double);
    unfold Corner.twentieth.
  - lra.
  - lia.
  - lia.
  - reflexivity.
  - lra.
  - apply nearest_even_unique, Rabs_lt_intro. lra.
  - lra.
Qed.

Lemma tenth_step_3 :
  approach64 TREE_SHAPE Corner.twentieth (3602879701896397 / 18014398509481984) = 5404319552844596 / 18014398509481984.
Proof.
  apply (approach64_tree_at Corner.twentieth _ (-1) 5404319552844596 18014398509481984 twentieth_is_double);
    unfold Corner.twentieth.
  - lra.
  - lia.
  - lia.
  - reflexivity.
  - lra.
  - apply nearest_even_tie; [reflexivity|].
    unfold Rabs. destruct (Rcase_abs _); lra.
  - lra.
Qed.

Lemma tenth_step_4 :
  approach64 TREE_SHAPE Corner.twentieth (1351079888211149 / 4503599627370496) = 7205759403792794 / 18014398509481984.
Proof.
  apply (approach64_tree_at Corner.twentieth _ (-1) 7205759403792794 18014398509481984 twentieth_is_double);
    unfold Corner.twentieth.
  - lra.
  - lia.
  - lia.
  - reflexivity.
  - lra.
  - apply nearest_even_tie; [reflexivity|].
    unfold Rabs. destruct (Rcase_abs _); lra.
  - lra.
Qed.

Lemma tenth_step_5 :
  approach64 TREE_SHAPE Corner.twentieth (3602879701896397 / 9007199254740992) = 4503599627370496 / 9007199254740992.
Proof.
  apply (approach64_tree_at Corner.twentieth _ (0) 4503599627370496 9007199254740992 twentieth_is_double);
    unfold Corner.twentieth.
  - lra.
  - lia.
  - lia.
  - reflexivity.
  - lra.
  - apply nearest_even_unique, Rabs_lt_intro. lra.
  - lra.
Qed.

Lemma tenth_step_6 :
  approach64 TREE_SHAPE Corner.twentieth (1 / 2) = 5404319552844595 / 9007199254740992.
Proof.
  apply (approach64_tree_at Corner.twentieth _ (0) 5404319552844595 9007199254740992 twentieth_is_double);
    unfold Corner.twentieth.
  - lra.
  - lia.
  - lia.
  - reflexivity.
  - lra.
  - apply nearest_even_unique, Rabs_lt_intro. lra.
  - lra.
Qed.

Lemma tenth_step_7 :
  approach64 TREE_SHAPE Corner.twentieth (5404319552844595 / 9007199254740992) = 6305039478318694 / 9007199254740992.
Proof.
  apply (approach64_tree_at Corner.twentieth _ (0) 6305039478318694 9007199254740992 twentieth_is_double);
    unfold Corner.twentieth.
  - lra.
  - lia.
  - lia.
  - reflexivity.
  - lra.
  - apply nearest_even_unique, Rabs_lt_intro. lra.
  - lra.
Qed.

Lemma tenth_step_8 :
  approach64 TREE_SHAPE Corner.twentieth (3152519739159347 / 4503599627370496) = 7205759403792793 / 9007199254740992.
Proof.
  apply (approach64_tree_at Corner.twentieth _ (0) 7205759403792793 9007199254740992 twentieth_is_double);
    unfold Corner.twentieth.
  - lra.
  - lia.
  - lia.
  - reflexivity.
  - lra.
  - apply nearest_even_unique, Rabs_lt_intro. lra.
  - lra.
Qed.

Lemma tenth_step_9 :
  approach64 TREE_SHAPE Corner.twentieth (7205759403792793 / 9007199254740992) = 8106479329266892 / 9007199254740992.
Proof.
  apply (approach64_tree_at Corner.twentieth _ (0) 8106479329266892 9007199254740992 twentieth_is_double);
    unfold Corner.twentieth.
  - lra.
  - lia.
  - lia.
  - reflexivity.
  - lra.
  - apply nearest_even_unique, Rabs_lt_intro. lra.
  - lra.
Qed.

Lemma tenth_step_10 :
  approach64 TREE_SHAPE Corner.twentieth (2026619832316723 / 2251799813685248) = 9007199254740991 / 9007199254740992.
Proof.
  apply (approach64_tree_at Corner.twentieth _ (0) 9007199254740991 9007199254740992 twentieth_is_double);
    unfold Corner.twentieth.
  - lra.
  - lia.
  - lia.
  - reflexivity.
  - lra.
  - apply nearest_even_unique, Rabs_lt_intro. lra.
  - lra.
Qed.

Lemma ten_twentieths : approach64_all Corner.ten_frames 0 = 9007199254740991 / 9007199254740992.
Proof.
  unfold approach64_all, Corner.ten_frames. cbn [repeat fold_left Sample.frame toggle delta].
  rewrite tenth_step_1.
  replace (7205759403792794 / 72057594037927936) with (3602879701896397 / 36028797018963968) by lra.
  rewrite tenth_step_2.
  replace (7205759403792794 / 36028797018963968) with (3602879701896397 / 18014398509481984) by lra.
  rewrite tenth_step_3.
  replace (5404319552844596 / 18014398509481984) with (1351079888211149 / 4503599627370496) by lra.
  rewrite tenth_step_4.
  replace (7205759403792794 / 18014398509481984) with (3602879701896397 / 9007199254740992) by lra.
  rewrite tenth_step_5.
  replace (4503599627370496 / 9007199254740992) with (1 / 2) by lra.
  rewrite tenth_step_6.
  rewrite tenth_step_7.
  replace (6305039478318694 / 9007199254740992) with (3152519739159347 / 4503599627370496) by lra.
  rewrite tenth_step_8.
  rewrite tenth_step_9.
  replace (8106479329266892 / 9007199254740992) with (2026619832316723 / 2251799813685248) by lra.
  rewrite tenth_step_10.
  reflexivity.
Qed.

(** C3: as the code computes it, under a constant toggle, with time
    steps d1..dn that are doubles and not negative, the progress of
    Foliage and of Spiral after the n frames lies between
    min(p0 + 2.0*(d1+...+dn) - n*2^-54, 1.0) and
    min(p0 + 2.0*(d1+...+dn) + n*2^-54, 1.0) for the tree shape, and
    between max(p0 - 2.0*(d1+...+dn) - n*2^-54, 0.0) and
    max(p0 - 2.0*(d1+...+dn) + n*2^-54, 0.0) for the scattered shape:
    each frame adds in double precision and is off by at most 2^-54.
    Once the elapsed time reaches 0.5 + n*2^-55 the progress is the
    target exactly, and after the first frame the uniform uProgress of
    the material carries the progress. *)
Theorem C3_progress_after_frames_in_doubles
    (treeState : TreeMorphState) (fs : list Frame)
    (fc : Foliage.Instance) (fu : Foliage.Uniforms)
    (sc : Spiral.Instance) (su : Spiral.Uniforms) :
  constant_toggle treeState fs -> forward_in_time fs -> double_steps fs ->
  Foliage.shaderRef fc = Some fu -> unit_interval (Foliage.currentProgress fc) ->
  Spiral.shaderRef sc = Some su -> unit_interval (Spiral.currentProgress sc) ->
  (progress_within treeState (Foliage.currentProgress fc) (2.0 * elapsed fs)
     (INR (length fs) * half_ulp) (Foliage.currentProgress (FoliageIEEE.frames fs fc))
   /\ progress_within treeState (Spiral.currentProgress sc) (2.0 * elapsed fs)
        (INR (length fs) * half_ulp) (Spiral.currentProgress (SpiralIEEE.frames fs sc)))
  /\ (0.5 + INR (length fs) * half_ulp / 2 <= elapsed fs ->
      Foliage.currentProgress (FoliageIEEE.frames fs fc) = target_of treeState
      /\ Spiral.currentProgress (SpiralIEEE.frames fs sc) = target_of treeState)
  /\ (fs <> [] ->
      (exists u, Foliage.shaderRef (FoliageIEEE.frames fs fc) = Some u
                 /\ Foliage.uProgress u
                    = Foliage.currentProgress (FoliageIEEE.frames fs fc))
      /\ (exists u, Spiral.shaderRef (SpiralIEEE.frames fs sc) = Some u
                    /\ Spiral.uProgress u
                       = Spiral.currentProgress (SpiralIEEE.frames fs sc))).
Proof.
  intros Hc Hfs Hds Hfu Hfp Hsu Hsp.
  destruct (FoliageIEEE_frames_progress fs fc fu Hfu) as (Hf & uf & Huf & Hufp).
  destruct (SpiralIEEE_frames_progress fs sc su Hsu) as (Hs & us & Hus & Husp).
  rewrite Hf, Hs, decimal_two. split; [|split].
  - split; apply approach64_all_within; assumption.
  - intros He. split; apply approach64_all_arrives; assumption.
  - intros Hne. split.
    + exists uf. split; [exact Huf|]. rewrite <- Hf. apply Hufp. exact Hne.
    + exists us. split; [exact Hus|]. rewrite <- Hs. apply Husp. exact Hne.
Qed.

Lemma C3_progress_after_frames_in_doubles_witness :
  Foliage.currentProgress (FoliageIEEE.frames Corner.five_eighths Sample.foliage) = 1
  /\ Spiral.currentProgress (SpiralIEEE.frames Corner.five_eighths Sample.spiral) = 1.
Proof.
  assert (Hh : half_ulp <= 1 / 1000).
  { unfold half_ulp. apply Rmult_le_reg_r with (2 ^ 54); [apply pow_lt; lra|].
    rewrite Rinv_l by (apply pow_nonzero; lra). lra. }
  assert (He : 0.5 + INR (length Corner.five_eighths) * half_ulp / 2
               <= elapsed Corner.five_eighths).
  { simpl. lra. }
  refine (proj1 (proj2 (C3_progress_after_frames_in_doubles TREE_SHAPE Corner.five_eighths
            Sample.foliage (Foliage.initial_uniforms (K := Sample.constants))
            Sample.spiral Spiral.initial_uniforms _ _ _ _ _ _ _)) He).
  - repeat constructor.
  - repeat constructor; simpl; lra.
  - repeat constructor; apply eighth_is_double.
  - reflexivity.
  - unfold unit_interval; simpl; lra.
  - reflexivity.
  - unfold unit_interval; simpl; lra.
Defined.

(** Ten frames toward the tree, each of the double nearest to 0.05,
    start from progress 0 and take more than half a second in all, yet
    they leave the progress of Foliage and of Spiral one unit in the
    last place below 1: the sums 0.1 + 0.1 + ... are rounded at every
    frame. *)
Lemma C3_counterexample :
  constant_toggle TREE_SHAPE Corner.ten_frames
  /\ forward_in_time Corner.ten_frames
  /\ Foliage.currentProgress Sample.foliage = 0
  /\ Spiral.currentProgress Sample.spiral = 0
  /\ 0.5 <= elapsed Corner.ten_frames
  /\ Rmin (0 + 2.0 * elapsed Corner.ten_frames) 1.0 = 1
  /\ Foliage.currentProgress (FoliageIEEE.frames Corner.ten_frames Sample.foliage)
     = 9007199254740991 / 9007199254740992
  /\ Spiral.currentProgress (SpiralIEEE.frames Corner.ten_frames Sample.spiral)
     = 9007199254740991 / 9007199254740992
  /\ 9007199254740991 / 9007199254740992 <> target_of TREE_SHAPE.
Proof.
  assert (He : elapsed Corner.ten_frames = 10 * Corner.twentieth).
  { unfold elapsed, Corner.ten_frames. cbn [repeat fold_right Sample.frame delta]. ring. }
  split; [repeat constructor|].
  split; [repeat constructor; unfold Corner.twentieth; simpl; lra|].
  split; [reflexivity|]. split; [reflexivity|].
  split; [rewrite He; unfold Corner.twentieth; lra|].
  split.
  { rewrite He. unfold Corner.twentieth, Rmin. destruct (Rle_dec _ _); lra. }
  split.
  { destruct (FoliageIEEE_frames_progress Corner.ten_frames Sample.foliage
                (Foliage.initial_uniforms (K := Sample.constants)) eq_refl) as [Hp _].
    rewrite Hp. exact ten_twentieths. }
  split.
  { destruct (SpiralIEEE_frames_progress Corner.ten_frames
                Sample.spiral Spiral.initial_uniforms eq_refl) as [Hp _].
    rewrite Hp. exact ten_twentieths. }
  simpl. lra.
Qed.

(** C8: the progress of Foliage, Spiral and Ornaments stays in [0, 1]:
    it starts at 0 and every frame, for any time step that is not
    negative and any toggle state, keeps it there. *)
Theorem C8_progress_in_unit_interval
    (fs : list Frame)
    (fc : Foliage.Instance) (sc : Spiral.Instance) (oc : Ornaments.Instance) :
  forward_in_time fs ->
  unit_interval (Foliage.currentProgress fc) ->
  unit_interval (Spiral.currentProgress sc) ->
  unit_interval (Ornaments.progressRef oc) ->
  unit_interval (Foliage.currentProgress (Foliage.frames fs fc))
  /\ unit_interval (Spiral.currentProgress (Spiral.frames fs sc))
  /\ unit_interval (Ornaments.progressRef (Ornaments.frames fs oc)).
Proof.
  intros Hfs Hfp Hsp Hop.
  assert (H2 : 0 <= 2) by lra.
  assert (H15 : 0 <= 1.5) by lra.
  repeat split.
  - destruct (Foliage.shaderRef fc) as [u|] eqn:Hu.
    + rewrite (Foliage_frames_progress _ _ _ Hu). apply approach_all_unit; assumption.
    + rewrite (Foliage_frames_detached _ _ Hu). apply Hfp.
  - destruct (Foliage.shaderRef fc) as [u|] eqn:Hu.
    + rewrite (Foliage_frames_progress _ _ _ Hu). apply approach_all_unit; assumption.
    + rewrite (Foliage_frames_detached _ _ Hu). apply Hfp.
  - destruct (Spiral.shaderRef sc) as [u|] eqn:Hu.
    + rewrite (Spiral_frames_progress _ _ _ Hu). apply approach_all_unit; assumption.
    + rewrite (Spiral_frames_detached _ _ Hu). apply Hsp.
  - destruct (Spiral.shaderRef sc) as [u|] eqn:Hu.
    + rewrite (Spiral_frames_progress _ _ _ Hu). apply approach_all_unit; assumption.
    + rewrite (Spiral_frames_detached _ _ Hu). apply Hsp.
  - rewrite Ornaments_frames_progress. apply approach_all_unit; assumption.
  - rewrite Ornaments_frames_progress. apply approach_all_unit; assumption.
Qed.

Lemma C8_progress_in_unit_interval_witness :
  unit_interval (Foliage.currentProgress (Foliage.frames Sample.flicker Sample.foliage))
  /\ unit_interval (Spiral.currentProgress (Spiral.frames Sample.flicker Sample.spiral))
  /\ unit_interval (Ornaments.progressRef (Ornaments.frames Sample.flicker Sample.ornaments)).
Proof.
  apply (C8_progress_in_unit_interval Sample.flicker
           Sample.foliage Sample.spiral Sample.ornaments).
  - repeat constructor; simpl; lra.
  - unfold unit_interval; simpl; lra.
  - unfold unit_interval; simpl; lra.
  - unfold unit_interval; simpl; lra.
Defined.

(** ** Loops and buffers *)

Lemma for_loop_succ {S : Type} (n : nat) (body : nat -> S -> S) (s : S) :
  for_loop (Datatypes.S n) body s = body n (for_loop n body s).
Proof.
  unfold for_loop. rewrite seq_S, fold_left_app. reflexivity.
Qed.

(** The rule of the counting loop: an invariant that holds at entry and
    that every round carries from [i] to [i + 1] holds at exit. *)
Lemma for_loop_invariant {S : Type} (Inv : nat -> S -> Prop) (n : nat)
    (body : nat -> S -> S) (s : S) :
  Inv 0%nat s ->
  (forall i acc, (i < n)%nat -> Inv i acc -> Inv (Datatypes.S i) (body i acc)) ->
  Inv n (for_loop n body s).
Proof.
  intros H0 Hstep.
  assert (Hm : forall m, (m <= n)%nat -> Inv m (for_loop m body s)).
  { induction m as [|m IH]; intros Hle.
    - exact H0.
    - rewrite for_loop_succ. apply Hstep; [lia | apply IH; lia]. }
  apply Hm. lia.
Qed.

Lemma point_written (a : Float32Array) (i : nat) (vx vy vz : R) :
  (i * 3 + 2 < length a)%nat ->
  point (<[(i * 3 + 2)%nat := vz]> (<[(i * 3 + 1)%nat := vy]> (<[(i * 3)%nat := vx]> a))) i
  = Some (THREE.mkVector3 vx vy vz).
Proof.
  intros Hlen. unfold point.
  rewrite list_lookup_insert_ne by lia.
  rewrite list_lookup_insert_ne by lia.
  rewrite list_lookup_insert_eq by lia.
  rewrite list_lookup_insert_ne by lia.
  rewrite list_lookup_insert_eq by (rewrite length_insert; lia).
  rewrite list_lookup_insert_eq by (rewrite !length_insert; lia).
  reflexivity.
Qed.

Lemma point_kept (a : Float32Array) (i k : nat) (vx vy vz : R) :
  i <> k ->
  point (<[(k * 3 + 2)%nat := vz]> (<[(k * 3 + 1)%nat := vy]> (<[(k * 3)%nat := vx]> a))) i
  = point a i.
Proof.
  intros Hik. unfold point.
  rewrite !list_lookup_insert_ne by lia. reflexivity.
Qed.

Lemma vector_ext (a b c a' b' c' : R) :
  a = a' -> b = b' -> c = c' -> THREE.mkVector3 a b c = THREE.mkVector3 a' b' c'.
Proof. intros -> -> ->. reflexivity. Qed.

(** ** Trigonometry of the scattered shape *)

Lemma cbrt_unit (u : R) : 0 <= u < 1 -> 0 <= Math.cbrt u <= 1.
Proof.
  intros [H0 H1]. unfold Math.cbrt.
  destruct (Rlt_dec 0 u) as [Hpos|Hnpos].
  - split.
    + left. apply exp_pos.
    + left. rewrite <- exp_0. apply exp_increasing.
      assert (Hln : ln u < 0) by (rewrite <- ln_1; apply ln_increasing; lra).
      lra.
  - destruct (Rlt_dec u 0); lra.
Qed.

Lemma sphere_point_length (sr phi theta : R) :
  0 <= sr ->
  THREE.length
    (THREE.mkVector3 (sr * Math.sin phi * Math.cos theta)
       (sr * Math.sin phi * Math.sin theta) (sr * Math.cos phi))
  = sr.
Proof.
  intros Hsr. unfold THREE.length, Math.sin, Math.cos. simpl.
  pose proof (sin2_cos2 phi) as Hp. pose proof (sin2_cos2 theta) as Ht.
  unfold Rsqr in Hp, Ht.
  replace (sr * sin phi * cos theta * (sr * sin phi * cos theta)
           + sr * sin phi * sin theta * (sr * sin phi * sin theta)
           + sr * cos phi * (sr * cos phi))
    with (sr * sr).
  - apply sqrt_square. exact Hsr.
  - transitivity (sr * sr * (sin phi * sin phi * (sin theta * sin theta + cos theta * cos theta)
                             + cos phi * cos phi)).
    + rewrite Ht. rewrite Rmult_1_r. rewrite Hp. ring.
    + ring.
Qed.

Lemma circle_point_radius (a r0 y0 : R) :
  0 <= r0 ->
  horizontal_radius (THREE.mkVector3 (Math.cos a * r0) y0 (Math.sin a * r0)) = r0.
Proof.
  intros Hr. unfold horizontal_radius, Math.sin, Math.cos. simpl.
  pose proof (sin2_cos2 a) as Ha. unfold Rsqr in Ha.
  replace (cos a * r0 * (cos a * r0) + sin a * r0 * (sin a * r0)) with (r0 * r0).
  - apply sqrt_square. exact Hr.
  - transitivity (r0 * r0 * (sin a * sin a + cos a * cos a)).
    + rewrite Ha. ring.
    + ring.
Qed.

(** ** The generated point sets *)

Lemma shift_unit_draws (g : Math.Rng) :
  Math.unit_draws g -> Math.unit_draws (fun k => g (S k)).
Proof. intros Hg k. apply Hg. Qed.

Section Generated.
Context {K : Constants}.

Lemma foliage_generate_body_step (i : nat) (st : Foliage.Geometry * Math.Rng) :
  0 <= SCATTER_RADIUS -> (i < FOLIAGE_COUNT)%nat ->
  foliage_generated i st -> foliage_generated (S i) (Foliage.generate_body i st).
Proof.
  intros HR Hi. destruct st as [geo g]. intros (Hg & Hlp & Hls & Hpts).
  unfold foliage_generated in *. cbn [fst snd] in *.
  unfold Foliage.generate_body. cbv [Math.random].
  cbn [fst snd Foliage.positions Foliage.scatterPositions].
  split; [|split; [|split]].
  - intros k. apply Hg.
  - rewrite !length_insert. exact Hlp.
  - rewrite !length_insert. exact Hls.
  - intros i' Hi'. destruct (decide (i' = i)) as [->|Hne].
    + split.
      * exists ((g 0%nat - 0.5) * 1.5). split.
        { specialize (Hg 0%nat). lra. }
        rewrite point_written by lia.
        unfold conical_spiral_point, Math.cos, Math.sin, Math.PI.
        apply f_equal, vector_ext; [|reflexivity|].
        { apply f_equal2; [apply f_equal; ring | reflexivity]. }
        { apply f_equal2; [apply f_equal; ring | reflexivity]. }
      * eexists. split.
        { rewrite point_written by lia. reflexivity. }
        assert (Hc : 0 <= Math.cbrt (g 3%nat) <= 1) by (apply cbrt_unit, Hg).
        rewrite sphere_point_length by nra. nra.
    + rewrite !point_kept by exact Hne. apply Hpts. lia.
Qed.

Lemma foliage_generate_invariant (g : Math.Rng) :
  0 <= SCATTER_RADIUS -> Math.unit_draws g ->
  foliage_generated FOLIAGE_COUNT (Foliage.generate g).
Proof.
  intros HR Hg. unfold Foliage.generate.
  apply for_loop_invariant.
  - unfold foliage_generated, new_Float32Array.
    cbn [fst snd Foliage.positions Foliage.scatterPositions].
    rewrite !length_replicate. repeat split; try apply Hg; lia.
  - intros i acc Hi Hinv. apply foliage_generate_body_step; assumption.
Qed.

Lemma spiral_generate_body_step (i : nat) (st : Spiral.Geometry * Math.Rng) :
  (i < SPIRAL_PARTICLE_COUNT)%nat ->
  spiral_generated i st -> spiral_generated (S i) (Spiral.generate_body i st).
Proof.
  intros Hi. destruct st as [geo g]. intros (Hlen & Hpts).
  unfold spiral_generated in *. cbn [fst snd] in *.
  unfold Spiral.generate_body. cbv [Math.random].
  cbn [fst snd Spiral.treePositions].
  split.
  - rewrite !length_insert. exact Hlen.
  - intros i' Hi'. destruct (decide (i' = i)) as [->|Hne].
    + rewrite point_written by lia.
      unfold helix_point, helix_radius, Math.cos, Math.sin, Math.PI, Math.max,
        Spiral.turns, Spiral.heightOffset.
      assert (E6 : 6.0 = 6) by lra. rewrite E6, decimal_one.
      apply f_equal, vector_ext.
      * apply f_equal2; [apply f_equal; ring | apply f_equal; unfold Rdiv; ring].
      * ring.
      * apply f_equal2; [apply f_equal; ring | apply f_equal; unfold Rdiv; ring].
    + rewrite !point_kept by exact Hne. apply Hpts. lia.
Qed.

Lemma spiral_generate_invariant (g : Math.Rng) :
  spiral_generated SPIRAL_PARTICLE_COUNT (Spiral.generate g).
Proof.
  unfold Spiral.generate. apply for_loop_invariant.
  - unfold spiral_generated, new_Float32Array.
    cbn [fst snd Spiral.treePositions].
    rewrite !length_replicate. split; [reflexivity | lia].
  - intros i acc Hi Hinv. apply spiral_generate_body_step; assumption.
Qed.

Lemma helix_radius_lower (i : nat) : 0.1 <= helix_radius i.
Proof. unfold helix_radius. apply Rmax_l. Qed.

End Generated.

(** ** The typed arrays as stored *)

Lemma point_stored (a : Float32Array) (i : nat) (vx vy vz : R) :
  (i * 3 + 2 < length a)%nat ->
  point (Float32.store (Float32.store (Float32.store a (i * 3) vx) (i * 3 + 1) vy)
           (i * 3 + 2) vz) i
  = Some (narrowed (THREE.mkVector3 vx vy vz)).
Proof. intros Hlen. unfold Float32.store. rewrite point_written by exact Hlen. reflexivity. Qed.

Lemma point_store_kept (a : Float32Array) (i k : nat) (vx vy vz : R) :
  i <> k ->
  point (Float32.store (Float32.store (Float32.store a (k * 3) vx) (k * 3 + 1) vy)
           (k * 3 + 2) vz) i
  = point a i.
Proof. intros Hik. unfold Float32.store. apply point_kept. exact Hik. Qed.

Lemma length_store (a : Float32Array) (i : nat) (v : R) :
  length (Float32.store a i v) = length a.
Proof. unfold Float32.store. apply length_insert. Qed.

Lemma ball_point_length (radius u_theta u_phi u_r : R) :
  0 <= radius -> 0 <= u_r < 1 ->
  THREE.length (ball_point radius u_theta u_phi u_r) = radius * Math.cbrt u_r
  /\ THREE.length (ball_point radius u_theta u_phi u_r) <= radius.
Proof.
  intros Hr Hu. pose proof (cbrt_unit u_r Hu) as Hc.
  assert (Hlen : THREE.length (ball_point radius u_theta u_phi u_r)
                 = radius * Math.cbrt u_r).
  { unfold ball_point. apply (sphere_point_length (radius * Math.cbrt u_r)). nra. }
  split; [exact Hlen|]. rewrite Hlen. nra.
Qed.

Section StoredArrays.
Context {K : Constants}.

Lemma foliageIEEE_generate_body_step (g : Math.Rng) (i : nat)
    (st : Foliage.Geometry * Math.Rng) :
  (i < FOLIAGE_COUNT)%nat ->
  foliage_stored g i st -> foliage_stored g (S i) (FoliageIEEE.generate_body i st).
Proof.
  intros Hi. destruct st as [geo g0]. intros (Hg & Hlp & Hls & Hlr & Hpts).
  unfold foliage_stored in *. cbn [fst snd] in *.
  unfold FoliageIEEE.generate_body. cbv [Math.random].
  cbn [fst snd Foliage.positions Foliage.scatterPositions Foliage.randoms].
  split; [|split; [|split; [|split]]].
  - intros k. rewrite Hg. f_equal. lia.
  - rewrite !length_store. exact Hlp.
  - rewrite !length_store. exact Hls.
  - rewrite length_store. exact Hlr.
  - intros i' Hi'. destruct (decide (i' = i)) as [->|Hne].
    + assert (E0 : g0 0%nat = g (5 * i)%nat) by (rewrite Hg; f_equal; lia).
      assert (E1 : g0 1%nat = g (5 * i + 1)%nat) by (rewrite Hg; reflexivity).
      assert (E2 : g0 2%nat = g (5 * i + 2)%nat) by (rewrite Hg; reflexivity).
      assert (E3 : g0 3%nat = g (5 * i + 3)%nat) by (rewrite Hg; reflexivity).
      assert (E4 : g0 4%nat = g (5 * i + 4)%nat) by (rewrite Hg; reflexivity).
      rewrite E0, E1, E2, E3, E4. split; [|split].
      * rewrite point_stored by lia.
        unfold conical_spiral_point, Math.cos, Math.sin, Math.PI.
        apply f_equal, f_equal, vector_ext; [|reflexivity|].
        { apply f_equal2; [apply f_equal; ring | reflexivity]. }
        { apply f_equal2; [apply f_equal; ring | reflexivity]. }
      * rewrite point_stored by lia. reflexivity.
      * unfold Float32.store. apply list_lookup_insert_eq. lia.
    + rewrite !point_store_kept by exact Hne. unfold Float32.store at 1.
      rewrite list_lookup_insert_ne by lia. apply Hpts. lia.
Qed.

Lemma foliageIEEE_generate_invariant (g : Math.Rng) :
  foliage_stored g FOLIAGE_COUNT (FoliageIEEE.generate g).
Proof.
  unfold FoliageIEEE.generate. apply (for_loop_invariant (foliage_stored g)).
  - unfold foliage_stored, new_Float32Array.
    cbn [fst snd Foliage.positions Foliage.scatterPositions Foliage.randoms].
    rewrite !length_replicate.
    split; [intros k; f_equal; lia|]. repeat split; lia.
  - intros i acc Hi Hinv. apply foliageIEEE_generate_body_step; assumption.
Qed.



End StoredArrays.









(** ** Memoised geometry *)

Section Memoised.
Context {K : Constants}.

Lemma Foliage_useFrame_geometry treeState state delta c :
  Foliage.geometry (Foliage.useFrame treeState state delta c) = Foliage.geometry c.
Proof.
  unfold Foliage.useFrame. destruct (Foliage.shaderRef c); reflexivity.
Qed.

Lemma Foliage_useFrame_colours treeState state delta c :
  Foliage.uColorBase <$> Foliage.shaderRef (Foliage.useFrame treeState state delta c)
  = Foliage.uColorBase <$> Foliage.shaderRef c
  /\ Foliage.uColorGold <$> Foliage.shaderRef (Foliage.useFrame treeState state delta c)
     = Foliage.uColorGold <$> Foliage.shaderRef c.
Proof.
  unfold Foliage.useFrame. destruct (Foliage.shaderRef c) eqn:Hu; simpl; rewrite ?Hu; auto.
Qed.

Lemma Foliage_step_geometry s c g geo :
  Foliage.geometry c = Some geo ->
  Foliage.geometry (fst (Foliage.step s (c, g))) = Some geo
  /\ snd (Foliage.step s (c, g)) = g.
Proof.
  intros Hgeo. destruct s as [|f]; simpl.
  - unfold Foliage.render. rewrite Hgeo. simpl. auto.
  - rewrite Foliage_useFrame_geometry. auto.
Qed.

Lemma Foliage_life_geometry steps c g geo :
  Foliage.geometry c = Some geo ->
  Foliage.geometry (fst (Foliage.life steps (c, g))) = Some geo
  /\ snd (Foliage.life steps (c, g)) = g.
Proof.
  revert c g. induction steps as [|s steps IH]; intros c g Hgeo; simpl; [auto|].
  unfold Foliage.life in *. simpl.
  destruct (Foliage_step_geometry s c g geo Hgeo) as [H1 H2].
  destruct (Foliage.step s (c, g)) as [c' g'] eqn:Hs. simpl in H1, H2. subst g'.
  apply IH. exact H1.
Qed.

Lemma Spiral_useFrame_geometry treeState state delta c :
  Spiral.geometry (Spiral.useFrame treeState state delta c) = Spiral.geometry c.
Proof.
  unfold Spiral.useFrame. destruct (Spiral.shaderRef c); reflexivity.
Qed.

Lemma Spiral_useFrame_colour treeState state delta c :
  Spiral.uColor <$> Spiral.shaderRef (Spiral.useFrame treeState state delta c)
  = Spiral.uColor <$> Spiral.shaderRef c.
Proof.
  unfold Spiral.useFrame. destruct (Spiral.shaderRef c) eqn:Hu; simpl; rewrite ?Hu; auto.
Qed.

Lemma Spiral_step_geometry s c g geo :
  Spiral.geometry c = Some geo ->
  Spiral.geometry (fst (Spiral.step s (c, g))) = Some geo
  /\ snd (Spiral.step s (c, g)) = g.
Proof.
  intros Hgeo. destruct s as [|f]; simpl.
  - unfold Spiral.render. rewrite Hgeo. simpl. auto.
  - rewrite Spiral_useFrame_geometry. auto.
Qed.

Lemma Spiral_life_geometry steps c g geo :
  Spiral.geometry c = Some geo ->
  Spiral.geometry (fst (Spiral.life steps (c, g))) = Some geo
  /\ snd (Spiral.life steps (c, g)) = g.
Proof.
  revert c g. induction steps as [|s steps IH]; intros c g Hgeo; simpl; [auto|].
  unfold Spiral.life in *. simpl.
  destruct (Spiral_step_geometry s c g geo Hgeo) as [H1 H2].
  destruct (Spiral.step s (c, g)) as [c' g'] eqn:Hs. simpl in H1, H2. subst g'.
  apply IH. exact H1.
Qed.

Lemma Foliage_mount_geometry g :
  Foliage.geometry (fst (Foliage.mount g)) = Some (fst (Foliage.generate g))
  /\ snd (Foliage.mount g) = snd (Foliage.generate g).
Proof.
  unfold Foliage.mount, Foliage.render. simpl.
  destruct (Foliage.generate g) as [geo g']. simpl. auto.
Qed.

Lemma Spiral_mount_geometry g :
  Spiral.geometry (fst (Spiral.mount g)) = Some (fst (Spiral.generate g))
  /\ snd (Spiral.mount g) = snd (Spiral.generate g).
Proof.
  unfold Spiral.mount, Spiral.render. simpl.
  destruct (Spiral.generate g) as [geo g']. simpl. auto.
Qed.

Lemma Ornaments_useFrame_data treeState state delta c :
  Ornaments.boxData (Ornaments.useFrame treeState state delta c) = Ornaments.boxData c
  /\ Ornaments.sphereData (Ornaments.useFrame treeState state delta c)
     = Ornaments.sphereData c.
Proof.
  unfold Ornaments.useFrame.
  destruct (Ornaments.boxMeshRef c) as [bm|];
    [destruct (forEach _ _ _) as [tmp1 m1]|];
    (destruct (Ornaments.sphereMeshRef c) as [sm|];
     [destruct (forEach _ _ _) as [tmp2 m2]|]); split; reflexivity.
Qed.

End Memoised.

(** C6: the point sets of Foliage and Spiral are generated once, by the
    first render, and never written afterward: through any later
    renders and frames the memoised arrays are the ones the first render
    generated and no further random draw is made, and a frame callback
    changes nothing but the uniforms uTime, uPixelRatio and uProgress
    and the progress refs; the frame callback of Ornaments leaves its
    generated data alone as well. *)
Theorem C6_point_sets_generated_once {K : Constants} (g : Math.Rng) (steps : list Step) :
  (Foliage.geometry (fst (Foliage.life steps (Foliage.mount g)))
   = Some (fst (Foliage.generate g))
   /\ snd (Foliage.life steps (Foliage.mount g)) = snd (Foliage.generate g))
  /\ (Spiral.geometry (fst (Spiral.life steps (Spiral.mount g)))
      = Some (fst (Spiral.generate g))
      /\ snd (Spiral.life steps (Spiral.mount g)) = snd (Spiral.generate g))
  /\ (forall treeState state delta (c : Foliage.Instance),
        Foliage.geometry (Foliage.useFrame treeState state delta c) = Foliage.geometry c
        /\ Foliage.uColorBase <$> Foliage.shaderRef (Foliage.useFrame treeState state delta c)
           = Foliage.uColorBase <$> Foliage.shaderRef c
        /\ Foliage.uColorGold <$> Foliage.shaderRef (Foliage.useFrame treeState state delta c)
           = Foliage.uColorGold <$> Foliage.shaderRef c)
  /\ (forall treeState state delta (c : Spiral.Instance),
        Spiral.geometry (Spiral.useFrame treeState state delta c) = Spiral.geometry c
        /\ Spiral.uColor <$> Spiral.shaderRef (Spiral.useFrame treeState state delta c)
           = Spiral.uColor <$> Spiral.shaderRef c)
  /\ (forall treeState state delta (c : Ornaments.Instance),
        Ornaments.boxData (Ornaments.useFrame treeState state delta c) = Ornaments.boxData c
        /\ Ornaments.sphereData (Ornaments.useFrame treeState state delta c)
           = Ornaments.sphereData c).
Proof.
  split; [|split; [|split; [|split]]]; [| | | |intros; apply Ornaments_useFrame_data].
  - destruct (Foliage_mount_geometry g) as [Hgeo Hg].
    destruct (Foliage.mount g) as [c g'] eqn:Hm. simpl in Hgeo, Hg. subst g'.
    apply Foliage_life_geometry. exact Hgeo.
  - destruct (Spiral_mount_geometry g) as [Hgeo Hg].
    destruct (Spiral.mount g) as [c g'] eqn:Hm. simpl in Hgeo, Hg. subst g'.
    apply Spiral_life_geometry. exact Hgeo.
  - intros. split; [apply Foliage_useFrame_geometry | apply Foliage_useFrame_colours].
  - intros. split; [apply Spiral_useFrame_geometry | apply Spiral_useFrame_colour].
Qed.

(** ** The instances of the ornaments *)

Section Slots.
(** An update that writes slot [i] with a matrix whose position is
    [place d], whatever the shared object holds. *)
Variable update :
  Ornaments.OrnamentData -> nat -> THREE.Object3D * THREE.InstancedMesh ->
  THREE.Object3D * THREE.InstancedMesh.
Variable place : Ornaments.OrnamentData -> THREE.Vector3.
Hypothesis update_writes :
  forall d i tmp mesh,
    exists tmp' m,
      update d i (tmp, mesh) = (tmp', THREE.setMatrixAt i m mesh)
      /\ THREE.translation m = place d.

Lemma forEach_from_kept l : forall i0 tmp mesh j,
  (j < i0)%nat ->
  THREE.instanceMatrix (snd (forEach_from i0 l update (tmp, mesh))) !! j
  = THREE.instanceMatrix mesh !! j.
Proof.
  induction l as [|d l IH]; intros i0 tmp mesh j Hj; simpl; [reflexivity|].
  destruct (update_writes d i0 tmp mesh) as (tmp' & m & -> & _).
  rewrite IH by lia. unfold THREE.setMatrixAt. simpl.
  apply list_lookup_insert_ne. lia.
Qed.

Lemma forEach_from_placed l : forall i0 tmp mesh k d,
  l !! k = Some d ->
  (i0 + k < length (THREE.instanceMatrix mesh))%nat ->
  THREE.translation
    <$> (THREE.instanceMatrix (snd (forEach_from i0 l update (tmp, mesh))) !! (i0 + k)%nat)
  = Some (place d).
Proof.
  induction l as [|a l IH]; intros i0 tmp mesh k d Hk Hlen; [discriminate|].
  simpl. destruct (update_writes a i0 tmp mesh) as (tmp' & m & -> & Hm).
  destruct k as [|k].
  - simpl in Hk. injection Hk as ->.
    rewrite forEach_from_kept by lia. unfold THREE.setMatrixAt. simpl.
    rewrite Nat.add_0_r in *. rewrite list_lookup_insert_eq by exact Hlen.
    simpl. rewrite Hm. reflexivity.
  - simpl in Hk. replace (i0 + S k)%nat with (S i0 + k)%nat by lia.
    apply IH; [exact Hk|]. unfold THREE.setMatrixAt. simpl.
    rewrite length_insert. lia.
Qed.

End Slots.

Lemma update_sphere_writes t time d i tmp mesh :
  exists tmp' m,
    Ornaments.update_sphere t time d i (tmp, mesh) = (tmp', THREE.setMatrixAt i m mesh)
    /\ THREE.translation m = blend d (Ornaments.easedT t).
Proof.
  unfold Ornaments.update_sphere. do 2 eexists. split; reflexivity.
Qed.

Lemma update_box_writes t time d i tmp mesh :
  exists tmp' m,
    Ornaments.update_box t time d i (tmp, mesh) = (tmp', THREE.setMatrixAt i m mesh)
    /\ THREE.translation m = lifted (blend d (Ornaments.easedT t)) (box_float t time d).
Proof.
  unfold Ornaments.update_box, box_float.
  destruct (Rlt_dec t 0.9); do 2 eexists; (split; [reflexivity|]); simpl.
  - reflexivity.
  - unfold lifted, blend. simpl. apply vector_ext; [reflexivity | ring | reflexivity].
Qed.

Lemma Ornaments_useFrame_spheres treeState state delta c mesh i d :
  Ornaments.sphereMeshRef c = Some mesh ->
  Ornaments.sphereData c !! i = Some d ->
  (i < length (THREE.instanceMatrix mesh))%nat ->
  Ornaments.instance_position
    (Ornaments.sphereMeshRef (Ornaments.useFrame treeState state delta c)) i
  = Some (blend d (Ornaments.easedT
                     (Ornaments.progressRef (Ornaments.useFrame treeState state delta c)))).
Proof.
  intros Hmesh Hd Hi. rewrite Ornaments_useFrame_progress.
  unfold Ornaments.useFrame. rewrite Hmesh.
  rewrite Ornaments_progress_approach.
  set (t := approach 1.5 treeState delta (Ornaments.progressRef c)).
  destruct (match Ornaments.boxMeshRef c with Some _ => _ | None => _ end) as [tmp boxes].
  pose proof (forEach_from_placed _ _ (update_sphere_writes t (elapsedTime state))
                (Ornaments.sphereData c) 0 tmp mesh i d Hd Hi) as Hp.
  unfold forEach.
  destruct (forEach_from 0 (Ornaments.sphereData c) _ (tmp, mesh)) as [tmp' mesh'].
  simpl in *. exact Hp.
Qed.

Lemma Ornaments_useFrame_boxes treeState state delta c mesh i d :
  Ornaments.boxMeshRef c = Some mesh ->
  Ornaments.boxData c !! i = Some d ->
  (i < length (THREE.instanceMatrix mesh))%nat ->
  Ornaments.instance_position
    (Ornaments.boxMeshRef (Ornaments.useFrame treeState state delta c)) i
  = Some (let t := Ornaments.progressRef (Ornaments.useFrame treeState state delta c) in
          lifted (blend d (Ornaments.easedT t)) (box_float t (elapsedTime state) d)).
Proof.
  intros Hmesh Hd Hi. rewrite Ornaments_useFrame_progress.
  unfold Ornaments.useFrame. rewrite Hmesh.
  rewrite Ornaments_progress_approach.
  set (t := approach 1.5 treeState delta (Ornaments.progressRef c)).
  pose proof (forEach_from_placed _ _ (update_box_writes t (elapsedTime state))
                (Ornaments.boxData c) 0 (Ornaments.tempObject c) mesh i d Hd Hi) as Hp.
  unfold forEach.
  destruct (forEach_from 0 (Ornaments.boxData c) _ (Ornaments.tempObject c, mesh))
    as [tmp' mesh'].
  destruct (Ornaments.sphereMeshRef c) as [sm|];
    [destruct (forEach_from 0 (Ornaments.sphereData c) _ (tmp', sm)) as [tmp2 m2]|];
    simpl in *; exact Hp.
Qed.

(** ** The easing curve *)

Lemma cube_monotone (a b : R) : 0 <= a -> a <= b -> a * a * a <= b * b * b.
Proof.
  intros Ha Hab.
  assert (H1 : a * a <= b * b) by nra.
  assert (H2 : 0 <= a * a) by nra.
  nra.
Qed.

Lemma easedT_low (t : R) : t < 0.5 -> Ornaments.easedT t = 4 * t * t * t.
Proof. intros Ht. unfold Ornaments.easedT. destruct (Rlt_dec t 0.5); [reflexivity | lra]. Qed.

Lemma easedT_high (t : R) :
  0.5 <= t -> Ornaments.easedT t = 1 - (2 - 2 * t) * (2 - 2 * t) * (2 - 2 * t) / 2.
Proof.
  intros Ht. unfold Ornaments.easedT, Math.pow.
  destruct (Rlt_dec t 0.5); [lra | simpl; lra].
Qed.

Lemma easedT_monotone (s t : R) :
  0 <= s -> s <= t -> t <= 1 -> Ornaments.easedT s <= Ornaments.easedT t.
Proof.
  intros Hs Hst Ht.
  destruct (Rlt_dec s 0.5) as [Hs5|Hs5]; destruct (Rlt_dec t 0.5) as [Ht5|Ht5].
  - rewrite !easedT_low by assumption.
    pose proof (cube_monotone s t Hs Hst). lra.
  - rewrite easedT_low by assumption. rewrite easedT_high by lra.
    assert (H1 : s * s * s <= 0.5 * 0.5 * 0.5) by (apply cube_monotone; lra).
    assert (H2 : (2 - 2 * t) * (2 - 2 * t) * (2 - 2 * t) <= 1 * 1 * 1)
      by (apply cube_monotone; lra).
    lra.
  - lra.
  - rewrite !easedT_high by lra.
    assert (H : (2 - 2 * t) * (2 - 2 * t) * (2 - 2 * t)
                <= (2 - 2 * s) * (2 - 2 * s) * (2 - 2 * s))
      by (apply cube_monotone; lra).
    lra.
Qed.

Lemma easedT_zero : Ornaments.easedT 0 = 0.
Proof. rewrite easedT_low by lra. lra. Qed.

Lemma easedT_one : Ornaments.easedT 1 = 1.
Proof. rewrite easedT_high by lra. lra. Qed.

Lemma blend_zero (d : Ornaments.OrnamentData) : blend d 0 = Ornaments.scatterPos d.
Proof.
  unfold blend, THREE.MathUtils.lerp. destruct (Ornaments.scatterPos d) as [sx sy sz].
  simpl. apply vector_ext; ring.
Qed.

Lemma blend_one (d : Ornaments.OrnamentData) : blend d 1 = Ornaments.treePos d.
Proof.
  unfold blend, THREE.MathUtils.lerp. destruct (Ornaments.treePos d) as [tx ty tz].
  simpl. apply vector_ext; ring.
Qed.

(** C2, as the code has it: at every frame the position of each sphere
    instance is the componentwise linear interpolation between its
    scatter position and its tree position at easedT(progress), the
    eased value of the progress and not the progress itself, and the
    position of each box instance is the same blend lifted by the
    floating noise sin(time + id) * (1 - progress) * 0.5 while the
    progress is below 0.9. *)
Theorem C2_instances_blend_at_eased_progress
    (treeState : TreeMorphState) (state : RootState) (delta : R)
    (c : Ornaments.Instance) (boxes spheres : THREE.InstancedMesh)
    (i : nat) (d : Ornaments.OrnamentData) :
  Ornaments.boxMeshRef c = Some boxes ->
  Ornaments.sphereMeshRef c = Some spheres ->
  (Ornaments.sphereData c !! i = Some d ->
   (i < length (THREE.instanceMatrix spheres))%nat ->
   Ornaments.instance_position
     (Ornaments.sphereMeshRef (Ornaments.useFrame treeState state delta c)) i
   = Some (blend d (Ornaments.easedT
                      (Ornaments.progressRef (Ornaments.useFrame treeState state delta c)))))
  /\ (Ornaments.boxData c !! i = Some d ->
      (i < length (THREE.instanceMatrix boxes))%nat ->
      Ornaments.instance_position
        (Ornaments.boxMeshRef (Ornaments.useFrame treeState state delta c)) i
      = Some (let t := Ornaments.progressRef (Ornaments.useFrame treeState state delta c) in
              lifted (blend d (Ornaments.easedT t)) (box_float t (elapsedTime state) d))).
Proof.
  intros Hb Hs. split; intros Hd Hi.
  - eapply Ornaments_useFrame_spheres; eassumption.
  - eapply Ornaments_useFrame_boxes; eassumption.
Qed.

Lemma C2_instances_blend_at_eased_progress_witness :
  Ornaments.instance_position
    (Ornaments.sphereMeshRef
       (Ornaments.useFrame TREE_SHAPE {| elapsedTime := 0; dpr := 1 |} (1 / 6)
          Sample.ornaments)) 0
  = Some (blend Sample.ornament
            (Ornaments.easedT
               (Ornaments.progressRef
                  (Ornaments.useFrame TREE_SHAPE {| elapsedTime := 0; dpr := 1 |} (1 / 6)
                     Sample.ornaments)))).
Proof.
  refine (proj1 (C2_instances_blend_at_eased_progress TREE_SHAPE
                   {| elapsedTime := 0; dpr := 1 |} (1 / 6) Sample.ornaments
                   (Ornaments.new_InstancedMesh 1) (Ornaments.new_InstancedMesh 1)
                   0 Sample.ornament _ _) _ _).
  - reflexivity.
  - reflexivity.
  - reflexivity.
  - simpl. lia.
Defined.

(** The frame at which the claim of C2 fails: from progress 0, toward
    the tree, a sixth of a second. *)
Lemma sample_frame_progress :
  Ornaments.progressRef
    (Ornaments.useFrame TREE_SHAPE {| elapsedTime := 0; dpr := 1 |} (1 / 6) Sample.ornaments)
  = 0.25.
Proof.
  rewrite Ornaments_useFrame_progress. simpl.
  rewrite approach_tree; [split_reals | unfold unit_interval; lra | lra].
Qed.

(** C2 as stated fails: after that frame the progress is 0.25 and the
    sphere of the sample sits at the blend at 0.0625, not at the blend
    at the progress. *)
Lemma C2_counterexample :
  let c' := Ornaments.useFrame TREE_SHAPE {| elapsedTime := 0; dpr := 1 |} (1 / 6)
              Sample.ornaments in
  Ornaments.progressRef c' = 0.25
  /\ Ornaments.instance_position (Ornaments.sphereMeshRef c') 0
     = Some (THREE.mkVector3 0.0625 0.125 0.25)
  /\ blend Sample.ornament (Ornaments.progressRef c') = THREE.mkVector3 0.25 0.5 1
  /\ Ornaments.instance_position (Ornaments.sphereMeshRef c') 0
     <> Some (blend Sample.ornament (Ornaments.progressRef c')).
Proof.
  intros c'.
  assert (Hp : Ornaments.progressRef c' = 0.25) by apply sample_frame_progress.
  assert (Hpos : Ornaments.instance_position (Ornaments.sphereMeshRef c') 0
                 = Some (THREE.mkVector3 0.0625 0.125 0.25)).
  { unfold c'.
    rewrite (Ornaments_useFrame_spheres TREE_SHAPE _ (1 / 6) Sample.ornaments
               (Ornaments.new_InstancedMesh 1) 0 Sample.ornament);
      [|reflexivity|reflexivity|simpl; lia].
    rewrite sample_frame_progress. rewrite easedT_low by lra.
    unfold blend, THREE.MathUtils.lerp. simpl.
    apply f_equal, vector_ext; lra. }
  assert (Hb : blend Sample.ornament (Ornaments.progressRef c') = THREE.mkVector3 0.25 0.5 1).
  { rewrite Hp. unfold blend, THREE.MathUtils.lerp. simpl. apply vector_ext; lra. }
  repeat split; try assumption.
  rewrite Hpos, Hb. intros Heq. injection Heq as Hx _ _. lra.
Qed.

(** C9: easedT maps [0, 1] into [0, 1], does not decrease on [0, 1]
    and fixes the endpoints; so at progress 0 the position an ornament
    is set to is its scatter position and at progress 1 its tree
    position, before the floating noise of the boxes is added. *)
Theorem C9_easing_curve
    (s t time : R) (d : Ornaments.OrnamentData) (i : nat)
    (st : THREE.Object3D * THREE.InstancedMesh) :
  0 <= s -> s <= t -> t <= 1 ->
  (0 <= Ornaments.easedT t <= 1)
  /\ Ornaments.easedT s <= Ornaments.easedT t
  /\ Ornaments.easedT 0 = 0
  /\ Ornaments.easedT 1 = 1
  /\ THREE.position (fst (Ornaments.update_sphere 0 time d i st)) = Ornaments.scatterPos d
  /\ THREE.position (fst (Ornaments.update_sphere 1 time d i st)) = Ornaments.treePos d
  /\ THREE.position (fst (Ornaments.update_box 0 time d i st))
     = lifted (Ornaments.scatterPos d) (box_float 0 time d)
  /\ THREE.position (fst (Ornaments.update_box 1 time d i st)) = Ornaments.treePos d.
Proof.
  intros Hs Hst Ht.
  split; [|split; [|split; [|split]]].
  - pose proof (easedT_monotone 0 t) as H0. pose proof (easedT_monotone t 1) as H1.
    rewrite easedT_zero in H0. rewrite easedT_one in H1. split; [apply H0 | apply H1]; lra.
  - apply easedT_monotone; assumption.
  - apply easedT_zero.
  - apply easedT_one.
  - destruct st as [tmp mesh].
    unfold Ornaments.update_sphere. cbn [fst THREE.updateMatrix THREE.position].
    fold (blend d (Ornaments.easedT 0)). fold (blend d (Ornaments.easedT 1)).
    rewrite easedT_zero, easedT_one, blend_zero, blend_one.
    repeat split.
    + unfold Ornaments.update_box.
      destruct (Rlt_dec 0 0.9) as [_|Hn]; [|lra].
      cbn [fst THREE.updateMatrix THREE.position].
      fold (blend d (Ornaments.easedT 0)).
      rewrite easedT_zero, blend_zero. unfold lifted, box_float.
      destruct (Rlt_dec 0 0.9) as [_|Hn]; [|lra].
      apply vector_ext; [reflexivity | | reflexivity].
      unfold Math.sin. ring.
    + unfold Ornaments.update_box.
      destruct (Rlt_dec 1 0.9) as [Hn|_]; [lra|].
      cbn [fst THREE.updateMatrix THREE.position].
      fold (blend d (Ornaments.easedT 1)).
      rewrite easedT_one, blend_one. reflexivity.
Qed.

Lemma C9_easing_curve_witness :
  Ornaments.easedT 0.25 <= Ornaments.easedT 0.75.
Proof.
  refine (proj1 (proj2 (C9_easing_curve 0.25 0.75 0 Sample.ornament 0
                          (Ornaments.new_Object3D, Ornaments.new_InstancedMesh 1) _ _ _))).
  - lra.
  - lra.
  - lra.
Defined.

(** ** The overlay *)

(** C7: the overlay renders exactly one button; a click on it, or on
    anything inside it, calls onToggle once and a click anywhere else
    calls nothing; its label is RELEASE MEMORY for the tree shape and
    RESTORE ORDER otherwise. *)
Theorem C7_overlay_button {H : Type} (treeState : TreeMorphState) (onToggle : H) :
  exists button : JSX.Node H,
    JSX.by_tag "button" (Overlay.Overlay treeState onToggle) = [button]
    /\ JSX.click button [] = Some [onToggle]
    /\ JSX.click (Overlay.Overlay treeState onToggle) [1%nat; 0%nat] = Some [onToggle]
    /\ JSX.textContent button
       = match treeState with
         | TREE_SHAPE => "RELEASE MEMORY"
         | SCATTERED => "RESTORE ORDER"
         end
    /\ forall path : list nat,
         match JSX.click (Overlay.Overlay treeState onToggle) path with
         | Some hs => hs = if into_button path then [onToggle] else []
         | None => True
         end.
Proof.
  eexists. split; [reflexivity|].
  split; [reflexivity|]. split; [reflexivity|].
  split; [destruct treeState; reflexivity|].
  intros path.
  repeat (let k := fresh "k" in
          destruct path as [|k path]; [reflexivity|];
          repeat (destruct k as [|k]; try exact I)).
Qed.

(** ** The error boundary *)

Lemma render_boundary_contains state inner :
  Experience.render_boundary state inner <> Threw.
Proof.
  unfold Experience.render_boundary, Experience.ImageErrorBoundary.render.
  destruct state as [[|]]; simpl; [discriminate|].
  destruct inner; discriminate.
Qed.

Lemma render_boundary_on_error :
  Experience.render_boundary Experience.ImageErrorBoundary.constructor Threw
  = Rendered [Experience.Boundary {| Experience.hasError := true |} []].
Proof. reflexivity. Qed.

(** C5: when rendering Memories throws, the ImageErrorBoundary takes
    the state hasError and renders null; no error leaves the boundary,
    whatever its children do, and the rest of the scene, Foliage,
    Ornaments, Spiral and Star among it, is mounted. *)
Theorem C5_image_errors_suppressed
    (behaviour : string -> Experience.Behaviour) (treeState : TreeMorphState) :
  behaviour "Memories" = Experience.Throws ->
  (forall name : string, name <> "Memories" -> behaviour name = Experience.Renders) ->
  Experience.ImageErrorBoundary.getDerivedStateFromError = {| Experience.hasError := true |}
  /\ Experience.ImageErrorBoundary.render {| Experience.hasError := true |}
       [Experience.Component "Memories" []] = None
  /\ Experience.render behaviour
       (Experience.ErrorBoundary Experience.ImageErrorBoundary.constructor
          [Experience.Component "Memories" []])
     = Rendered [Experience.Boundary {| Experience.hasError := true |} []]
  /\ (forall state children,
        Experience.render behaviour (Experience.ErrorBoundary state children) <> Threw)
  /\ exists view,
       Experience.render behaviour (Experience.Experience treeState) = Rendered [view]
       /\ Experience.mounted view = scene_without_memories
       /\ Experience.boundaries view = [{| Experience.hasError := true |}].
Proof.
  intros Hmem Hothers.
  split; [reflexivity|]. split; [reflexivity|].
  split; [simpl; rewrite Hmem; reflexivity|].
  split; [intros state children; simpl; apply render_boundary_contains|].
  eexists. split; [|split].
  - unfold Experience.Experience.
    repeat (cbn; first [ rewrite Hmem | rewrite Hothers by discriminate ]).
    cbn. reflexivity.
  - reflexivity.
  - reflexivity.
Qed.

Lemma C5_image_errors_suppressed_witness :
  exists view,
    Experience.render
      (fun name => if String.eqb name "Memories" then Experience.Throws else Experience.Renders)
      (Experience.Experience TREE_SHAPE) = Rendered [view]
    /\ Experience.mounted view = scene_without_memories
    /\ Experience.boundaries view = [{| Experience.hasError := true |}].
Proof.
  refine (proj2 (proj2 (proj2 (proj2
            (C5_image_errors_suppressed
               (fun name => if String.eqb name "Memories"
                            then Experience.Throws else Experience.Renders)
               TREE_SHAPE _ _))))).
  - reflexivity.
  - intros name Hname. destruct (String.eqb_spec name "Memories") as [E|_].
    + contradiction.
    + reflexivity.
Defined.

(** ** The star *)

Lemma sin_magnitude (a : R) : -1 <= Math.sin a <= 1.
Proof. unfold Math.sin. apply SIN_bound. Qed.

Lemma Star_useFrame_attached {K : Constants} treeState state delta c :
  star_attached c -> star_attached (Star.useFrame treeState state delta c).
Proof.
  intros ([g Hg] & [r Hr] & [k Hk] & [s Hs]).
  unfold Star.useFrame. rewrite Hg, Hr, Hk, Hs. unfold star_attached. simpl.
  repeat split; eexists; reflexivity.
Qed.

Lemma Star_useFrame_height {K : Constants} treeState state delta c :
  star_attached c ->
  star_height (Star.useFrame treeState state delta c) - star_target treeState
  = (1 - 2 * delta) * (star_height c - star_target treeState)
    + Math.sin (elapsedTime state * 1.5) * 0.005.
Proof.
  intros ([g Hg] & [r Hr] & [k Hk] & [s Hs]).
  unfold Star.useFrame, star_height. rewrite Hg, Hr, Hk, Hs. simpl.
  unfold THREE.MathUtils.lerp. destruct treeState; simpl; ring.
Qed.

Lemma Star_useFrame_excess {K : Constants} treeState state delta c d :
  star_attached c -> 0 < d -> d <= delta <= 0.5 ->
  excess (0.0025 / d) (star_target treeState)
    (star_height (Star.useFrame treeState state delta c))
  <= (1 - 2 * d) * excess (0.0025 / d) (star_target treeState) (star_height c).
Proof.
  intros Hc Hd Hdelta. unfold excess.
  rewrite <- (Rplus_0_r (star_height (Star.useFrame _ _ _ _) - _)).
  rewrite Rplus_0_r.
  rewrite (Star_useFrame_height _ _ _ _ Hc).
  set (e := star_height c - star_target treeState).
  set (band := 0.0025 / d).
  assert (Hband : 2 * d * band = 0.005).
  { assert (Hinv : d * / d = 1) by (apply Rinv_r; lra).
    unfold band, Rdiv. nra. }
  pose proof (sin_magnitude (elapsedTime state * 1.5)) as Hsin.
  set (w := Math.sin (elapsedTime state * 1.5)) in *.
  assert (Hm : 0 <= Rmax (Rabs e - band) 0) by apply Rmax_r.
  assert (Hl : Rabs e - band <= Rmax (Rabs e - band) 0) by apply Rmax_l.
  assert (He : 0 <= Rabs e) by apply Rabs_pos.
  assert (Hstep : Rabs ((1 - 2 * delta) * e + w * 0.005) <= (1 - 2 * delta) * Rabs e + 0.005).
  { eapply Rle_trans; [apply Rabs_triang|].
    rewrite Rabs_mult. rewrite (Rabs_pos_eq (1 - 2 * delta)) by lra.
    assert (Rabs (w * 0.005) <= 0.005).
    { apply Rabs_le. split; nra. }
    lra. }
  apply Rmax_lub; nra.
Qed.

Lemma Star_frames_excess {K : Constants} treeState fs : forall c d,
  star_attached c -> constant_toggle treeState fs -> 0 < d ->
  Forall (fun f => d <= delta f <= 0.5) fs ->
  excess (0.0025 / d) (star_target treeState) (star_height (Star.frames fs c))
  <= (1 - 2 * d) ^ length fs * excess (0.0025 / d) (star_target treeState) (star_height c).
Proof.
  induction fs as [|f fs IH]; intros c d Hc Ht Hd Hfs.
  - simpl. lra.
  - pose proof (Forall_inv Ht) as Hf. pose proof (Forall_inv_tail Ht) as Ht'.
    pose proof (Forall_inv Hfs) as Hdf. pose proof (Forall_inv_tail Hfs) as Hfs'.
    simpl in Hf, Hdf.
    unfold Star.frames in *. cbn [fold_left length]. rewrite Hf.
    eapply Rle_trans.
    + apply IH; [apply Star_useFrame_attached; exact Hc | exact Ht' | exact Hd | exact Hfs'].
    + pose proof (Star_useFrame_excess treeState (root f) (delta f) c d Hc Hd Hdf) as Hstep.
      assert (Hp : 0 <= (1 - 2 * d) ^ length fs) by (apply pow_le; lra).
      simpl. nra.
Qed.

(** X1: the star settles near its target: under a constant toggle and
    frames whose time steps lie between d > 0 and 0.5, the distance of
    the star's height from the target is at most the band 0.0025 / d
    plus what is left of the initial excess over that band, which
    shrinks by the factor 1 - 2 d at every frame. *)
Theorem X1_star_settles_near_target {K : Constants}
    (treeState : TreeMorphState) (fs : list Frame) (c : Star.Instance) (d : R) :
  star_attached c -> constant_toggle treeState fs -> 0 < d ->
  Forall (fun f => d <= delta f <= 0.5) fs ->
  Rabs (star_height (Star.frames fs c) - star_target treeState)
  <= 0.0025 / d
     + (1 - 2 * d) ^ length fs * excess (0.0025 / d) (star_target treeState) (star_height c).
Proof.
  intros Hc Ht Hd Hfs.
  pose proof (Star_frames_excess treeState fs c d Hc Ht Hd Hfs) as H.
  unfold excess in H at 1.
  pose proof (Rmax_l (Rabs (star_height (Star.frames fs c) - star_target treeState)
                      - 0.0025 / d) 0).
  lra.
Qed.

Lemma X1_star_settles_near_target_witness :
  Rabs (star_height (Star.frames (K := Sample.constants) Sample.growing (Star.attached (K := Sample.constants)))
        - star_target (K := Sample.constants) TREE_SHAPE)
  <= 0.0025 / 0.1
     + (1 - 2 * 0.1) ^ 3
       * excess (0.0025 / 0.1) (star_target (K := Sample.constants) TREE_SHAPE)
           (star_height (Star.attached (K := Sample.constants))).
Proof.
  apply (X1_star_settles_near_target (K := Sample.constants) TREE_SHAPE Sample.growing
           (Star.attached (K := Sample.constants)) 0.1).
  - unfold star_attached. simpl. repeat split; eexists; reflexivity.
  - repeat constructor.
  - lra.
  - repeat constructor; simpl; lra.
Defined.

Lemma Star_frames_attached {K : Constants} fs : forall c,
  star_attached c -> star_attached (Star.frames fs c).
Proof.
  induction fs as [|f fs IH]; intros c Hc; [exact Hc|].
  unfold Star.frames in *. simpl. apply IH, Star_useFrame_attached, Hc.
Qed.

Lemma Star_frames_snoc {K : Constants} fs f c :
  Star.frames (fs ++ [f]) c
  = Star.useFrame (toggle f) (root f) (delta f) (Star.frames fs c).
Proof. unfold Star.frames. rewrite fold_left_app. reflexivity. Qed.

Lemma Star_useFrame_turns {K : Constants} treeState state delta c :
  star_attached c ->
  ring_turn (Star.useFrame treeState state delta c) = ring_turn c + 0.5 * delta
  /\ spikes_turn (Star.useFrame treeState state delta c) = spikes_turn c - 0.2 * delta.
Proof.
  intros ([g Hg] & [r Hr] & [k Hk] & [s Hs]).
  unfold Star.useFrame, ring_turn, spikes_turn. rewrite Hg, Hr, Hk, Hs. cbn.
  split; lra.
Qed.

(** X2: the turns of the star add up: over any run of frames the ring has
    turned about the vertical axis by 0.5 times the elapsed time and the
    spikes by 0.2 times the elapsed time the other way. *)
Theorem X2_star_turns_accumulate {K : Constants} (fs : list Frame) (c : Star.Instance) :
  star_attached c ->
  ring_turn (Star.frames fs c) = ring_turn c + 0.5 * elapsed fs
  /\ spikes_turn (Star.frames fs c) = spikes_turn c - 0.2 * elapsed fs.
Proof.
  revert c. induction fs as [|f fs IH]; intros c Hc.
  - simpl. split; lra.
  - destruct (Star_useFrame_turns (toggle f) (root f) (delta f) c Hc) as [Hr Hs].
    destruct (IH _ (Star_useFrame_attached (toggle f) (root f) (delta f) c Hc)) as [IHr IHs].
    change (elapsed (f :: fs)) with (delta f + elapsed fs).
    unfold Star.frames in *. cbn [fold_left].
    rewrite IHr, IHs, Hr, Hs. split; lra.
Qed.

Lemma X2_star_turns_accumulate_witness :
  ring_turn (Star.frames (K := Sample.constants) Sample.flicker (Star.attached (K := Sample.constants)))
  = ring_turn (Star.attached (K := Sample.constants)) + 0.5 * elapsed Sample.flicker
  /\ spikes_turn (Star.frames (K := Sample.constants) Sample.flicker (Star.attached (K := Sample.constants)))
     = spikes_turn (Star.attached (K := Sample.constants)) - 0.2 * elapsed Sample.flicker.
Proof.
  apply (X2_star_turns_accumulate (K := Sample.constants) Sample.flicker).
  unfold star_attached. simpl. repeat split; eexists; reflexivity.
Defined.

Lemma pulse_bounds t i child :
  match Star.material (Star.pulse t i child) with
  | Some mat => 0.5 <= Star.emissiveIntensity mat <= 1.5
  | None => Star.material child = None
  end.
Proof.
  unfold Star.pulse. destruct (Star.material child) as [mat|] eqn:Hm; simpl.
  - pose proof (sin_magnitude (t * 2 + INR i)). lra.
  - rewrite Hm. reflexivity.
Qed.

(** X3: after every frame of an attached star the pulses are within their
    bounds: the core is scaled uniformly by a factor in [0.9, 1.1], the
    ring is tilted by an angle in [-0.5, 0.5], every spike that has a
    material glows with an intensity in [0.5, 1.5], a spike without
    material stays without, and the number of spikes is unchanged. *)
Theorem X3_star_pulse_bounds {K : Constants}
    (fs : list Frame) (f : Frame) (c : Star.Instance) :
  star_attached c ->
  (exists core s, Star.coreRef (Star.frames (fs ++ [f]) c) = Some core
                  /\ THREE.scale core = THREE.mkVector3 s s s /\ 0.9 <= s <= 1.1)
  /\ (exists ring, Star.ringRef (Star.frames (fs ++ [f]) c) = Some ring
                   /\ -0.5 <= THREE.x (THREE.rotation ring) <= 0.5)
  /\ (exists before after,
        Star.spikesRef (Star.frames fs c) = Some before
        /\ Star.spikesRef (Star.frames (fs ++ [f]) c) = Some after
        /\ length (Star.children after) = length (Star.children before)
        /\ forall i child, Star.children after !! i = Some child ->
             match Star.material child with
             | Some mat => 0.5 <= Star.emissiveIntensity mat <= 1.5
             | None => exists old, Star.children before !! i = Some old
                                   /\ Star.material old = None
             end).
Proof.
  intros Hc. rewrite Star_frames_snoc.
  destruct (Star_frames_attached fs c Hc) as ([g Hg] & [r Hr] & [k Hk] & [s Hs]).
  unfold Star.useFrame. rewrite Hg, Hr, Hk, Hs. cbn.
  split; [|split].
  - do 2 eexists. split; [reflexivity|]. split; [reflexivity|].
    pose proof (sin_magnitude (elapsedTime (root f) * 3)). lra.
  - eexists. split; [reflexivity|]. simpl.
    pose proof (sin_magnitude (elapsedTime (root f) * 0.5)). lra.
  - do 2 eexists. split; [reflexivity|]. split; [reflexivity|]. simpl. split.
    + apply length_imap.
    + intros i child Hi. rewrite list_lookup_imap in Hi.
      destruct (Star.children s !! i) as [old|] eqn:Hold; [|discriminate].
      simpl in Hi. injection Hi as <-.
      pose proof (pulse_bounds (elapsedTime (root f)) i old) as Hp.
      destruct (Star.material (Star.pulse (elapsedTime (root f)) i old)); [exact Hp|].
      exists old. split; [reflexivity | exact Hp].
Qed.

Lemma X3_star_pulse_bounds_witness :
  exists core s,
    Star.coreRef (Star.frames (K := Sample.constants) (Sample.growing ++ [Sample.frame SCATTERED 0.4 0.1])
                    (Star.attached (K := Sample.constants))) = Some core
    /\ THREE.scale core = THREE.mkVector3 s s s /\ 0.9 <= s <= 1.1.
Proof.
  refine (proj1 (X3_star_pulse_bounds (K := Sample.constants) Sample.growing
                   (Sample.frame SCATTERED 0.4 0.1) (Star.attached (K := Sample.constants)) _)).
  unfold star_attached. simpl. repeat split; eexists; reflexivity.
Defined.

(** ** The photos *)

Lemma Memories_useFrame_steps treeState state delta c mesh :
  Memories.ref c = Some mesh ->
  exists mesh',
    Memories.ref (Memories.useFrame treeState state delta c) = Some mesh'
    /\ Memories.props (Memories.useFrame treeState state delta c) = Memories.props c
    /\ THREE.x (Memories.position mesh') - THREE.x (photo_target treeState (Memories.props c))
       = (1 - 2 * delta)
         * (THREE.x (Memories.position mesh)
            - THREE.x (photo_target treeState (Memories.props c)))
    /\ THREE.z (Memories.position mesh') - THREE.z (photo_target treeState (Memories.props c))
       = (1 - 2 * delta)
         * (THREE.z (Memories.position mesh)
            - THREE.z (photo_target treeState (Memories.props c)))
    /\ match Memories.material mesh, Memories.material mesh' with
       | Some m, Some m' =>
           Memories.transparent m' = true
           /\ 1 - Memories.opacity m' = (1 - 2 * delta) * (1 - Memories.opacity m)
       | None, None => True
       | _, _ => False
       end.
Proof.
  intros Href. unfold Memories.useFrame. rewrite Href.
  eexists. split; [reflexivity|]. split; [reflexivity|].
  rewrite decimal_two.
  destruct treeState; cbn; (split; [ring|]); (split; [ring|]);
    destruct (Memories.material mesh); cbn; auto;
    (split; [reflexivity|]); unfold THREE.MathUtils.lerp; rewrite decimal_one; ring.
Qed.

(** X4: a photo glides: under a constant toggle the offsets of its x and z
    coordinates from the target are, after any run of frames, the
    initial offsets times the product of 1 - 2 * delta over the
    frames. *)
Theorem X4_photo_glides_to_target
    (treeState : TreeMorphState) (fs : list Frame) (c : Memories.Item) (mesh : Memories.Mesh) :
  Memories.ref c = Some mesh -> constant_toggle treeState fs ->
  exists mesh',
    Memories.ref (Memories.frames fs c) = Some mesh'
    /\ THREE.x (Memories.position mesh') - THREE.x (photo_target treeState (Memories.props c))
       = damping fs * (THREE.x (Memories.position mesh)
                       - THREE.x (photo_target treeState (Memories.props c)))
    /\ THREE.z (Memories.position mesh') - THREE.z (photo_target treeState (Memories.props c))
       = damping fs * (THREE.z (Memories.position mesh)
                       - THREE.z (photo_target treeState (Memories.props c))).
Proof.
  revert c mesh. induction fs as [|f fs IH]; intros c mesh Href Ht.
  - exists mesh. simpl. split; [exact Href|]. split; ring.
  - pose proof (Forall_inv Ht) as Hf. pose proof (Forall_inv_tail Ht) as Ht'. simpl in Hf.
    destruct (Memories_useFrame_steps (toggle f) (root f) (delta f) c mesh Href)
      as (mesh1 & Href1 & Hprops & Hx & Hz & _).
    destruct (IH _ mesh1 Href1 Ht') as (mesh' & Href' & Hx' & Hz').
    exists mesh'. unfold Memories.frames in *. cbn [fold_left].
    split; [exact Href'|].
    rewrite Hprops in Hx', Hz'. rewrite Hf in Hx, Hz.
    change (damping (f :: fs)) with ((1 - 2 * delta f) * damping fs).
    rewrite Hx', Hz', Hx, Hz. split; ring.
Qed.

Lemma X4_photo_glides_to_target_witness :
  exists mesh',
    Memories.ref (Memories.frames Sample.growing Exhibit.photo) = Some mesh'
    /\ THREE.x (Memories.position mesh')
       - THREE.x (photo_target TREE_SHAPE (Memories.props Exhibit.photo))
       = damping Sample.growing
         * (THREE.x (Memories.position Exhibit.photo_mesh)
            - THREE.x (photo_target TREE_SHAPE (Memories.props Exhibit.photo)))
    /\ THREE.z (Memories.position mesh')
       - THREE.z (photo_target TREE_SHAPE (Memories.props Exhibit.photo))
       = damping Sample.growing
         * (THREE.z (Memories.position Exhibit.photo_mesh)
            - THREE.z (photo_target TREE_SHAPE (Memories.props Exhibit.photo))).
Proof.
  apply (X4_photo_glides_to_target TREE_SHAPE Sample.growing Exhibit.photo Exhibit.photo_mesh).
  - reflexivity.
  - repeat constructor.
Defined.

Lemma damping_unit fs :
  Forall (fun f => 0 <= delta f <= 0.5) fs -> 0 <= damping fs <= 1.
Proof.
  induction 1 as [|f fs Hf _ IH]; simpl; [lra|]. nra.
Qed.

(** X5: a photo fades in: over frames whose time steps lie in [0, 0.5] the
    opacity of its material, when it starts at most 1, never decreases
    and never exceeds 1; what is missing to 1 is the initial gap times
    the product of 1 - 2 * delta over the frames. *)
Theorem X5_photo_fades_in
    (fs : list Frame) (c : Memories.Item) (mesh : Memories.Mesh) (m : Memories.Material) :
  Memories.ref c = Some mesh -> Memories.material mesh = Some m ->
  Memories.opacity m <= 1 ->
  Forall (fun f => 0 <= delta f <= 0.5) fs ->
  exists mesh' m',
    Memories.ref (Memories.frames fs c) = Some mesh'
    /\ Memories.material mesh' = Some m'
    /\ 1 - Memories.opacity m' = damping fs * (1 - Memories.opacity m)
    /\ Memories.opacity m <= Memories.opacity m' <= 1.
Proof.
  revert c mesh m. induction fs as [|f fs IH]; intros c mesh m Href Hm Hop Hfs.
  - exists mesh, m. simpl. repeat split; try assumption; lra.
  - pose proof (Forall_inv Hfs) as Hf. pose proof (Forall_inv_tail Hfs) as Hfs'. simpl in Hf.
    destruct (Memories_useFrame_steps (toggle f) (root f) (delta f) c mesh Href)
      as (mesh1 & Href1 & _ & _ & _ & Hmat).
    rewrite Hm in Hmat. destruct (Memories.material mesh1) as [m1|] eqn:Hm1; [|contradiction].
    destruct Hmat as [_ Hgap].
    assert (Hop1 : Memories.opacity m <= Memories.opacity m1 <= 1) by nra.
    destruct (IH _ mesh1 m1 Href1 Hm1 (proj2 Hop1) Hfs') as (mesh' & m' & Href' & Hm' & Hgap' & Hop').
    exists mesh', m'. unfold Memories.frames in *. cbn [fold_left].
    split; [exact Href'|]. split; [exact Hm'|].
    change (damping (f :: fs)) with ((1 - 2 * delta f) * damping fs).
    split; [rewrite Hgap'; nra | lra].
Qed.

Lemma X5_photo_fades_in_witness :
  exists mesh' m',
    Memories.ref (Memories.frames Sample.growing Exhibit.photo) = Some mesh'
    /\ Memories.material mesh' = Some m'
    /\ 1 - Memories.opacity m' = damping Sample.growing * (1 - 0.5)
    /\ 0.5 <= Memories.opacity m' <= 1.
Proof.
  apply (X5_photo_fades_in Sample.growing Exhibit.photo Exhibit.photo_mesh
           {| Memories.transparent := false; Memories.opacity := 0.5 |}).
  - reflexivity.
  - reflexivity.
  - simpl. lra.
  - repeat constructor; simpl; lra.
Defined.

(** X6: the fade is not clamped: a single frame longer than half a second
    takes an opacity below 1 above 1. *)
Theorem X6_photo_opacity_overshoots
    (treeState : TreeMorphState) (state : RootState) (delta : R)
    (c : Memories.Item) (mesh : Memories.Mesh) (m : Memories.Material) :
  Memories.ref c = Some mesh -> Memories.material mesh = Some m ->
  Memories.opacity m < 1 -> 0.5 < delta ->
  exists mesh' m',
    Memories.ref (Memories.useFrame treeState state delta c) = Some mesh'
    /\ Memories.material mesh' = Some m'
    /\ 1 < Memories.opacity m'.
Proof.
  intros Href Hm Hop Hd.
  destruct (Memories_useFrame_steps treeState state delta c mesh Href)
    as (mesh1 & Href1 & _ & _ & _ & Hmat).
  rewrite Hm in Hmat. destruct (Memories.material mesh1) as [m1|] eqn:Hm1; [|contradiction].
  exists mesh1, m1. split; [exact Href1|]. split; [exact Hm1|].
  destruct Hmat as [_ Hgap]. nra.
Qed.

Lemma X6_photo_opacity_overshoots_witness :
  exists mesh' m',
    Memories.ref (Memories.useFrame SCATTERED {| elapsedTime := 1; dpr := 1 |} 1 Exhibit.photo)
    = Some mesh'
    /\ Memories.material mesh' = Some m'
    /\ 1 < Memories.opacity m'.
Proof.
  apply (X6_photo_opacity_overshoots SCATTERED {| elapsedTime := 1; dpr := 1 |} 1
           Exhibit.photo Exhibit.photo_mesh
           {| Memories.transparent := false; Memories.opacity := 0.5 |}).
  - reflexivity.
  - reflexivity.
  - simpl. lra.
  - lra.
Defined.

Lemma Memories_handle_proportioned e c mesh :
  Memories.ref c = Some mesh -> proportioned (Memories.aspect c) mesh ->
  exists mesh',
    Memories.ref (Memories.handle e c) = Some mesh'
    /\ Memories.aspect (Memories.handle e c) = Memories.aspect c
    /\ proportioned (Memories.aspect c) mesh'.
Proof.
  intros Href [Hy Hz]. destruct e as [| |f]; simpl.
  - exists mesh. repeat split; assumption.
  - exists mesh. repeat split; assumption.
  - unfold Memories.useFrame. rewrite Href.
    eexists. split; [reflexivity|]. split; [reflexivity|].
    unfold proportioned. cbn. rewrite Hy, Hz. split; ring.
Qed.

(** X7: a photo keeps its proportions: once the scale of its mesh has the
    ratio of its aspect and depth 1, it has them after any sequence of
    frames, toggles and pointer events, whatever the time steps. *)
Theorem X7_photo_keeps_proportions
    (es : list Memories.Event) (c : Memories.Item) (mesh : Memories.Mesh) :
  Memories.ref c = Some mesh -> proportioned (Memories.aspect c) mesh ->
  exists mesh',
    Memories.ref (Memories.run es c) = Some mesh'
    /\ proportioned (Memories.aspect c) mesh'.
Proof.
  revert c mesh. induction es as [|e es IH]; intros c mesh Href Hp.
  - exists mesh. split; assumption.
  - destruct (Memories_handle_proportioned e c mesh Href Hp) as (mesh1 & Href1 & Ha & Hp1).
    rewrite <- Ha in Hp1.
    destruct (IH _ mesh1 Href1 Hp1) as (mesh' & Href' & Hp').
    exists mesh'. unfold Memories.run in *. cbn [fold_left].
    split; [exact Href'|]. rewrite <- Ha. exact Hp'.
Qed.

Lemma X7_photo_keeps_proportions_witness :
  exists mesh',
    Memories.ref
      (Memories.run [Memories.Tick (Sample.frame SCATTERED 0.1 0.1); Memories.PointerOver;
                     Memories.Tick (Sample.frame TREE_SHAPE 0.2 0.7); Memories.PointerOut]
         Exhibit.photo) = Some mesh'
    /\ proportioned (Memories.aspect Exhibit.photo) mesh'.
Proof.
  apply (X7_photo_keeps_proportions _ Exhibit.photo Exhibit.photo_mesh).
  - reflexivity.
  - unfold proportioned. simpl. split; lra.
Defined.

(** ** The generated photos *)

Lemma pow_unit (u e : R) : 0 <= u < 1 -> 0 < e -> 0 <= MathPow.pow u e < 1.
Proof.
  intros [H0 H1] He. unfold MathPow.pow, Rpower.
  destruct (Rlt_dec 0 u) as [Hpos|_]; [|lra].
  split; [left; apply exp_pos|].
  rewrite <- exp_0. apply exp_increasing.
  assert (Hln : ln u < 0) by (rewrite <- ln_1; apply ln_increasing; lra).
  nra.
Qed.

Lemma cone_radius_at {K : Constants} (t : R) :
  0 < TREE_HEIGHT ->
  cone_radius (- (TREE_HEIGHT / 2) + t * TREE_HEIGHT) = (1 - t) * TREE_RADIUS_BOTTOM.
Proof. intros HH. unfold cone_radius. field. lra. Qed.

Section Photos.
Context {K : Constants} {C : Catalogue}.

(** The rule of the loop that collects the photos: a property of the
    generator that every photo keeps, and what each photo is given. *)
Lemma Memories_items_invariant (G : Math.Rng -> Prop) (Q : nat -> Memories.Props -> Prop) :
  (forall i g, G g -> G (snd (Memories.item i g)) /\ Q i (fst (Memories.item i g))) ->
  forall g, G g ->
    length (fst (Memories.items g)) = MEMORY_COUNT
    /\ G (snd (Memories.items g))
    /\ forall i, (i < MEMORY_COUNT)%nat ->
         exists p, fst (Memories.items g) !! i = Some p /\ Q i p.
Proof.
  intros Hitem g Hg. unfold Memories.items.
  apply (for_loop_invariant
           (fun m st => length (fst st) = m /\ G (snd st)
                        /\ forall i, (i < m)%nat -> exists p, fst st !! i = Some p /\ Q i p)).
  - simpl. repeat split; [exact Hg|]. intros i Hi. lia.
  - intros m [l g0] Hm (Hlen & HG & Hpts). cbn [fst snd] in *.
    destruct (Hitem m g0 HG) as [HG' HQ].
    destruct (Memories.item m g0) as [p g1]. cbn [fst snd] in *.
    split; [rewrite length_app; simpl; lia|]. split; [exact HG'|].
    intros i Hi. destruct (decide (i = m)) as [->|Hne].
    + exists p. split; [|exact HQ].
      rewrite lookup_app_r by lia. rewrite Hlen, Nat.sub_diag. reflexivity.
    + destruct (Hpts i) as (q & Hq & HQq); [lia|].
      exists q. split; [|exact HQq]. rewrite lookup_app_l by lia. exact Hq.
Qed.

Lemma Memories_item_label i g :
  Memories.index (fst (Memories.item i g)) = i
  /\ Memories.url (fst (Memories.item i g))
     = MEMORY_IMAGES !! (i mod length MEMORY_IMAGES)%nat.
Proof. split; reflexivity. Qed.

Lemma Memories_item_draws i g :
  Math.unit_draws g -> Math.unit_draws (snd (Memories.item i g)).
Proof. intros Hg k. apply Hg. Qed.

Lemma Memories_item_placed i g :
  Math.unit_draws g -> 0 < TREE_HEIGHT -> 0 <= TREE_RADIUS_BOTTOM -> -5 <= SCATTER_RADIUS ->
  let p := fst (Memories.item i g) in
  (- (TREE_HEIGHT / 2) <= THREE.y (Memories.treePos p) < TREE_HEIGHT / 2)
  /\ (cone_radius (THREE.y (Memories.treePos p)) + 0.7
      <= horizontal_radius (Memories.treePos p)
      < cone_radius (THREE.y (Memories.treePos p)) + 1.1)
  /\ (SCATTER_RADIUS + 5 <= THREE.length (Memories.scatterPos p) < SCATTER_RADIUS + 15).
Proof.
  intros Hg HH HR HS.
  unfold Memories.item. cbv [Math.random]. cbn [fst Memories.treePos Memories.scatterPos].
  pose proof (pow_unit (g 0%nat) 2.5 (Hg 0%nat)) as Ht.
  set (t := MathPow.pow (g 0%nat) 2.5) in *.
  assert (Ht' : 0 <= t < 1) by (apply Ht; lra).
  pose proof (Hg 1%nat) as H1. pose proof (Hg 5%nat) as H5.
  pose proof (cone_radius_at t HH) as Hcone.
  cbn [THREE.y]. rewrite Hcone.
  unfold cone_radius in Hcone. rewrite Hcone.
  rewrite sphere_point_length by lra.
  rewrite circle_point_radius by nra.
  repeat split; nra.
Qed.

Lemma Memories_items_placed g i :
  Math.unit_draws g -> 0 < TREE_HEIGHT -> 0 <= TREE_RADIUS_BOTTOM -> -5 <= SCATTER_RADIUS ->
  (i < MEMORY_COUNT)%nat ->
  exists p,
    fst (Memories.items g) !! i = Some p
    /\ (- (TREE_HEIGHT / 2) <= THREE.y (Memories.treePos p) < TREE_HEIGHT / 2)
    /\ (cone_radius (THREE.y (Memories.treePos p)) + 0.7
        <= horizontal_radius (Memories.treePos p)
        < cone_radius (THREE.y (Memories.treePos p)) + 1.1)
    /\ (SCATTER_RADIUS + 5 <= THREE.length (Memories.scatterPos p) < SCATTER_RADIUS + 15).
Proof.
  intros Hg HH HR HS Hi.
  destruct (Memories_items_invariant Math.unit_draws
              (fun _ p =>
                 (- (TREE_HEIGHT / 2) <= THREE.y (Memories.treePos p) < TREE_HEIGHT / 2)
                 /\ (cone_radius (THREE.y (Memories.treePos p)) + 0.7
                     <= horizontal_radius (Memories.treePos p)
                     < cone_radius (THREE.y (Memories.treePos p)) + 1.1)
                 /\ (SCATTER_RADIUS + 5 <= THREE.length (Memories.scatterPos p)
                     < SCATTER_RADIUS + 15))
              (fun i g Hg => conj (Memories_item_draws i g Hg)
                               (Memories_item_placed i g Hg HH HR HS))
              g Hg) as (_ & _ & Hpts).
  apply Hpts. exact Hi.
Qed.

End Photos.

(** X8: the photos are numbered and labelled round robin: [Memories]
    generates MEMORY_COUNT photos, photo i carries the index i and the
    address at position i modulo the length of MEMORY_IMAGES, and a
    photo is without address exactly when that list is empty. *)
Theorem X8_photos_cycle_through_images {K : Constants} {C : Catalogue}
    (g : Math.Rng) (i : nat) :
  (i < MEMORY_COUNT)%nat ->
  length (fst (Memories.items g)) = MEMORY_COUNT
  /\ exists p,
       fst (Memories.items g) !! i = Some p
       /\ Memories.index p = i
       /\ Memories.url p = MEMORY_IMAGES !! (i mod length MEMORY_IMAGES)%nat
       /\ (Memories.url p = None <-> MEMORY_IMAGES = []).
Proof.
  intros Hi.
  destruct (Memories_items_invariant (fun _ => True)
              (fun i p => Memories.index p = i
                          /\ Memories.url p = MEMORY_IMAGES !! (i mod length MEMORY_IMAGES)%nat)
              (fun i g _ => conj I (Memories_item_label i g)) g I) as (Hlen & _ & Hpts).
  split; [exact Hlen|].
  destruct (Hpts i Hi) as (p & Hp & Hidx & Hurl).
  exists p. repeat split; try assumption.
  - intros Hnone. rewrite Hurl in Hnone. apply lookup_ge_None in Hnone.
    destruct MEMORY_IMAGES as [|a l]; [reflexivity|].
    pose proof (Nat.mod_upper_bound i (length (a :: l))) as Hb. simpl in *. lia.
  - intros Hempty. rewrite Hurl, Hempty. reflexivity.
Qed.

Lemma X8_photos_cycle_through_images_witness :
  length (fst (Memories.items (K := Sample.constants) (C := Exhibit.catalogue) Sample.halves))
  = 5%nat
  /\ exists p,
       fst (Memories.items (K := Sample.constants) (C := Exhibit.catalogue) Sample.halves) !! 3%nat
       = Some p
       /\ Memories.index p = 3%nat
       /\ Memories.url p = Some "/photos/two.jpg"%string
       /\ (Memories.url p = None <-> ["/photos/one.jpg"; "/photos/two.jpg"]%string = []).
Proof.
  apply (X8_photos_cycle_through_images (K := Sample.constants) (C := Exhibit.catalogue)
           Sample.halves 3).
  simpl. lia.
Defined.



(** ** The generated ornaments *)

Section OrnamentData.
Context {K : Constants} {C : Catalogue}.
Variable getHexString : THREE.Color -> string.

Lemma generateData_invariant type G Q count g :
  round_gives getHexString type G Q -> G g ->
  let out := fst (OrnamentsGen.generateData getHexString count type g) in
  length (fst out) = count
  /\ length (snd out) = (count * 3)%nat
  /\ forall i, (i < count)%nat ->
       exists d col,
         fst out !! i = Some d
         /\ point (snd out) i = Some (THREE.mkVector3 (THREE.r col) (THREE.g col) (THREE.b col))
         /\ Q i d col.
Proof.
  intros Hround Hg. unfold OrnamentsGen.generateData.
  pose (Inv := fun (m : nat) (st : (list Ornaments.OrnamentData * list R) * Math.Rng) =>
          length (fst (fst st)) = m
          /\ length (snd (fst st)) = (count * 3)%nat
          /\ G (snd st)
          /\ forall i, (i < m)%nat ->
               exists d col,
                 fst (fst st) !! i = Some d
                 /\ point (snd (fst st)) i
                    = Some (THREE.mkVector3 (THREE.r col) (THREE.g col) (THREE.b col))
                 /\ Q i d col).
  assert (HInv : Inv count (for_loop count (OrnamentsGen.generate_body getHexString type)
                              (([], new_Float32Array (count * 3)), g))).
  { apply for_loop_invariant.
    - unfold Inv, new_Float32Array. cbn [fst snd]. rewrite length_replicate.
      repeat split; [exact Hg|]. intros i Hi. lia.
    - intros m [[data colours] g0] Hm (Hlen & Hcol & HG & Hpts). cbn [fst snd] in *.
      destruct (Hround m data colours g0 HG) as (d & col & g' & -> & HG' & HQ).
      unfold Inv. cbn [fst snd].
      split; [rewrite length_app; simpl; lia|].
      split; [rewrite !length_insert; exact Hcol|].
      split; [exact HG'|].
      intros i Hi. destruct (decide (i = m)) as [->|Hne].
      + exists d, col. split; [|split; [|exact HQ]].
        * rewrite lookup_app_r by lia. rewrite Hlen, Nat.sub_diag. reflexivity.
        * apply point_written. lia.
      + destruct (Hpts i) as (d0 & col0 & Hd0 & Hp0 & HQ0); [lia|].
        exists d0, col0. split; [|split; [|exact HQ0]].
        * rewrite lookup_app_l by lia. exact Hd0.
        * rewrite point_kept by exact Hne. exact Hp0. }
  destruct HInv as (H1 & H2 & _ & H3). cbn zeta. auto.
Qed.


(** Where a round puts the ornament, for draws in [0, 1). *)
Lemma round_places type :
  0 < TREE_HEIGHT -> 0 <= TREE_RADIUS_BOTTOM -> 0 <= SCATTER_RADIUS ->
  round_gives getHexString type Math.unit_draws
    (fun _ d _ =>
       (- (TREE_HEIGHT / 2) <= THREE.y (Ornaments.treePos d) < TREE_HEIGHT / 2)
       /\ (cone_radius (THREE.y (Ornaments.treePos d))
           <= horizontal_radius (Ornaments.treePos d)
           < cone_radius (THREE.y (Ornaments.treePos d)) + 0.5)
       /\ THREE.length (Ornaments.scatterPos d) <= 0.8 * SCATTER_RADIUS
       /\ (match type with
           | OrnamentsGen.box => 0.1
           | OrnamentsGen.sphere => 0.25
           end <= Ornaments.scale d < 0.55)).
Proof.
  intros HH HR HS i data colours g Hg.
  unfold OrnamentsGen.generate_body. cbv [Math.random].
  do 3 eexists. split; [reflexivity|]. split; [intros k; apply Hg|].
  cbn [Ornaments.treePos Ornaments.scatterPos Ornaments.scale].
  set (bias := match type with OrnamentsGen.box => 7.0 | OrnamentsGen.sphere => 3.5 end).
  assert (Hbias : 0 < bias) by (unfold bias; destruct type; lra).
  pose proof (pow_unit (g 0%nat) bias (Hg 0%nat) Hbias) as Ht.
  set (t := MathPow.pow (g 0%nat) bias) in *.
  pose proof (Hg 1%nat) as H1. pose proof (Hg 10%nat) as H10.
  pose proof (cbrt_unit (g 5%nat) (Hg 5%nat)) as Hc.
  pose proof (cone_radius_at t HH) as Hcone.
  cbn [THREE.y]. rewrite Hcone.
  unfold cone_radius in Hcone. rewrite Hcone.
  rewrite sphere_point_length by nra.
  rewrite circle_point_radius by nra.
  repeat split; try nra; destruct type; lra.
Qed.

End OrnamentData.



(** X11: where the ornaments are put: with draws in [0, 1), a positive tree
    height and radii that are not negative, the tree position of every
    ornament lies at a height in [-TREE_HEIGHT/2, TREE_HEIGHT/2) and
    from 0 to 0.5 outside the cone of the tree at that height, its
    scatter position within 0.8 * SCATTER_RADIUS of the centre, and its
    scale in [0.1, 0.55) for a box and [0.25, 0.55) for a sphere. *)
Theorem X11_ornaments_placed_on_cone {K : Constants} {C : Catalogue}
    (getHexString : THREE.Color -> string)
    (count : nat) (type : OrnamentsGen.Kind) (g : Math.Rng) (i : nat) :
  Math.unit_draws g -> 0 < TREE_HEIGHT -> 0 <= TREE_RADIUS_BOTTOM -> 0 <= SCATTER_RADIUS ->
  (i < count)%nat ->
  exists d,
    fst (fst (OrnamentsGen.generateData getHexString count type g)) !! i = Some d
    /\ (- (TREE_HEIGHT / 2) <= THREE.y (Ornaments.treePos d) < TREE_HEIGHT / 2)
    /\ (cone_radius (THREE.y (Ornaments.treePos d))
        <= horizontal_radius (Ornaments.treePos d)
        < cone_radius (THREE.y (Ornaments.treePos d)) + 0.5)
    /\ THREE.length (Ornaments.scatterPos d) <= 0.8 * SCATTER_RADIUS
    /\ (match type with
        | OrnamentsGen.box => 0.1
        | OrnamentsGen.sphere => 0.25
        end <= Ornaments.scale d < 0.55).
Proof.
  intros Hg HH HR HS Hi.
  destruct (generateData_invariant getHexString type _ _ count g
              (round_places getHexString type HH HR HS) Hg) as (_ & _ & Hpts).
  destruct (Hpts i Hi) as (d & col & Hd & _ & HQ).
  exists d. split; [exact Hd | exact HQ].
Qed.

Lemma X11_ornaments_placed_on_cone_witness :
  exists d,
    fst (fst (OrnamentsGen.generateData (K := Sample.constants) (C := Exhibit.catalogue)
                (fun _ => "ffd700"%string) 2 OrnamentsGen.box Sample.halves)) !! 1%nat = Some d
    /\ (- (12 / 2) <= THREE.y (Ornaments.treePos d) < 12 / 2)
    /\ (cone_radius (K := Sample.constants) (THREE.y (Ornaments.treePos d))
        <= horizontal_radius (Ornaments.treePos d)
        < cone_radius (K := Sample.constants) (THREE.y (Ornaments.treePos d)) + 0.5)
    /\ THREE.length (Ornaments.scatterPos d) <= 0.8 * 15
    /\ (0.1 <= Ornaments.scale d < 0.55).
Proof.
  apply (X11_ornaments_placed_on_cone (K := Sample.constants) (C := Exhibit.catalogue)
           (fun _ => "ffd700"%string) 2 OrnamentsGen.box Sample.halves 1).
  - intros k. unfold Sample.halves. lra.
  - simpl. lra.
  - simpl. lra.
  - simpl. lra.
  - lia.
Defined.

(** X12: the layers of the scene: with draws in [0, 1), a positive tree
    height, radii that are not negative and a scatter radius of modest
    size, every photo sits, measured from the cone of the tree at its
    own height, more than 0.2 farther out than any ornament, and in the
    scattered shape every photo is at least 5 farther from the centre
    than any ornament and at least 4.9 farther than any foliage
    particle as the typed array holds it. *)
Theorem X12_photos_outside_ornaments_and_stored_foliage {K : Constants} {C : Catalogue}
    (getHexString : THREE.Color -> string)
    (gf gm go : Math.Rng) (count : nat) (type : OrnamentsGen.Kind) (i j k : nat) :
  Math.unit_draws gf -> Math.unit_draws gm -> Math.unit_draws go ->
  0 < TREE_HEIGHT -> 0 <= TREE_RADIUS_BOTTOM -> 0 <= SCATTER_RADIUS ->
  modest SCATTER_RADIUS ->
  (i < MEMORY_COUNT)%nat -> (j < count)%nat -> (k < FOLIAGE_COUNT)%nat ->
  exists p d v,
    fst (Memories.items gm) !! i = Some p
    /\ fst (fst (OrnamentsGen.generateData getHexString count type go)) !! j = Some d
    /\ point (Foliage.scatterPositions (fst (FoliageIEEE.generate gf))) k = Some v
    /\ (horizontal_radius (Ornaments.treePos d) - cone_radius (THREE.y (Ornaments.treePos d)))
       + 0.2
       < horizontal_radius (Memories.treePos p) - cone_radius (THREE.y (Memories.treePos p))
    /\ THREE.length (Ornaments.scatterPos d) + 5 <= THREE.length (Memories.scatterPos p)
    /\ THREE.length v + 4.9 <= THREE.length (Memories.scatterPos p).
Proof.
  intros Hgf Hgm Hgo HH HR HS Hmod Hi Hj Hk.
  assert (HS5 : -5 <= SCATTER_RADIUS) by lra.
  destruct (Memories_items_placed gm i Hgm HH HR HS5 Hi) as (p & Hp & _ & Hpr & Hps).
  destruct (generateData_invariant getHexString type _ _ count go
              (round_places getHexString type HH HR HS) Hgo) as (_ & _ & Hornaments).
  destruct (Hornaments j Hj) as (d & col & Hd & _ & _ & Hdr & Hds & _).
  destruct (foliageIEEE_generate_invariant gf) as (_ & _ & _ & _ & Hfoliage).
  destruct (Hfoliage k Hk) as (_ & Hv & _).
  destruct (ball_point_length SCATTER_RADIUS (gf (5 * k + 1)%nat) (gf (5 * k + 2)%nat)
              (gf (5 * k + 3)%nat) HS (Hgf _)) as [_ Hle].
  pose proof (narrowed_length (ball_point SCATTER_RADIUS (gf (5 * k + 1)%nat)
                                 (gf (5 * k + 2)%nat) (gf (5 * k + 3)%nat))) as Hn.
  unfold modest in Hmod. rewrite Rabs_pos_eq in Hmod by exact HS.
  assert (He : 0 < / 2 ^ 24 <= 1 / 16000000).
  { split; [apply Rinv_0_lt_compat, pow_lt; lra|].
    apply Rmult_le_reg_r with (2 ^ 24); [apply pow_lt; lra|].
    rewrite Rinv_l by (apply pow_nonzero; lra). lra. }
  assert (Ht : 3 / 2 ^ 150 <= 1 / 100).
  { assert (H150 : / 2 ^ 150 <= / 2 ^ 10).
    { apply Rinv_le_contravar; [apply pow_lt; lra | apply Rle_pow; [lra | lia]]. }
    assert (H10 : / 2 ^ 10 = / 1024) by (f_equal; lra).
    unfold Rdiv. lra. }
  eexists p, d, _. split; [exact Hp|]. split; [exact Hd|]. split; [exact Hv|].
  split; [lra|]. split; [lra|].
  set (s := THREE.length (ball_point _ _ _ _)) in *.
  assert (Hs0 : 0 <= s) by (unfold s, THREE.length; apply sqrt_pos).
  nra.
Qed.

Lemma X12_photos_outside_ornaments_and_stored_foliage_witness :
  exists p d v,
    fst (Memories.items (K := Sample.constants) (C := Exhibit.catalogue) Sample.halves) !! 0%nat
    = Some p
    /\ fst (fst (OrnamentsGen.generateData (K := Sample.constants) (C := Exhibit.catalogue)
                   (fun _ => "ffd700"%string) 2 OrnamentsGen.box Sample.halves)) !! 1%nat
       = Some d
    /\ point (Foliage.scatterPositions
                (fst (FoliageIEEE.generate (K := Sample.constants) Sample.halves))) 2 = Some v
    /\ (horizontal_radius (Ornaments.treePos d)
        - cone_radius (K := Sample.constants) (THREE.y (Ornaments.treePos d)))
       + 0.2
       < horizontal_radius (Memories.treePos p)
         - cone_radius (K := Sample.constants) (THREE.y (Memories.treePos p))
    /\ THREE.length (Ornaments.scatterPos d) + 5 <= THREE.length (Memories.scatterPos p)
    /\ THREE.length v + 4.9 <= THREE.length (Memories.scatterPos p).
Proof.
  apply (X12_photos_outside_ornaments_and_stored_foliage (K := Sample.constants)
           (C := Exhibit.catalogue) (fun _ => "ffd700"%string)
           Sample.halves Sample.halves Sample.halves 2 OrnamentsGen.box 0 1 2).
  - intros n. unfold Sample.halves. lra.
  - intros n. unfold Sample.halves. lra.
  - intros n. unfold Sample.halves. lra.
  - simpl. lra.
  - simpl. lra.
  - simpl. lra.
  - unfold modest. simpl. rewrite Rabs_pos_eq; lra.
  - simpl. lia.
  - lia.
  - simpl. lia.
Defined.

(** ** The uniforms and the shaders *)

Section InStep.
Context {K : Constants}.

Lemma Foliage_step_in_step s c g :
  match s with Animate f => 0 <= delta f | Rerender => True end ->
  foliage_in_step c -> foliage_in_step (fst (Foliage.step s (c, g))).
Proof.
  intros Hs (Hp & u & Hu & Hsync). destruct s as [|f]; simpl.
  - unfold Foliage.render. destruct (React.useMemo _ _ _) as [geo g']. simpl.
    split; [exact Hp|]. exists u. split; assumption.
  - split.
    + rewrite (Foliage_useFrame_progress _ _ _ _ _ Hu). apply approach_unit; [lra|exact Hp].
    + unfold Foliage.useFrame. rewrite Hu. simpl. eexists. split; reflexivity.
Qed.

Lemma Foliage_life_in_step steps : forall c g,
  steps_forward steps -> foliage_in_step c ->
  foliage_in_step (fst (Foliage.life steps (c, g))).
Proof.
  induction steps as [|s steps IH]; intros c g Hsteps Hc; [exact Hc|].
  pose proof (Forall_inv Hsteps) as Hs. pose proof (Forall_inv_tail Hsteps) as Hsteps'.
  unfold Foliage.life in *. cbn [fold_left].
  pose proof (Foliage_step_in_step s c g Hs Hc) as Hc'.
  destruct (Foliage.step s (c, g)) as [c' g']. apply IH; assumption.
Qed.

Lemma Foliage_mount_in_step g : foliage_in_step (fst (Foliage.mount g)).
Proof.
  unfold Foliage.mount, Foliage.render. simpl.
  destruct (Foliage.generate g) as [geo g']. simpl.
  split; [unfold unit_interval; simpl; lra|].
  eexists. split; reflexivity.
Qed.

Lemma Spiral_step_in_step s c g :
  match s with Animate f => 0 <= delta f | Rerender => True end ->
  spiral_in_step c -> spiral_in_step (fst (Spiral.step s (c, g))).
Proof.
  intros Hs (Hp & u & Hu & Hsync). destruct s as [|f]; simpl.
  - unfold Spiral.render. destruct (React.useMemo _ _ _) as [geo g']. simpl.
    split; [exact Hp|]. exists u. split; assumption.
  - split.
    + rewrite (Spiral_useFrame_progress _ _ _ _ _ Hu). apply approach_unit; [lra|exact Hp].
    + unfold Spiral.useFrame. rewrite Hu. simpl. eexists. split; reflexivity.
Qed.

Lemma Spiral_life_in_step steps : forall c g,
  steps_forward steps -> spiral_in_step c ->
  spiral_in_step (fst (Spiral.life steps (c, g))).
Proof.
  induction steps as [|s steps IH]; intros c g Hsteps Hc; [exact Hc|].
  pose proof (Forall_inv Hsteps) as Hs. pose proof (Forall_inv_tail Hsteps) as Hsteps'.
  unfold Spiral.life in *. cbn [fold_left].
  pose proof (Spiral_step_in_step s c g Hs Hc) as Hc'.
  destruct (Spiral.step s (c, g)) as [c' g']. apply IH; assumption.
Qed.

Lemma Spiral_mount_in_step g : spiral_in_step (fst (Spiral.mount g)).
Proof.
  unfold Spiral.mount, Spiral.render. simpl.
  destruct (Spiral.generate g) as [geo g']. simpl.
  split; [unfold unit_interval; simpl; lra|].
  eexists. split; reflexivity.
Qed.

End InStep.

(** X13: the uniform follows the ref: from the mount on, through any renders
    and frames that do not run time backward, the shader materials of
    Foliage and Spiral are attached, their uProgress uniform equals the
    progress ref of the component, and it lies in [0, 1]. *)
Theorem X13_uniform_follows_progress {K : Constants} (g : Math.Rng) (steps : list Step) :
  steps_forward steps ->
  (exists u,
     Foliage.shaderRef (fst (Foliage.life steps (Foliage.mount g))) = Some u
     /\ Foliage.uProgress u
        = Foliage.currentProgress (fst (Foliage.life steps (Foliage.mount g)))
     /\ 0 <= Foliage.uProgress u <= 1)
  /\ (exists u,
        Spiral.shaderRef (fst (Spiral.life steps (Spiral.mount g))) = Some u
        /\ Spiral.uProgress u
           = Spiral.currentProgress (fst (Spiral.life steps (Spiral.mount g)))
        /\ 0 <= Spiral.uProgress u <= 1).
Proof.
  intros Hsteps. split.
  - pose proof (Foliage_mount_in_step g) as Hm.
    destruct (Foliage.mount g) as [c g'].
    destruct (Foliage_life_in_step steps c g' Hsteps Hm) as (Hp & u & Hu & Hsync).
    exists u. rewrite Hsync. repeat split; try assumption; apply Hp.
  - pose proof (Spiral_mount_in_step g) as Hm.
    destruct (Spiral.mount g) as [c g'].
    destruct (Spiral_life_in_step steps c g' Hsteps Hm) as (Hp & u & Hu & Hsync).
    exists u. rewrite Hsync. repeat split; try assumption; apply Hp.
Qed.

Lemma X13_uniform_follows_progress_witness :
  exists u,
    Spiral.shaderRef
      (fst (Spiral.life (K := Sample.constants) [Animate (Sample.frame TREE_SHAPE 0.1 0.1); Rerender;
                         Animate (Sample.frame SCATTERED 0.2 0.1)]
              (Spiral.mount (K := Sample.constants) Sample.halves))) = Some u
    /\ Spiral.uProgress u
       = Spiral.currentProgress
           (fst (Spiral.life (K := Sample.constants) [Animate (Sample.frame TREE_SHAPE 0.1 0.1); Rerender;
                              Animate (Sample.frame SCATTERED 0.2 0.1)]
                   (Spiral.mount (K := Sample.constants) Sample.halves)))
    /\ 0 <= Spiral.uProgress u <= 1.
Proof.
  refine (proj2 (X13_uniform_follows_progress (K := Sample.constants) Sample.halves
                   [Animate (Sample.frame TREE_SHAPE 0.1 0.1); Rerender;
                    Animate (Sample.frame SCATTERED 0.2 0.1)] _)).
  repeat constructor; simpl; lra.
Defined.

Lemma glow_base (a b : R) :
  ~ GLSL.length2 a b > 0.5 -> 0 <= 1.0 - GLSL.length2 a b * 2.0 <= 1.
Proof.
  intros Hd. unfold GLSL.length2 in *.
  pose proof (sqrt_pos (a * a + b * b)). lra.
Qed.

Lemma step_binary (edge v : R) : GLSL.step edge v = 0 \/ GLSL.step edge v = 1.
Proof. unfold GLSL.step. destruct (Rlt_dec v edge); auto. Qed.

Lemma normalize_unit (v n : R) : GLSL.normalize v = Some n -> n = 1 \/ n = -1.
Proof.
  unfold GLSL.normalize. destruct (Req_dec_T v 0) as [|Hv]; [discriminate|].
  intros [= <-]. unfold Rabs. destruct (Rcase_abs v) as [Hneg|Hpos].
  - right. field. lra.
  - left. field. lra.
Qed.

(** X14: what the Foliage shaders make of a progress in [0, 1] and a random
    attribute in [0, 1): the point keeps a size in [20, 60), its alpha
    is in [0.6, 1], and it is either plain or sparkling; a fragment is
    kept exactly within distance 0.5 of the centre of the point, its
    alpha lies between 0 and the alpha of the point, and each of its
    colour channels is the base colour or the gold one raised by 0.5,
    plus 0.2 times a glow in [0, 1]. *)
Theorem X14_foliage_pixels
    (uTime uProgress aRandom px py : R) (aScatterPos aTreePos : THREE.Vector3)
    (uColorBase uColorGold : THREE.Color) (v : FoliageShader.Varyings) :
  0 <= uProgress <= 1 -> 0 <= aRandom < 1 ->
  FoliageShader.vertex uTime uProgress aScatterPos aTreePos aRandom = Some v ->
  (20 <= FoliageShader.pointSize v < 60)
  /\ (0.6 <= FoliageShader.vAlpha v <= 1)
  /\ (FoliageShader.vGoldMix v = 0 \/ FoliageShader.vGoldMix v = 1)
  /\ (FoliageShader.fragment uColorBase uColorGold v px py = None
      <-> GLSL.length2 (px - 0.5) (py - 0.5) > 0.5)
  /\ forall col alpha,
       FoliageShader.fragment uColorBase uColorGold v px py = Some (col, alpha) ->
       0 <= alpha <= FoliageShader.vAlpha v
       /\ exists glow, 0 <= glow <= 1
            /\ alpha = FoliageShader.vAlpha v * glow
            /\ (col = THREE.mkColor (THREE.r uColorBase + 0.2 * glow)
                        (THREE.g uColorBase + 0.2 * glow) (THREE.b uColorBase + 0.2 * glow)
                \/ col = THREE.mkColor (THREE.r uColorGold + 0.5 + 0.2 * glow)
                           (THREE.g uColorGold + 0.5 + 0.2 * glow)
                           (THREE.b uColorGold + 0.5 + 0.2 * glow)).
Proof.
  intros Hp Ha Hv.
  assert (Hvars : FoliageShader.pointSize v = 40.0 * aRandom + 20.0
                  /\ FoliageShader.vAlpha v = 0.6 + 0.4 * uProgress
                  /\ FoliageShader.vGoldMix v
                     = GLSL.step 0.9 (sin (uTime * 5.0 + aRandom * 30.0))).
  { unfold FoliageShader.vertex in Hv.
    destruct (if Rgt_dec uProgress 0.8 then _ else _) as [pos|]; [|discriminate].
    injection Hv as <-. simpl. auto. }
  destruct Hvars as (Hsize & Halpha & Hgold).
  split; [lra|]. split; [lra|].
  split; [rewrite Hgold; apply step_binary|].
  unfold FoliageShader.fragment.
  destruct (Rgt_dec (GLSL.length2 (px - 0.5) (py - 0.5)) 0.5) as [Hfar|Hnear].
  - split; [tauto|]. intros col alpha Hf. discriminate.
  - split; [split; [discriminate | contradiction]|].
    intros col alpha [= <- <-].
    pose proof (glow_base _ _ Hnear) as Hg.
    set (g0 := 1.0 - GLSL.length2 (px - 0.5) (py - 0.5) * 2.0) in *.
    assert (Hglow : 0 <= g0 ^ 2 <= 1) by (simpl; nra).
    split; [nra|].
    exists (g0 ^ 2). split; [exact Hglow|]. split; [reflexivity|].
    destruct (step_binary 0.9 (sin (uTime * 5.0 + aRandom * 30.0))) as [H0|H1];
      rewrite <- Hgold in *.
    + left. rewrite H0. destruct (Rgt_dec 0 0.5); [lra|].
      unfold GLSL.mix. f_equal; lra.
    + right. rewrite H1. destruct (Rgt_dec 1 0.5); [|lra].
      unfold GLSL.mix. f_equal; lra.
Qed.

Lemma X14_foliage_pixels_witness :
  0.6 <= FoliageShader.vAlpha
           {| FoliageShader.currentPos := THREE.mkVector3 0.5 0.5 0.5;
              FoliageShader.pointSize := 40.0 * 0 + 20.0;
              FoliageShader.vAlpha := 0.6 + 0.4 * 0.5;
              FoliageShader.vGoldMix := GLSL.step 0.9 (sin (0 * 5.0 + 0 * 30.0)) |} <= 1.
Proof.
  refine (proj1 (proj2 (X14_foliage_pixels 0 0.5 0 0.5 0.5
                          (THREE.mkVector3 0 0 0) (THREE.mkVector3 1 1 1)
                          (THREE.mkColor 0 1 0.5) (THREE.mkColor 1 0.75 0) _ _ _ _))).
  - lra.
  - lra.
  - unfold FoliageShader.vertex.
    destruct (Rgt_dec 0.5 0.8) as [Hgt|_]; [lra|].
    replace (sin (0 * 2.0 + 0 * 10.0)) with 0
      by (replace (0 * 2.0 + 0 * 10.0) with 0 by lra; symmetry; apply sin_0).
    unfold GLSL.mix3, GLSL.mix. simpl.
    f_equal. f_equal. apply vector_ext; lra.
Defined.

Lemma sin_bound_abs (a c : R) : 0 <= c -> Rabs (sin a * c) <= c.
Proof.
  intros Hc. pose proof (SIN_bound a). apply Rabs_le. nra.
Qed.

(** X15: how far the Foliage vertex shader moves a particle off the blend
    of its two positions, for a progress in [0, 1]: up to a progress of
    0.8 the position is always defined; whenever it is defined, x is
    off by at most 0.1 * (1 - progress) + 0.05, y by at most 0.05 and z
    by at most 0.05. *)
Theorem X15_foliage_vertex_displacement
    (uTime uProgress aRandom : R) (aScatterPos aTreePos : THREE.Vector3) :
  0 <= uProgress <= 1 ->
  (uProgress <= 0.8 ->
   exists v, FoliageShader.vertex uTime uProgress aScatterPos aTreePos aRandom = Some v)
  /\ forall v,
       FoliageShader.vertex uTime uProgress aScatterPos aTreePos aRandom = Some v ->
       Rabs (THREE.x (FoliageShader.currentPos v)
             - THREE.x (GLSL.mix3 aScatterPos aTreePos uProgress))
       <= 0.1 * (1 - uProgress) + 0.05
       /\ Rabs (THREE.y (FoliageShader.currentPos v)
                - THREE.y (GLSL.mix3 aScatterPos aTreePos uProgress)) <= 0.05
       /\ Rabs (THREE.z (FoliageShader.currentPos v)
                - THREE.z (GLSL.mix3 aScatterPos aTreePos uProgress)) <= 0.05.
Proof.
  intros Hp. unfold FoliageShader.vertex.
  cbn [GLSL.mix3 THREE.x THREE.y THREE.z].
  generalize (GLSL.mix (THREE.x aScatterPos) (THREE.x aTreePos) uProgress).
  generalize (GLSL.mix (THREE.y aScatterPos) (THREE.y aTreePos) uProgress).
  generalize (GLSL.mix (THREE.z aScatterPos) (THREE.z aTreePos) uProgress).
  intros mz my mx.
  pose proof (SIN_bound (uTime * 2.0 + aRandom * 10.0)) as Hn.
  set (w := sin (uTime * 2.0 + aRandom * 10.0)) in *.
  destruct (Rgt_dec uProgress 0.8) as [Hhigh|Hlow].
  - split; [intros; lra|].
    intros v Hv.
    destruct (GLSL.normalize (mx + w * 0.1 * (1.0 - uProgress))) as [nx|] eqn:Hnx;
      [|discriminate].
    destruct (GLSL.normalize mz) as [nz|] eqn:Hnz; [|discriminate].
    injection Hv as <-. cbn [FoliageShader.currentPos THREE.x THREE.y THREE.z].
    pose proof (SIN_bound (uTime * 1.5 + (my + w * 0.1 * 0.5))) as Hb.
    set (b := sin (uTime * 1.5 + (my + w * 0.1 * 0.5))) in *.
    apply normalize_unit in Hnx. apply normalize_unit in Hnz.
    repeat split; apply Rabs_le; destruct Hnx as [-> | ->]; destruct Hnz as [-> | ->]; nra.
  - split.
    + intros _. eexists. reflexivity.
    + intros v [= <-]. cbn [FoliageShader.currentPos THREE.x THREE.y THREE.z].
      repeat split; apply Rabs_le; nra.
Qed.

Lemma X15_foliage_vertex_displacement_witness :
  exists v,
    FoliageShader.vertex 0 0.5 (THREE.mkVector3 0 0 0) (THREE.mkVector3 1 1 1) 0 = Some v.
Proof.
  refine (proj1 (X15_foliage_vertex_displacement 0 0.5 0
                   (THREE.mkVector3 0 0 0) (THREE.mkVector3 1 1 1) _) _).
  - lra.
  - lra.
Defined.

(** X16: the first foliage particle has no defined position on the full
    tree: its tree position has z = 0, so at progress 1 the blend has
    z = 0 and the vertex shader normalizes 0, where the result of
    [normalize] is undefined. *)
Theorem X16_first_foliage_particle_undefined {K : Constants}
    (g : Math.Rng) (uTime aRandom : R) (aScatterPos : THREE.Vector3) :
  Math.unit_draws g -> 0 <= SCATTER_RADIUS -> (0 < FOLIAGE_COUNT)%nat ->
  exists aTreePos,
    point (Foliage.positions (fst (Foliage.generate g))) 0 = Some aTreePos
    /\ THREE.z aTreePos = 0
    /\ FoliageShader.vertex uTime 1 aScatterPos aTreePos aRandom = None.
Proof.
  intros Hg HR Hn.
  destruct (foliage_generate_invariant g HR Hg) as (_ & _ & _ & Hpts).
  destruct (Hpts 0%nat Hn) as ((j & _ & Hpoint) & _).
  exists (conical_spiral_point 0 j). split; [exact Hpoint|].
  assert (Hz : THREE.z (conical_spiral_point 0 j) = 0).
  { unfold conical_spiral_point. cbn [THREE.z].
    replace (INR 0 / INR FOLIAGE_COUNT * 2 * PI * 30) with 0
      by (simpl; unfold Rdiv; ring).
    rewrite sin_0. ring. }
  split; [exact Hz|].
  unfold FoliageShader.vertex.
  destruct (Rgt_dec 1 0.8) as [_|Hn']; [|lra].
  cbn [GLSL.mix3 THREE.x THREE.y THREE.z]. rewrite Hz.
  assert (Hmix : GLSL.mix (THREE.z aScatterPos) 0 1 = 0) by (unfold GLSL.mix; ring).
  rewrite Hmix.
  assert (Hnone : GLSL.normalize 0 = None).
  { unfold GLSL.normalize. destruct (Req_dec_T 0 0) as [_|Hne]; [reflexivity | contradiction]. }
  rewrite Hnone.
  match goal with
  | |- context [GLSL.normalize ?e] => destruct (GLSL.normalize e); reflexivity
  end.
Qed.

Lemma X16_first_foliage_particle_undefined_witness :
  exists aTreePos,
    point (Foliage.positions (fst (Foliage.generate (K := Sample.constants) Sample.halves))) 0
    = Some aTreePos
    /\ THREE.z aTreePos = 0
    /\ FoliageShader.vertex 2 1 (THREE.mkVector3 3 4 5) aTreePos 0.5 = None.
Proof.
  apply (X16_first_foliage_particle_undefined (K := Sample.constants) Sample.halves 2 0.5
           (THREE.mkVector3 3 4 5)).
  - intros k. unfold Sample.halves. lra.
  - simpl. lra.
  - simpl. lia.
Defined.

Lemma smoothstep_unit (e0 e1 v : R) : 0 <= GLSL.smoothstep e0 e1 v <= 1.
Proof.
  unfold GLSL.smoothstep, GLSL.clamp.
  set (t := Rmin (Rmax ((v - e0) / (e1 - e0)) 0) 1).
  assert (Ht : 0 <= t <= 1).
  { unfold t. split.
    - apply Rmin_glb; [apply Rmax_r | lra].
    - apply Rmin_r. }
  clearbody t.
  assert (Hlow : 0 <= t * t * (3 - 2 * t)) by (apply Rmult_le_pos; nra).
  assert (Hhigh : 0 <= (1 - t) * (1 - t) * (1 + 2 * t)) by (apply Rmult_le_pos; nra).
  split; [exact Hlow | nra].
Qed.

Lemma brightened (c h b : R) :
  0 <= c <= h -> 0 <= b <= 1 ->
  c <= GLSL.mix c h (b * 0.8) * (1.0 + b * 3.0) <= 4 * h.
Proof.
  intros Hc Hb. unfold GLSL.mix.
  set (m := c * (1 - b * 0.8) + h * (b * 0.8)).
  assert (Hm : c <= m <= h) by (unfold m; nra).
  nra.
Qed.

(** X17: what the Spiral shaders make of a progress in [0, 1] and a colour
    with channels between 0 and those of the hot colour (1, 1, 0.9):
    the point has a size in [40, 80] and an alpha in [0.3, 1]; a
    fragment is kept exactly within distance 0.5 of the centre of the
    point, its alpha lies between 0 and the alpha of the point, and the
    flow only brightens: each channel is at least that of the colour
    and at most 4 times that of the hot colour. *)
Theorem X17_spiral_pixels
    (uTime uProgress aLineProgress px py : R) (aScatterPos aTreePos : THREE.Vector3)
    (uColor : THREE.Color) :
  0 <= uProgress <= 1 ->
  0 <= THREE.r uColor <= 1 -> 0 <= THREE.g uColor <= 1 -> 0 <= THREE.b uColor <= 0.9 ->
  let v := SpiralShader.vertex uTime uProgress aScatterPos aTreePos aLineProgress in
  (40 <= SpiralShader.pointSize v <= 80)
  /\ (0.3 <= SpiralShader.vAlpha v <= 1)
  /\ (SpiralShader.fragment uTime uColor v px py = None
      <-> GLSL.length2 (px - 0.5) (py - 0.5) > 0.5)
  /\ forall col alpha,
       SpiralShader.fragment uTime uColor v px py = Some (col, alpha) ->
       (0 <= alpha <= SpiralShader.vAlpha v)
       /\ (THREE.r uColor <= THREE.r col <= 4)
       /\ (THREE.g uColor <= THREE.g col <= 4)
       /\ (THREE.b uColor <= THREE.b col <= 3.6).
Proof.
  intros Hp Hr Hg Hb v.
  assert (Hsize : 40 <= SpiralShader.pointSize v <= 80).
  { unfold v, SpiralShader.vertex. cbn [SpiralShader.pointSize].
    pose proof (SIN_bound (uTime * 5.0 + aLineProgress * 20.0)). lra. }
  assert (Halpha : 0.3 <= SpiralShader.vAlpha v <= 1).
  { unfold v, SpiralShader.vertex. cbn [SpiralShader.vAlpha]. lra. }
  split; [exact Hsize|]. split; [exact Halpha|].
  unfold SpiralShader.fragment.
  destruct (Rgt_dec (GLSL.length2 (px - 0.5) (py - 0.5)) 0.5) as [Hfar|Hnear].
  - split; [tauto|]. intros col alpha Hf. discriminate.
  - split; [split; [discriminate | contradiction]|].
    intros col alpha [= <- <-].
    pose proof (glow_base _ _ Hnear) as Hg0.
    set (g0 := 1.0 - GLSL.length2 (px - 0.5) (py - 0.5) * 2.0) in *.
    assert (Hglow : 0 <= g0 ^ 3 <= 1).
    { simpl. assert (0 <= g0 * g0 <= 1) by nra. nra. }
    pose proof (smoothstep_unit 0.4 0.9
                  (sin (SpiralShader.vLineProgress v * 25.0 - uTime * 3.0))) as Hs.
    set (b := GLSL.smoothstep 0.4 0.9 _) in *.
    cbn [THREE.r THREE.g THREE.b].
    split.
    + change (SpiralShader.vAlpha v) with (0.3 + 0.7 * uProgress).
      simpl in Hglow. set (glow := g0 * (g0 * (g0 * 1))) in *. clearbody glow. nra.
    + pose proof (brightened (THREE.r uColor) 1.0 b) as Hcr.
      pose proof (brightened (THREE.g uColor) 1.0 b) as Hcg.
      pose proof (brightened (THREE.b uColor) 0.9 b) as Hcb.
      specialize (Hcr ltac:(lra) Hs). specialize (Hcg ltac:(lra) Hs).
      specialize (Hcb ltac:(lra) Hs).
      repeat split; lra.
Qed.

Lemma X17_spiral_pixels_witness :
  0.3 <= SpiralShader.vAlpha
           (SpiralShader.vertex 0 0.5 (THREE.mkVector3 0 0 0) (THREE.mkVector3 1 1 1) 0.25)
      <= 1.
Proof.
  refine (proj1 (proj2 (X17_spiral_pixels 0 0.5 0.25 0.5 0.5
                          (THREE.mkVector3 0 0 0) (THREE.mkVector3 1 1 1)
                          (THREE.mkColor 1 0.75 0) _ _ _ _))).
  - lra.
  - simpl. lra.
  - simpl. lra.
  - simpl. lra.
Defined.

Lemma off_axis_after_wiggle (vx vz n : R) :
  0.1 <= sqrt (vx * vx + vz * vz) -> -0.05 <= n <= 0.05 ->
  0 < sqrt ((vx + n) * (vx + n) + (vz + n) * (vz + n)).
Proof.
  intros Hr Hn.
  assert (Hpos : 0 <= vx * vx + vz * vz) by nra.
  assert (Hsq : 0.01 <= vx * vx + vz * vz).
  { rewrite <- (sqrt_sqrt _ Hpos). nra. }
  apply sqrt_lt_R0.
  pose proof (Rle_0_sqr (3 * (vx + n) + n)) as H1.
  pose proof (Rle_0_sqr (3 * (vz + n) + n)) as H2.
  unfold Rsqr in H1, H2. nra.
Qed.

(** X18: on the full tree the wiggle of the Spiral shader never puts a
    particle on the axis: at progress 1 every particle of the helix is
    drawn at a positive horizontal distance from the axis, whatever the
    time. *)
Theorem X18_spiral_stays_off_axis {K : Constants}
    (g : Math.Rng) (i : nat) (uTime aLineProgress : R) (aScatterPos : THREE.Vector3) :
  (i < SPIRAL_PARTICLE_COUNT)%nat ->
  exists aTreePos,
    point (Spiral.treePositions (fst (Spiral.generate g))) i = Some aTreePos
    /\ 0 < horizontal_radius
             (SpiralShader.pos
                (SpiralShader.vertex uTime 1 aScatterPos aTreePos aLineProgress)).
Proof.
  intros Hi.
  destruct (spiral_generate_invariant g) as (_ & Hpts).
  exists (helix_point i). split; [apply Hpts; exact Hi|].
  pose proof (helix_radius_lower i) as Hr.
  assert (Hrad : horizontal_radius (helix_point i) = helix_radius i).
  { unfold helix_point. apply (circle_point_radius _ (helix_radius i)). lra. }
  unfold horizontal_radius in *. unfold SpiralShader.vertex.
  cbn [SpiralShader.pos THREE.x THREE.y THREE.z GLSL.mix3].
  assert (Hx : GLSL.mix (THREE.x aScatterPos) (THREE.x (helix_point i)) 1
               = THREE.x (helix_point i)) by (unfold GLSL.mix; ring).
  assert (Hy : GLSL.mix (THREE.y aScatterPos) (THREE.y (helix_point i)) 1
               = THREE.y (helix_point i)) by (unfold GLSL.mix; ring).
  assert (Hz : GLSL.mix (THREE.z aScatterPos) (THREE.z (helix_point i)) 1
               = THREE.z (helix_point i)) by (unfold GLSL.mix; ring).
  rewrite Hx, Hy, Hz.
  apply off_axis_after_wiggle; [rewrite Hrad; exact Hr|].
  pose proof (SIN_bound (uTime * 3.0 + THREE.y (helix_point i) * 2.0)). lra.
Qed.

Lemma X18_spiral_stays_off_axis_witness :
  exists aTreePos,
    point (Spiral.treePositions (fst (Spiral.generate (K := Sample.constants) Sample.halves))) 3
    = Some aTreePos
    /\ 0 < horizontal_radius
             (SpiralShader.pos (SpiralShader.vertex 7 1 (THREE.mkVector3 3 4 5) aTreePos 0.75)).
Proof.
  apply (X18_spiral_stays_off_axis (K := Sample.constants) Sample.halves 3 7 0.75
           (THREE.mkVector3 3 4 5)).
  simpl. lia.
Defined.

(** ** The other attributes of the particles *)





(** X20: the random attribute of the Foliage as the typed array holds
    it: with draws in [0, 1) the array has one entry per particle, the
    single nearest to the fifth draw of the round; the entry lies in
    [0, 1], ends included, and is 1 for every draw above 1 - 2^-25, so
    the vertex shader gives the particle a size factor
    40 * aRandom + 20 in [20, 60], ends included. *)
Theorem X20_foliage_random_attribute_stored {K : Constants} (g : Math.Rng) (i : nat) :
  Math.unit_draws g -> (i < FOLIAGE_COUNT)%nat ->
  length (Foliage.randoms (fst (FoliageIEEE.generate g))) = FOLIAGE_COUNT
  /\ Foliage.randoms (fst (FoliageIEEE.generate g)) !! i
     = Some (Float32.fround (g (5 * i + 4)%nat))
  /\ 0 <= Float32.fround (g (5 * i + 4)%nat) <= 1
  /\ (1 - / 2 ^ 25 < g (5 * i + 4)%nat -> Float32.fround (g (5 * i + 4)%nat) = 1)
  /\ forall uTime uProgress aScatterPos aTreePos v,
       FoliageShader.vertex uTime uProgress aScatterPos aTreePos
         (Float32.fround (g (5 * i + 4)%nat)) = Some v ->
       20 <= FoliageShader.pointSize v <= 60
       /\ (1 - / 2 ^ 25 < g (5 * i + 4)%nat -> FoliageShader.pointSize v = 60).
Proof.
  intros Hg Hi.
  destruct (foliageIEEE_generate_invariant g) as (_ & _ & _ & Hlen & Hpts).
  destruct (Hpts i Hi) as (_ & _ & Hrnd).
  pose proof (Hg (5 * i + 4)%nat) as Hu.
  assert (Hunit : 0 <= Float32.fround (g (5 * i + 4)%nat) <= 1)
    by (apply Float32_fround_unit; lra).
  assert (Hone : 1 - / 2 ^ 25 < g (5 * i + 4)%nat -> Float32.fround (g (5 * i + 4)%nat) = 1).
  { intros Hnear. apply Float32_fround_near_one. lra. }
  split; [exact Hlen|]. split; [exact Hrnd|]. split; [exact Hunit|]. split; [exact Hone|].
  set (aRandom := Float32.fround (g (5 * i + 4)%nat)) in *. clearbody aRandom.
  intros uTime uProgress aScatterPos aTreePos v Hv.
  unfold FoliageShader.vertex in Hv.
  destruct (if Rgt_dec uProgress 0.8 then _ else _) as [pos|]; [|discriminate].
  injection Hv as <-. simpl. split; [lra|].
  intros Hnear. rewrite (Hone Hnear). lra.
Qed.

Lemma X20_foliage_random_attribute_stored_witness :
  length (Foliage.randoms (fst (FoliageIEEE.generate (K := Sample.constants) Corner.nines)))
  = 4%nat
  /\ Foliage.randoms (fst (FoliageIEEE.generate (K := Sample.constants) Corner.nines))
       !! 2%nat
     = Some (Float32.fround (Corner.nines (5 * 2 + 4)%nat))
  /\ 0 <= Float32.fround (Corner.nines (5 * 2 + 4)%nat) <= 1
  /\ (1 - / 2 ^ 25 < Corner.nines (5 * 2 + 4)%nat
      -> Float32.fround (Corner.nines (5 * 2 + 4)%nat) = 1)
  /\ forall uTime uProgress aScatterPos aTreePos v,
       FoliageShader.vertex uTime uProgress aScatterPos aTreePos
         (Float32.fround (Corner.nines (5 * 2 + 4)%nat)) = Some v ->
       20 <= FoliageShader.pointSize v <= 60
       /\ (1 - / 2 ^ 25 < Corner.nines (5 * 2 + 4)%nat -> FoliageShader.pointSize v = 60).
Proof.
  apply (X20_foliage_random_attribute_stored (K := Sample.constants) Corner.nines 2).
  - intros k. unfold Corner.nines. lra.
  - simpl. lia.
Defined.

(** ** The scene around the tree *)

(** X21: the limits of the camera: in both toggle states the polar and the
    distance ranges of the orbit controls are proper intervals that
    contain the distance of the camera's starting position from the
    origin; the limits of the tree shape lie within those of the
    scattered shape, where alone panning is enabled and where the
    floating is stronger. *)
Theorem X21_camera_limits_nest (treeState : TreeMorphState) :
  let c := Controls.orbitControls treeState in
  let free := Controls.orbitControls SCATTERED in
  Controls.minPolarAngle c < Controls.maxPolarAngle c
  /\ Controls.minDistance c <= THREE.length Controls.camera <= Controls.maxDistance c
  /\ (Controls.minPolarAngle free <= Controls.minPolarAngle c
      /\ Controls.maxPolarAngle c <= Controls.maxPolarAngle free)
  /\ (Controls.minDistance free <= Controls.minDistance c
      /\ Controls.maxDistance c <= Controls.maxDistance free)
  /\ Controls.enablePan c = TreeMorphState_eqb treeState SCATTERED
  /\ Controls.rotationIntensity (Controls.float treeState)
     <= Controls.rotationIntensity (Controls.float SCATTERED)
  /\ Controls.floatIntensity (Controls.float treeState)
     <= Controls.floatIntensity (Controls.float SCATTERED).
Proof.
  pose proof PI_RGT_0 as Hpi.
  assert (Hcam : 20 <= THREE.length Controls.camera <= 21).
  { unfold THREE.length, Controls.camera. simpl.
    assert (H404 : 0 * 0 + 2 * 2 + 20 * 20 = 404) by lra. rewrite H404.
    split.
    - apply Rle_trans with (sqrt (20 * 20)); [rewrite sqrt_square; lra|].
      apply sqrt_le_1_alt. lra.
    - apply Rle_trans with (sqrt (21 * 21)); [|rewrite sqrt_square; lra].
      apply sqrt_le_1_alt. lra. }
  assert (Hfrac : Math.PI / 4 < Math.PI / 1.8 /\ Math.PI / 1.8 <= Math.PI).
  { unfold Math.PI. split; lra. }
  destruct treeState; cbn; unfold Math.PI in *; repeat split; try reflexivity; lra.
Qed.

Lemma render_boundary_failed (inner : Outcome (list Experience.View)) :
  Experience.render_boundary {| Experience.hasError := true |} inner
  = Rendered [Experience.Boundary {| Experience.hasError := true |} []].
Proof. reflexivity. Qed.

(** X22: the photos in the scene: when every component renders, the photos
    are mounted between Spiral and Star inside a boundary without
    error; when the photos suspend while the others render, the scene
    is mounted without them and without the boundary, in place of which
    the empty fallback is shown; and a boundary that has caught an
    error never shows its children again, whatever they would do. *)
Theorem X22_photos_in_the_scene
    (behaviour : string -> Experience.Behaviour) (treeState : TreeMorphState) :
  (forall name : string, name <> "Memories" -> behaviour name = Experience.Renders) ->
  (behaviour "Memories" = Experience.Renders ->
   exists view,
     Experience.render behaviour (Experience.Experience treeState) = Rendered [view]
     /\ Experience.mounted view
        = [ "Canvas"; "PerspectiveCamera"; "ambientLight"; "spotLight"; "pointLight";
            "Environment"; "Sparkles"; "Sparkles"; "group"; "Float";
            "Foliage"; "Ornaments"; "Spiral"; "Memories"; "Star";
            "OrbitControls"; "EffectComposer"; "Bloom"; "Vignette" ]%string
     /\ Experience.boundaries view = [{| Experience.hasError := false |}])
  /\ (behaviour "Memories" = Experience.Suspends ->
      exists view,
        Experience.render behaviour (Experience.Experience treeState) = Rendered [view]
        /\ Experience.mounted view = scene_without_memories
        /\ Experience.boundaries view = [])
  /\ (forall children,
        Experience.render behaviour
          (Experience.ErrorBoundary {| Experience.hasError := true |} children)
        = Rendered [Experience.Boundary {| Experience.hasError := true |} []]).
Proof.
  intros Hothers. split; [|split].
  - intros Hmem. eexists. split; [|split].
    + unfold Experience.Experience.
      repeat (cbn; first [ rewrite Hmem | rewrite Hothers by discriminate ]).
      cbn. reflexivity.
    + reflexivity.
    + reflexivity.
  - intros Hmem. eexists. split; [|split].
    + unfold Experience.Experience.
      repeat (cbn; first [ rewrite Hmem | rewrite Hothers by discriminate ]).
      cbn. reflexivity.
    + reflexivity.
    + reflexivity.
  - intros children. simpl. apply render_boundary_failed.
Qed.

Lemma X22_photos_in_the_scene_witness :
  exists view,
    Experience.render
      (fun name => if String.eqb name "Memories" then Experience.Suspends
                   else Experience.Renders)
      (Experience.Experience SCATTERED) = Rendered [view]
    /\ Experience.mounted view = scene_without_memories
    /\ Experience.boundaries view = [].
Proof.
  refine (proj1 (proj2 (X22_photos_in_the_scene
                          (fun name => if String.eqb name "Memories"
                                       then Experience.Suspends else Experience.Renders)
                          SCATTERED _)) _).
  - intros name Hname. destruct (String.eqb_spec name "Memories") as [E|_].
    + contradiction.
    + reflexivity.
  - reflexivity.
Defined.

(** X23: only the photos are protected: when any other component of the
    scene throws while the rest renders, the error leaves the scene. *)
Theorem X23_only_photos_are_protected (culprit : string) (treeState : TreeMorphState) :
  culprit ∈ scene_without_memories ->
  Experience.render
    (fun name => if String.eqb name culprit then Experience.Throws else Experience.Renders)
    (Experience.Experience treeState)
  = Threw.
Proof.
  intros Hin. apply list_elem_of_In in Hin. unfold scene_without_memories in Hin.
  simpl in Hin.
  repeat (destruct Hin as [<- | Hin]; [reflexivity|]).
  contradiction.
Qed.

Lemma X23_only_photos_are_protected_witness :
  Experience.render
    (fun name => if String.eqb name "Foliage" then Experience.Throws else Experience.Renders)
    (Experience.Experience TREE_SHAPE)
  = Threw.
Proof.
  apply (X23_only_photos_are_protected "Foliage" TREE_SHAPE).
  apply list_elem_of_In. simpl. tauto.
Defined.

(** ** The shared object of the ornaments *)

Section SharedObject.
(** An update that keeps a property of the shared object and writes
    slot [i] with a matrix that reflects it. *)
Variable update :
  Ornaments.OrnamentData -> nat -> THREE.Object3D * THREE.InstancedMesh ->
  THREE.Object3D * THREE.InstancedMesh.
Variable Keeps : THREE.Object3D -> Prop.
Variable Gives : Ornaments.OrnamentData -> THREE.Matrix4 -> Prop.
Hypothesis update_shares :
  forall d i tmp mesh, Keeps tmp ->
    exists tmp' m,
      update d i (tmp, mesh) = (tmp', THREE.setMatrixAt i m mesh)
      /\ Keeps tmp' /\ Gives d m.

Lemma forEach_from_untouched l : forall i0 tmp mesh j,
  Keeps tmp -> (j < i0)%nat ->
  THREE.instanceMatrix (snd (forEach_from i0 l update (tmp, mesh))) !! j
  = THREE.instanceMatrix mesh !! j.
Proof.
  induction l as [|d l IH]; intros i0 tmp mesh j Hk Hj; simpl; [reflexivity|].
  destruct (update_shares d i0 tmp mesh Hk) as (tmp' & m & -> & Hk' & _).
  rewrite IH by (assumption || lia). unfold THREE.setMatrixAt. simpl.
  apply list_lookup_insert_ne. lia.
Qed.

Lemma forEach_from_given l : forall i0 tmp mesh k d,
  Keeps tmp -> l !! k = Some d ->
  (i0 + k < length (THREE.instanceMatrix mesh))%nat ->
  exists m,
    THREE.instanceMatrix (snd (forEach_from i0 l update (tmp, mesh))) !! (i0 + k)%nat = Some m
    /\ Gives d m.
Proof.
  induction l as [|a l IH]; intros i0 tmp mesh k d Hkeeps Hk Hlen; [discriminate|].
  simpl. destruct (update_shares a i0 tmp mesh Hkeeps) as (tmp' & m & -> & Hkeeps' & Hm).
  destruct k as [|k].
  - simpl in Hk. injection Hk as ->. exists m. split; [|exact Hm].
    rewrite forEach_from_untouched by (assumption || lia).
    unfold THREE.setMatrixAt. simpl.
    rewrite Nat.add_0_r in *. apply list_lookup_insert_eq. exact Hlen.
  - simpl in Hk. replace (i0 + S k)%nat with (S i0 + k)%nat by lia.
    apply IH; [exact Hkeeps' | exact Hk |]. unfold THREE.setMatrixAt. simpl.
    rewrite length_insert. lia.
Qed.

End SharedObject.

Lemma update_box_shares t time z0 d i tmp mesh :
  t < 0.9 -> THREE.z (THREE.rotation tmp) = z0 ->
  exists tmp' m,
    Ornaments.update_box t time d i (tmp, mesh) = (tmp', THREE.setMatrixAt i m mesh)
    /\ THREE.z (THREE.rotation tmp') = z0
    /\ (THREE.z (THREE.orientation m) = z0
        /\ THREE.scaling m
           = THREE.mkVector3 (Ornaments.scale d) (Ornaments.scale d) (Ornaments.scale d)).
Proof.
  intros Ht Hz. unfold Ornaments.update_box.
  destruct (Rlt_dec t 0.9) as [_|Hn]; [|contradiction].
  do 2 eexists. split; [reflexivity|]. simpl. auto.
Qed.

Lemma spheres_reset_turn t time l : forall i tmp mesh,
  THREE.z (THREE.rotation (fst (forEach_from i l (Ornaments.update_sphere t time) (tmp, mesh))))
  = match l with
    | [] => THREE.z (THREE.rotation tmp)
    | _ :: _ => 0
    end.
Proof.
  induction l as [|d l IH]; intros i tmp mesh; [reflexivity|].
  cbn [forEach_from]. unfold Ornaments.update_sphere at 2.
  rewrite IH. destruct l; reflexivity.
Qed.

(** X24: while the progress is below 0.9 the boxes do not turn about z on
    their own: in such a frame every box instance is given the z
    rotation that the shared tempObject held when the frame began, and
    its own scale on all three axes; and after any frame in which the
    sphere mesh is attached and there is a sphere, tempObject is left
    with the z rotation 0. *)
Theorem X24_boxes_share_turn
    (treeState : TreeMorphState) (state : RootState) (delta : R)
    (c : Ornaments.Instance) (boxes : THREE.InstancedMesh)
    (i : nat) (d : Ornaments.OrnamentData) :
  Ornaments.boxMeshRef c = Some boxes ->
  Ornaments.boxData c !! i = Some d ->
  (i < length (THREE.instanceMatrix boxes))%nat ->
  Ornaments.progressRef (Ornaments.useFrame treeState state delta c) < 0.9 ->
  (exists boxes' m,
     Ornaments.boxMeshRef (Ornaments.useFrame treeState state delta c) = Some boxes'
     /\ THREE.instanceMatrix boxes' !! i = Some m
     /\ THREE.z (THREE.orientation m) = THREE.z (THREE.rotation (Ornaments.tempObject c))
     /\ THREE.scaling m
        = THREE.mkVector3 (Ornaments.scale d) (Ornaments.scale d) (Ornaments.scale d))
  /\ (is_Some (Ornaments.sphereMeshRef c) -> Ornaments.sphereData c <> [] ->
      THREE.z (THREE.rotation
                 (Ornaments.tempObject (Ornaments.useFrame treeState state delta c))) = 0).
Proof.
  intros Hmesh Hd Hi Ht. rewrite Ornaments_useFrame_progress in Ht.
  unfold Ornaments.useFrame. rewrite Hmesh. rewrite Ornaments_progress_approach.
  set (t := approach 1.5 treeState delta (Ornaments.progressRef c)) in *.
  pose proof (forEach_from_given (Ornaments.update_box t (elapsedTime state))
                (fun tmp => THREE.z (THREE.rotation tmp)
                            = THREE.z (THREE.rotation (Ornaments.tempObject c)))
                (fun d m => THREE.z (THREE.orientation m)
                            = THREE.z (THREE.rotation (Ornaments.tempObject c))
                            /\ THREE.scaling m
                               = THREE.mkVector3 (Ornaments.scale d) (Ornaments.scale d)
                                   (Ornaments.scale d))
                (fun d i tmp mesh Hk => update_box_shares t (elapsedTime state) _ d i tmp mesh
                                          Ht Hk)
                (Ornaments.boxData c) 0 (Ornaments.tempObject c) boxes i d eq_refl Hd Hi)
    as (m & Hm & Hz & Hs).
  unfold forEach.
  destruct (forEach_from 0 (Ornaments.boxData c) _ (Ornaments.tempObject c, boxes))
    as [tmp1 boxes1] eqn:Hboxes.
  cbn [snd] in Hm.
  destruct (Ornaments.sphereMeshRef c) as [sm|] eqn:Hsm.
  - pose proof (spheres_reset_turn t (elapsedTime state) (Ornaments.sphereData c) 0 tmp1 sm)
      as Hreset.
    destruct (forEach_from 0 (Ornaments.sphereData c) _ (tmp1, sm)) as [tmp2 sm2].
    cbn [fst] in Hreset. cbn. split.
    + exists (Ornaments.flag_update boxes1), m. auto.
    + intros _ Hne. rewrite Hreset. destruct (Ornaments.sphereData c); [contradiction|].
      reflexivity.
  - cbn. split.
    + exists (Ornaments.flag_update boxes1), m. auto.
    + intros [x Hx]. discriminate.
Qed.

Lemma X24_boxes_share_turn_witness :
  exists boxes' m,
    Ornaments.boxMeshRef
      (Ornaments.useFrame TREE_SHAPE {| elapsedTime := 0; dpr := 1 |} (1 / 6) Sample.ornaments)
    = Some boxes'
    /\ THREE.instanceMatrix boxes' !! 0%nat = Some m
    /\ THREE.z (THREE.orientation m)
       = THREE.z (THREE.rotation (Ornaments.tempObject Sample.ornaments))
    /\ THREE.scaling m
       = THREE.mkVector3 (Ornaments.scale Sample.ornament) (Ornaments.scale Sample.ornament)
           (Ornaments.scale Sample.ornament).
Proof.
  refine (proj1 (X24_boxes_share_turn TREE_SHAPE {| elapsedTime := 0; dpr := 1 |} (1 / 6)
                   Sample.ornaments (Ornaments.new_InstancedMesh 1) 0 Sample.ornament
                   _ _ _ _)).
  - reflexivity.
  - reflexivity.
  - simpl. lia.
  - rewrite sample_frame_progress. lra.
Defined.
